(** * hugescm: line-interning codec, change classification, pkt-line
      scanning, string helpers, path matching and proxy settings, embedded
      from the Go sources.

    Layout of the development:
    - [utf8]            the functions of Go's [unicode/utf8] the sources call;
    - [diffmatchpatch]  the codec of [modules/diffmatchpatch/stringutil.go];
    - [strings], [slices]  what the sources take from Go's standard library;
    - [stringutil]      the search functions of [stringutil.go];
    - [merkletrie]      the three actions;
    - [object]          [modules/zeta/object/change.go], with [sort.Sort];
    - [sample]          an instance of the declarations [change.go] imports;
    - [pktline]         the pkt-line scanner;
    - [strconv]         [strconv.ParseInt(s, 10, 64)];
    - [strengthen]      [StrSplitSkipEmpty], the id parsers, [SimpleAtob];
    - [zeta]            the path matcher and [stringNoCRUD] of
                        [pkg/zeta/misc.go], with [sample_env];
    - [registry], [proxy]  [pkg/transport/proxy/proxy_windows.go], with
                        [sample_proxy];
    followed by the vocabulary of the statements, the lemmas and the
    theorems.

    Machine integers are [Z] with the wrap-around written out, bytes are [Z]
    in [0, 256), Go strings are [string] or lists of bytes. *)

From Stdlib Require Import ZArith Lia Bool Ascii String.
From stdpp Require Import base list sorting strings gmap.

Local Open Scope Z_scope.

(** ** Machine arithmetic *)

Definition u32 (z : Z) : Z := z mod 2 ^ 32.
Definition i32 (z : Z) : Z := (z + 2 ^ 31) mod 2 ^ 32 - 2 ^ 31.
Definition byte (z : Z) : Z := z mod 256.

(** A Go [panic], with the site that raised it. *)
Inductive panic : Type :=
| PanicEncoding (units : Z)      (* "Error encoding an int ... with size n" *)
| PanicTooLarge                  (* "The integer ... is too large" *)
| PanicDecoding                  (* "Unexpected state decoding rune" *)
| PanicNilDeref                  (* nil pointer dereference *)
| PanicIndex                     (* index out of range *)
| PanicMakeSlice.                (* makeslice: cap out of range *)

Inductive result (A : Type) : Type :=
| Ok (a : A)
| Panic (p : panic).
Arguments Ok {A} a.
Arguments Panic {A} p.

Definition is_Ok {A} (r : result A) : bool :=
  match r with Ok _ => true | Panic _ => false end.

(** ** unicode/utf8 (Go standard library), as far as the codec uses it *)
Module utf8.

Definition RuneError : Z := 0xFFFD.
Definition MaxRune : Z := 0x10FFFF.
Definition surrogateMin : Z := 0xD800.
Definition surrogateMax : Z := 0xDFFF.

Definition tx : Z := 0x80.
Definition t2 : Z := 0xC0.
Definition t3 : Z := 0xE0.
Definition t4 : Z := 0xF0.

Definition maskx : Z := 0x3F.
Definition mask2 : Z := 0x1F.
Definition mask3 : Z := 0x0F.
Definition mask4 : Z := 0x07.

Definition rune1Max : Z := Z.shiftl 1 7 - 1.
Definition rune2Max : Z := Z.shiftl 1 11 - 1.
Definition rune3Max : Z := Z.shiftl 1 16 - 1.

Definition locb : Z := 0x80.
Definition hicb : Z := 0xBF.

(* Entries of the [first] table: low nibble is the size, high nibble the
   index into [acceptRanges]; [xx] marks an invalid byte, [as_] ASCII. *)
Definition xx : Z := 0xF1.
Definition as_ : Z := 0xF0.
Definition s1 : Z := 0x02.
Definition s2 : Z := 0x13.
Definition s3 : Z := 0x03.
Definition s4 : Z := 0x23.
Definition s5 : Z := 0x34.
Definition s6 : Z := 0x04.
Definition s7 : Z := 0x44.

(** The 256-entry table [first], row by row as the Go source groups it. *)
Definition first (b : Z) : Z :=
  if b <? 0x80 then as_            (* 0x00-0x7F *)
  else if b <? 0xC2 then xx        (* 0x80-0xBF, 0xC0, 0xC1 *)
  else if b <? 0xE0 then s1        (* 0xC2-0xDF *)
  else if b =? 0xE0 then s2
  else if b <? 0xED then s3        (* 0xE1-0xEC *)
  else if b =? 0xED then s4
  else if b <? 0xF0 then s3        (* 0xEE, 0xEF *)
  else if b =? 0xF0 then s5
  else if b <? 0xF4 then s6        (* 0xF1-0xF3 *)
  else if b =? 0xF4 then s7
  else xx.                         (* 0xF5-0xFF *)

(** [acceptRanges]: 16 entries, of which five are set. *)
Definition acceptRanges (k : Z) : Z * Z :=
  if k =? 0 then (locb, hicb)
  else if k =? 1 then (0xA0, hicb)
  else if k =? 2 then (locb, 0x9F)
  else if k =? 3 then (0x90, hicb)
  else if k =? 4 then (locb, 0x8F)
  else (0, 0).

(** [p[k]]; every use below is guarded by the length test [n < sz]. *)
Definition at_ (p : list Z) (k : nat) : Z := nth k p 0.

(** [DecodeRune(p) (r rune, size int)]. *)
Definition DecodeRune (p : list Z) : Z * Z :=
  let n := Z.of_nat (length p) in
  if n <? 1 then (RuneError, 0) else
  let p0 := at_ p 0 in
  let x := first p0 in
  if x >=? as_ then
    let mask := Z.shiftr (i32 (Z.shiftl x 31)) 31 in
    (Z.lor (Z.land p0 (Z.lnot mask)) (Z.land RuneError mask), 1)
  else
  let sz := Z.land x 7 in
  let accept := acceptRanges (Z.shiftr x 4) in
  if n <? sz then (RuneError, 1) else
  let b1 := at_ p 1 in
  if (b1 <? fst accept) || (snd accept <? b1) then (RuneError, 1) else
  if sz <=? 2 then
    (Z.lor (Z.shiftl (Z.land p0 mask2) 6) (Z.land b1 maskx), 2)
  else
  let b2 := at_ p 2 in
  if (b2 <? locb) || (hicb <? b2) then (RuneError, 1) else
  if sz <=? 3 then
    (Z.lor (Z.lor (Z.shiftl (Z.land p0 mask3) 12)
                  (Z.shiftl (Z.land b1 maskx) 6))
           (Z.land b2 maskx), 3)
  else
  let b3 := at_ p 3 in
  if (b3 <? locb) || (hicb <? b3) then (RuneError, 1) else
  (Z.lor (Z.lor (Z.lor (Z.shiftl (Z.land p0 mask4) 18)
                       (Z.shiftl (Z.land b1 maskx) 12))
                (Z.shiftl (Z.land b2 maskx) 6))
         (Z.land b3 maskx), 4).

(** [encodeRuneNonASCII(p, r)]: the buffer after the writes, and the size.
    The caller's buffer has four bytes, so every write is in range. *)
Definition encodeRuneNonASCII (p : list Z) (r : Z) : list Z * Z :=
  let i := u32 r in
  if i <=? rune2Max then
    (<[1%nat := Z.lor tx (Z.land (byte r) maskx)]>
       (<[0%nat := Z.lor t2 (byte (Z.shiftr r 6))]> p), 2)
  else if (i <? surrogateMin) || ((surrogateMax <? i) && (i <=? rune3Max)) then
    (<[2%nat := Z.lor tx (Z.land (byte r) maskx)]>
       (<[1%nat := Z.lor tx (Z.land (byte (Z.shiftr r 6)) maskx)]>
          (<[0%nat := Z.lor t3 (byte (Z.shiftr r 12))]> p)), 3)
  else if (rune3Max <? i) && (i <=? MaxRune) then
    (<[3%nat := Z.lor tx (Z.land (byte r) maskx)]>
       (<[2%nat := Z.lor tx (Z.land (byte (Z.shiftr r 6)) maskx)]>
          (<[1%nat := Z.lor tx (Z.land (byte (Z.shiftr r 12)) maskx)]>
             (<[0%nat := Z.lor t4 (byte (Z.shiftr r 18))]> p))), 4)
  else
    (* the three bytes of RuneError *)
    (<[2%nat := 0xBD]> (<[1%nat := 0xBF]> (<[0%nat := 0xEF]> p)), 3).

(** [EncodeRune(p, r) int]. *)
Definition EncodeRune (p : list Z) (r : Z) : list Z * Z :=
  if u32 r <=? rune1Max then (<[0%nat := byte r]> p, 1)
  else encodeRuneNonASCII p r.

Definition RuneSelf : Z := 0x80.
Definition UTFMax : Z := 4.

(** [RuneStart(b) bool]. *)
Definition RuneStart (b : Z) : bool := negb (Z.land b 0xC0 =? 0x80).

(** The loop [for start--; start >= lim; start--] of [DecodeLastRune],
    entered with [start] already decremented: the value of [start] when
    it is left.  [todo] bounds the iterations, which are at most
    [UTFMax]. *)
Fixpoint lastStart (todo : nat) (p : list Z) (start lim : Z) : Z :=
  match todo with
  | O => start
  | S todo' =>
      if start >=? lim then
        if RuneStart (at_ p (Z.to_nat start)) then start
        else lastStart todo' p (start - 1) lim
      else start
  end.

(** [DecodeLastRune(p) (r rune, size int)]. *)
Definition DecodeLastRune (p : list Z) : Z * Z :=
  let end_ := Z.of_nat (length p) in
  if end_ =? 0 then (RuneError, 0) else
  let start := end_ - 1 in
  let r := at_ p (Z.to_nat start) in
  if r <? RuneSelf then (r, 1) else
  let lim := if end_ - UTFMax <? 0 then 0 else end_ - UTFMax in
  let start := lastStart (Z.to_nat UTFMax) p (start - 1) lim in
  let start := if start <? 0 then 0 else start in
  let '(r, size) := DecodeRune (drop (Z.to_nat start) p) in
  if negb (start + size =? end_) then (RuneError, 1) else (r, size).

(** [AppendRune(p, r) []byte], with [appendRuneNonASCII]. *)
Definition AppendRune (p : list Z) (r : Z) : list Z :=
  let i := u32 r in
  if i <=? rune1Max then p ++ [byte r]
  else if i <=? rune2Max then
    p ++ [Z.lor t2 (byte (Z.shiftr r 6)); Z.lor tx (Z.land (byte r) maskx)]
  else
    let three (r : Z) :=
      p ++ [Z.lor t3 (byte (Z.shiftr r 12));
            Z.lor tx (Z.land (byte (Z.shiftr r 6)) maskx);
            Z.lor tx (Z.land (byte r) maskx)] in
    if (MaxRune <? i) || ((surrogateMin <=? i) && (i <=? surrogateMax))
    then three RuneError
    else if i <=? rune3Max then three r
    else
      p ++ [Z.lor t4 (byte (Z.shiftr r 18));
            Z.lor tx (Z.land (byte (Z.shiftr r 12)) maskx);
            Z.lor tx (Z.land (byte (Z.shiftr r 6)) maskx);
            Z.lor tx (Z.land (byte r) maskx)].

End utf8.

(** ** modules/diffmatchpatch/stringutil.go *)
Module diffmatchpatch.

Definition UNICODE_INVALID_RANGE_START : Z := 0xD800.
Definition UNICODE_INVALID_RANGE_END : Z := 0xDFFF.
Definition UNICODE_INVALID_RANGE_DELTA : Z :=
  UNICODE_INVALID_RANGE_END - UNICODE_INVALID_RANGE_START + 1.
Definition UNICODE_RANGE_MAX : Z := 0x10FFFF.

Definition ONE_BYTE_BITS : Z := 7.
Definition TWO_BYTE_BITS : Z := 11.
Definition THREE_BYTE_BITS : Z := 16.
Definition FOUR_BYTE_BITS : Z := 21.

(** [getBits(i uint32, cnt byte, from byte) byte]. *)
Definition getBits (i cnt from : Z) : Z :=
  byte (Z.land (Z.shiftr i from) (u32 (u32 (Z.shiftl 1 cnt) - 1))).

(** The byte slices handed to [utf8.DecodeRune] in the three multi-unit
    branches of [intToRune] (0b11000000 = 0xC0, 0b10000000 = 0x80,
    0b11100000 = 0xE0, 0b11110000 = 0xF0). *)
Definition units2 (i : Z) : list Z :=
  [Z.lor 0xC0 (getBits i 5 6); Z.lor 0x80 (getBits i 6 0)].
Definition units3 (i : Z) : list Z :=
  [Z.lor 0xE0 (getBits i 4 12); Z.lor 0x80 (getBits i 6 6);
   Z.lor 0x80 (getBits i 6 0)].
Definition units4 (i : Z) : list Z :=
  [Z.lor 0xF0 (getBits i 3 18); Z.lor 0x80 (getBits i 6 12);
   Z.lor 0x80 (getBits i 6 6); Z.lor 0x80 (getBits i 6 0)].

(** The self-check after each decode: [size != n || r == utf8.RuneError]. *)
Definition checked (n : Z) (d : Z * Z) : result Z :=
  let '(r, size) := d in
  if negb (size =? n) || (r =? utf8.RuneError) then Panic (PanicEncoding n)
  else Ok r.

(** [intToRune(i uint32) rune]. *)
Definition intToRune (i : Z) : result Z :=
  if i <? Z.shiftl 1 ONE_BYTE_BITS then Ok (i32 i)
  else if i <? Z.shiftl 1 TWO_BYTE_BITS then
    checked 2 (utf8.DecodeRune (units2 i))
  else if i <? Z.shiftl 1 THREE_BYTE_BITS - UNICODE_INVALID_RANGE_DELTA - 3 then
    let i := if i >=? UNICODE_INVALID_RANGE_START
             then u32 (i + UNICODE_INVALID_RANGE_DELTA) else i in
    checked 3 (utf8.DecodeRune (units3 i))
  else if i <? Z.shiftl 1 FOUR_BYTE_BITS - UNICODE_INVALID_RANGE_DELTA - 3 then
    let i := u32 (i + (UNICODE_INVALID_RANGE_DELTA + 3)) in
    checked 4 (utf8.DecodeRune (units4 i))
  else Panic PanicTooLarge.

(** [runeToInt(r rune) uint32]. *)
Definition runeToInt (r : Z) : result Z :=
  let i := u32 r in
  if i <? Z.shiftl 1 ONE_BYTE_BITS then Ok i else
  let '(bytes, size) := utf8.EncodeRune [0; 0; 0; 0] r in
  if size =? 2 then
    Ok (Z.lor (u32 (Z.shiftl (Z.land (utf8.at_ bytes 0) 0x1F) 6))
              (Z.land (utf8.at_ bytes 1) 0x3F))
  else if size =? 3 then
    let result :=
      Z.lor (Z.lor (u32 (Z.shiftl (Z.land (utf8.at_ bytes 0) 0xF) 12))
                   (u32 (Z.shiftl (Z.land (utf8.at_ bytes 1) 0x3F) 6)))
            (Z.land (utf8.at_ bytes 2) 0x3F) in
    if result >=? UNICODE_INVALID_RANGE_END
    then Ok (u32 (result - UNICODE_INVALID_RANGE_DELTA))
    else Ok result
  else if size =? 4 then
    let result :=
      Z.lor (Z.lor (Z.lor (u32 (Z.shiftl (Z.land (utf8.at_ bytes 0) 0x7) 18))
                          (u32 (Z.shiftl (Z.land (utf8.at_ bytes 1) 0x3F) 12)))
                   (u32 (Z.shiftl (Z.land (utf8.at_ bytes 2) 0x3F) 6)))
            (Z.land (utf8.at_ bytes 3) 0x3F) in
    Ok (u32 (result - UNICODE_INVALID_RANGE_DELTA - 3))
  else Panic PanicDecoding.

(** The integers [intToRune] is documented to convert:
    "Converts an integer in the range 0~1112060 into a rune". *)
Definition codec_domain (i : Z) : Prop := 0 <= i <= 1112060.

End diffmatchpatch.

(** ** strings.Compare (Go standard library) *)
Module strings.

(** [strings.Compare(a, b)]: -1, 0 or +1 by byte-wise lexicographic order. *)
Definition Compare (a b : string) : Z :=
  match String.compare a b with
  | Lt => -1
  | Eq => 0
  | Gt => 1
  end.

(** Below, a Go string is the list of its bytes ([Z], or [ascii] where
    the code writes character literals). *)
Section Bytes.
Context {A : Type} `{EqDecision A}.

(** [strings.HasPrefix(s, prefix)]. *)
Fixpoint HasPrefix (s prefix : list A) : bool :=
  match prefix, s with
  | [], _ => true
  | p :: prefix', c :: s' => bool_decide (c = p) && HasPrefix s' prefix'
  | _ :: _, [] => false
  end.

(** [strings.Index(s, substr)]: the index of the first instance of
    [substr] in [s], or -1; [Index_at] carries the index of the head. *)
Fixpoint Index_at (s substr : list A) (k : nat) : Z :=
  if HasPrefix s substr then Z.of_nat k
  else
    match s with
    | [] => -1
    | _ :: s' => Index_at s' substr (S k)
    end.

Definition Index (s substr : list A) : Z := Index_at s substr 0.

(** [strings.LastIndex(s, substr)]: the index of the last instance of
    [substr] in [s], or -1. *)
Fixpoint LastIndex_at (s substr : list A) (k : nat) : Z :=
  match s with
  | [] => if HasPrefix s substr then Z.of_nat k else -1
  | _ :: s' =>
      let later := LastIndex_at s' substr (S k) in
      if later >=? 0 then later
      else if HasPrefix s substr then Z.of_nat k else -1
  end.

Definition LastIndex (s substr : list A) : Z := LastIndex_at s substr 0.

(** [strings.HasSuffix(s, suffix)] and [strings.TrimSuffix(s, suffix)]. *)
Definition HasSuffix (s suffix : list A) : bool :=
  (length suffix <=? length s)%nat
  && bool_decide (drop (length s - length suffix) s = suffix).

Definition TrimSuffix (s suffix : list A) : list A :=
  if HasSuffix s suffix then take (length s - length suffix) s else s.

End Bytes.

(** [Split(s, sep)], [SplitN(s, sep, 2)] and [Replace(s, old, new, -1)]
    with [sep], [old] and [new] strings of one byte, which is how
    [proxy_windows.go] calls them. *)

(** The text before the first [sep], and the pieces after it. *)
Fixpoint pieces (s : string) (sep : ascii) : string * list string :=
  match s with
  | EmptyString => (EmptyString, [])
  | String c s' =>
      let '(p, ps) := pieces s' sep in
      if Ascii.eqb c sep then (EmptyString, p :: ps) else (String c p, ps)
  end.

Definition Split (s : string) (sep : ascii) : list string :=
  let '(p, ps) := pieces s sep in p :: ps.

(** The text before and after the first [sep], if there is one. *)
Fixpoint cut (s : string) (sep : ascii) : option (string * string) :=
  match s with
  | EmptyString => None
  | String c s' =>
      if Ascii.eqb c sep then Some (EmptyString, s')
      else match cut s' sep with
           | Some (before, after) => Some (String c before, after)
           | None => None
           end
  end.

Definition SplitN_2 (s : string) (sep : ascii) : list string :=
  match cut s sep with
  | Some (before, after) => [before; after]
  | None => [s]
  end.

Fixpoint Replace (s : string) (old new : ascii) : string :=
  match s with
  | EmptyString => EmptyString
  | String c s' =>
      String (if Ascii.eqb c old then new else c) (Replace s' old new)
  end.

(** [TrimLeftFunc] and [TrimRightFunc] with their helpers [indexFunc] and
    [lastIndexFunc], on the bytes of a string; a rune is a [Z]. *)

(** [for i, r := range s { if f(r) == truth { return i } }]: the index
    reached, [todo] bounding the iterations by the bytes left. *)
Fixpoint indexFunc_loop (todo : nat) (s : list Z) (i : nat)
    (f : Z -> bool) (truth : bool) : Z :=
  match todo with
  | O => -1
  | S todo' =>
      if (i <? length s)%nat then
        let '(r, size) := utf8.DecodeRune (drop i s) in
        if Bool.eqb (f r) truth then Z.of_nat i
        else indexFunc_loop todo' s (i + Z.to_nat size) f truth
      else -1
  end.

Definition indexFunc (s : list Z) (f : Z -> bool) (truth : bool) : Z :=
  indexFunc_loop (length s) s 0 f truth.

(** [for i := len(s); i > 0; { ... }]. *)
Fixpoint lastIndexFunc_loop (todo : nat) (s : list Z) (i : Z)
    (f : Z -> bool) (truth : bool) : Z :=
  match todo with
  | O => -1
  | S todo' =>
      if i >? 0 then
        let '(r, size) := utf8.DecodeLastRune (take (Z.to_nat i) s) in
        let i := i - size in
        if Bool.eqb (f r) truth then i
        else lastIndexFunc_loop todo' s i f truth
      else -1
  end.

Definition lastIndexFunc (s : list Z) (f : Z -> bool) (truth : bool) : Z :=
  lastIndexFunc_loop (length s) s (Z.of_nat (length s)) f truth.

Definition TrimLeftFunc (s : list Z) (f : Z -> bool) : list Z :=
  let i := indexFunc s f false in
  if i =? -1 then [] else drop (Z.to_nat i) s.

(** The index [i] found is below [len(s)] and [i + wid] is at most
    [len(s)], so [s[i]] and [s[0:i]] are in range. *)
Definition TrimRightFunc (s : list Z) (f : Z -> bool) : list Z :=
  let i := lastIndexFunc s f false in
  let i :=
    if (i >=? 0) && (utf8.at_ s (Z.to_nat i) >=? utf8.RuneSelf)
    then i + snd (utf8.DecodeRune (drop (Z.to_nat i) s))
    else i + 1 in
  take (Z.to_nat i) s.

(** [ToLower(s)].  A string of ASCII bytes is lowered byte by byte (and
    returned as it is when it has no upper-case letter); any other string
    goes through [Map(unicode.ToLower, s)], which reads the tables of
    package [unicode] and is a parameter here. *)
Section Lower.

Variable unicode_ToLower_Map : list ascii -> list ascii.

Definition byte_of (c : ascii) : Z := Z.of_N (N_of_ascii c).

(** ['A' <= c && c <= 'Z'], and [c += 'a' - 'A']. *)
Definition isUpper (c : ascii) : bool :=
  (0x41 <=? byte_of c) && (byte_of c <=? 0x5A).

Definition lower_byte (c : ascii) : ascii :=
  if isUpper c then ascii_of_N (N_of_ascii c + 32) else c.

Definition ToLower (s : list ascii) : list ascii :=
  let isASCII := forallb (fun c => byte_of c <? 0x80) s in
  let hasUpper := existsb isUpper s in
  if isASCII then
    if negb hasUpper then s else map lower_byte s
  else unicode_ToLower_Map s.

End Lower.

End strings.

(** ** slices.Equal (Go standard library) *)
Module slices.

Definition Equal (a b : list Z) : bool := bool_decide (a = b).

End slices.

(** ** modules/diffmatchpatch/stringutil.go: the search functions *)
Module stringutil.

Definition len (s : list Z) : Z := Z.of_nat (length s).

(** [indexOf(str string, pattern string, i int) int]. *)
Definition indexOf (str pattern : list Z) (i : Z) : Z :=
  if i >? len str - 1 then -1
  else if i <=? 0 then strings.Index str pattern
  else
    let ind := strings.Index (drop (Z.to_nat i) str) pattern in
    if ind =? -1 then -1 else ind + i.

(** [lastIndexOf(str string, pattern string, i int) int]; the slice
    [str[:i+size]] panics when it ends past the string. *)
Definition lastIndexOf (str pattern : list Z) (i : Z) : result Z :=
  if i <? 0 then Ok (-1)
  else if i >=? len str then Ok (strings.LastIndex str pattern)
  else
    let size := snd (utf8.DecodeRune (drop (Z.to_nat i) str)) in
    if i + size >? len str then Panic PanicIndex
    else Ok (strings.LastIndex (take (Z.to_nat (i + size)) str) pattern).

(** The loop of [runesIndex], [for i := 0; i <= last; i++]; [todo] bounds
    the iterations left.  [r1[i:i+len(r2)]] is in range while [i <= last]. *)
Fixpoint runesIndex_loop (todo : nat) (r1 r2 : list Z) (last : Z) (i : nat)
  : Z :=
  match todo with
  | O => -1
  | S todo' =>
      if Z.of_nat i <=? last then
        if slices.Equal (take (length r2) (drop i r1)) r2 then Z.of_nat i
        else runesIndex_loop todo' r1 r2 last (S i)
      else -1
  end.

(** [runesIndex(r1, r2 []rune) int]. *)
Definition runesIndex (r1 r2 : list Z) : Z :=
  let last := len r1 - len r2 in
  runesIndex_loop (S (length r1)) r1 r2 last 0.

(** [runesIndexOf(target, pattern []rune, i int) int]. *)
Definition runesIndexOf (target pattern : list Z) (i : Z) : Z :=
  if i >? len target - 1 then -1
  else if i <=? 0 then runesIndex target pattern
  else
    let ind := runesIndex (drop (Z.to_nat i) target) pattern in
    if ind =? -1 then -1 else ind + i.

End stringutil.

(** ** modules/merkletrie: the three actions *)
Module merkletrie.

Inductive Action : Type := Insert | Delete | Modify.

Definition Action_eqb (a b : Action) : bool :=
  match a, b with
  | Insert, Insert | Delete, Delete | Modify, Modify => true
  | _, _ => false
  end.

End merkletrie.

(** ** modules/zeta/object/change.go *)
Module object.

(** The declarations [change.go] uses and that live in other files of the
    package: the tree and tree-entry types with their [Equal] methods, the
    file mode with [IsFile], and [newFile].  A [*Tree] is an [option Tree],
    [None] being the nil pointer. *)
Class Decls : Type := {
  Hash : Type;
  FileMode : Type;
  Backend : Type;
  Tree : Type;
  TreeEntry : Type;
  File : Type;
  (* the zero value of a [TreeEntry] *)
  TreeEntry_zero : TreeEntry;
  (* the fields of a [TreeEntry] that [Files] reads *)
  TreeEntry_Name : TreeEntry -> string;
  TreeEntry_Mode : TreeEntry -> FileMode;
  TreeEntry_Hash : TreeEntry -> Hash;
  TreeEntry_Size : TreeEntry -> Z;
  TreeEntry_Equal : TreeEntry -> TreeEntry -> bool;
  FileMode_IsFile : FileMode -> bool;
  (* the field [b] of a [Tree] *)
  Tree_b : Tree -> Backend;
  Tree_Equal : option Tree -> option Tree -> bool;
  newFile : string -> FileMode -> Hash -> Z -> Backend -> File;
}.

Section WithDecls.
Context `{Decls}.

(** [ChangeEntry]. *)
Record ChangeEntry : Type := {
  Name : string;
  Tree_ : option Tree;
  TreeEntry_ : TreeEntry;
}.

(** [Change]. *)
Record Change : Type := {
  From : ChangeEntry;
  To : ChangeEntry;
}.

(** [var empty ChangeEntry]: the zero value. *)
Definition empty : ChangeEntry :=
  {| Name := ""; Tree_ := None; TreeEntry_ := TreeEntry_zero |}.

(** [(e *ChangeEntry) Equal(o *ChangeEntry) bool]. *)
Definition ChangeEntry_Equal (e o : ChangeEntry) : bool :=
  String.eqb (Name e) (Name o)
  && Tree_Equal (Tree_ e) (Tree_ o)
  && TreeEntry_Equal (TreeEntry_ e) (TreeEntry_ o).

Inductive error : Type :=
| ErrMalformedChange.            (* "malformed change: empty from and to" *)

(** [(c *Change) Action() (merkletrie.Action, error)]; the action returned
    next to a non-nil error is never looked at and is left out. *)
Definition Action (c : Change) : merkletrie.Action + error :=
  if ChangeEntry_Equal (From c) empty && ChangeEntry_Equal (To c) empty
  then inr ErrMalformedChange
  else if ChangeEntry_Equal (From c) empty then inl merkletrie.Insert
  else if ChangeEntry_Equal (To c) empty then inl merkletrie.Delete
  else inl merkletrie.Modify.

(** [newFile(e.Name, e.Mode, e.Hash, e.Size, side.Tree.b)]; reading [b]
    through a nil [Tree] panics. *)
Definition entryFile (side : ChangeEntry) : result File :=
  match Tree_ side with
  | None => Panic PanicNilDeref
  | Some t =>
      let e := TreeEntry_ side in
      Ok (newFile (TreeEntry_Name e) (TreeEntry_Mode e) (TreeEntry_Hash e)
                  (TreeEntry_Size e) (Tree_b t))
  end.

(** [(c *Change) Files() (from, to *File, err error)]. *)
Definition Files (c : Change)
  : result (option File * option File * option error) :=
  match Action c with
  | inr err => Ok (None, None, Some err)
  | inl action =>
      let second (to : option File) :=
        if merkletrie.Action_eqb action merkletrie.Delete
           || merkletrie.Action_eqb action merkletrie.Modify
        then
          if negb (FileMode_IsFile (TreeEntry_Mode (TreeEntry_ (From c))))
          then Ok (None, None, None)
          else
            match entryFile (From c) with
            | Panic p => Panic p
            | Ok from => Ok (Some from, to, None)
            end
        else Ok (None, to, None) in
      if merkletrie.Action_eqb action merkletrie.Insert
         || merkletrie.Action_eqb action merkletrie.Modify
      then
        if negb (FileMode_IsFile (TreeEntry_Mode (TreeEntry_ (To c))))
        then Ok (None, None, None)
        else
          match entryFile (To c) with
          | Panic p => Panic p
          | Ok to => second (Some to)
          end
      else second None
  end.

(** [(c *Change) name() string]. *)
Definition name (c : Change) : string :=
  if negb (ChangeEntry_Equal (From c) empty) then Name (From c)
  else Name (To c).

(** [type Changes []*Change], with [Len], [Swap] and [Less]; an index out
    of range panics. *)
Definition Changes : Type := list Change.

Definition Len (c : Changes) : nat := length c.

Definition Swap (c : Changes) (i j : nat) : result Changes :=
  match c !! i, c !! j with
  | Some ci, Some cj => Ok (<[j := ci]> (<[i := cj]> c))
  | _, _ => Panic PanicIndex
  end.

Definition Less (c : Changes) (i j : nat) : result bool :=
  match c !! i, c !! j with
  | Some ci, Some cj => Ok (strings.Compare (name ci) (name cj) <? 0)
  | _, _ => Panic PanicIndex
  end.

(** [sort.Sort] on a [Changes].  Go's [sort.Sort] hands slices of at most
    twelve elements to [insertionSort(data, 0, n)], which is what is
    embedded here; longer slices go through pattern-defeating quicksort,
    with the same contract. *)
Fixpoint insertionSort_inner (c : Changes) (a j : nat) : result Changes :=
  match j with
  | O => Ok c
  | S j' =>
      if (a <? j)%nat then
        match Less c j j' with
        | Panic p => Panic p
        | Ok false => Ok c
        | Ok true =>
            match Swap c j j' with
            | Panic p => Panic p
            | Ok c' => insertionSort_inner c' a j'
            end
        end
      else Ok c
  end.

Fixpoint insertionSort_outer (todo : nat) (c : Changes) (a i : nat)
  : result Changes :=
  match todo with
  | O => Ok c
  | S todo' =>
      match insertionSort_inner c a i with
      | Panic p => Panic p
      | Ok c' => insertionSort_outer todo' c' a (S i)
      end
  end.

(** [insertionSort(data, a, b)]: [i] runs from [a + 1] while [i < b]. *)
Definition insertionSort (c : Changes) (a b : nat) : result Changes :=
  insertionSort_outer (b - (a + 1)) c a (a + 1).

Definition Sort (c : Changes) : result Changes :=
  let n := Len c in
  if (n <=? 1)%nat then Ok c else insertionSort c 0 n.

(** [(c *Change) String() string].  The verb [%s] prints the action
    through its [String] method, which [modules/merkletrie] declares. *)
Variable Action_String : merkletrie.Action -> string.

Definition Change_String (c : Change) : string :=
  match Action c with
  | inr _ => "malformed change"
  | inl action =>
      ("<Action: " +:+ Action_String action +:+ ", Path: " +:+ name c +:+ ">")
  end.

(** [(c Changes) String() string]: the loop [for _, v := range c] on the
    state [(buffer, comma)]. *)
Fixpoint Changes_String_loop (c : Changes) (buffer comma : string) : string :=
  match c with
  | [] => buffer
  | v :: c' =>
      Changes_String_loop c' ((buffer +:+ comma) +:+ Change_String v) ", "
  end.

Definition Changes_String (c : Changes) : string :=
  Changes_String_loop c "[" "" +:+ "]".

End WithDecls.

End object.

(** ** A concrete instance of the declarations

    Enough of the rest of the package to run the definitions: hashes and
    trees are numbers, a tree entry is its four fields, file modes are the
    usual octal ones. *)
Module sample.

Definition Regular : Z := 0x81A4.      (* 0100644 *)
Definition Dir : Z := 0x4000.          (* 0040000 *)

Record entry : Type := {
  e_name : string;
  e_mode : Z;
  e_hash : Z;
  e_size : Z;
}.

Definition entry_eqb (a b : entry) : bool :=
  String.eqb (e_name a) (e_name b) && (e_mode a =? e_mode b)
  && (e_hash a =? e_hash b) && (e_size a =? e_size b).

Definition tree_eqb (a b : option Z) : bool :=
  match a, b with
  | None, None => true
  | Some x, Some y => x =? y
  | _, _ => false
  end.

#[global] Instance decls : object.Decls := {|
  object.Hash := Z;
  object.FileMode := Z;
  object.Backend := Z;
  object.Tree := Z;
  object.TreeEntry := entry;
  object.File := string * Z * Z * Z * Z;
  object.TreeEntry_zero :=
    {| e_name := ""; e_mode := 0; e_hash := 0; e_size := 0 |};
  object.TreeEntry_Name := e_name;
  object.TreeEntry_Mode := e_mode;
  object.TreeEntry_Hash := e_hash;
  object.TreeEntry_Size := e_size;
  object.TreeEntry_Equal := entry_eqb;
  object.FileMode_IsFile := fun m => m =? Regular;
  object.Tree_b := fun t => t;
  object.Tree_Equal := tree_eqb;
  object.newFile := fun n m h s b => (n, m, h, s, b);
|}.

(** A side at [path] in tree [t], with the given mode. *)
Definition side (path : string) (t mode : Z) : object.ChangeEntry :=
  {| object.Name := path; object.Tree_ := Some t;
     object.TreeEntry_ :=
       {| e_name := path; e_mode := mode; e_hash := 7; e_size := 3 |} |}.

(** A modification at [path], a regular file on both sides. *)
Definition modified (path : string) : object.Change :=
  {| object.From := side path 1 Regular; object.To := side path 2 Regular |}.

(** An insertion at [path]. *)
Definition inserted (path : string) : object.Change :=
  {| object.From := object.empty; object.To := side path 2 Regular |}.

(** A directory replaced by a regular file at [path]. *)
Definition dir_to_file (path : string) : object.Change :=
  {| object.From := side path 1 Dir; object.To := side path 2 Regular |}.

End sample.

(** ** pkt-line scanner *)
Module pktline.

Definition lenSize : Z := 4.

Inductive error : Type :=
| ErrInvalidPktLen               (* "invalid pkt-len found" *)
| EOF                            (* io.EOF *)
| ErrUnexpectedEOF               (* io.ErrUnexpectedEOF *)
| ErrRead.                       (* any other error of the reader *)

(** An [io.Reader]: the bytes it still delivers, and the error it reports
    once they are consumed ([EOF] for a plain end of stream). *)
Record Reader : Type := {
  pending : list Z;
  at_end : error;
}.

(** [io.ReadFull(r, buf)] for a buffer of [n] bytes: the bytes read, the
    reader afterwards, and the error. *)
Definition ReadFull (r : Reader) (n : nat) : list Z * Reader * option error :=
  let got := take n (pending r) in
  let r' := {| pending := drop n (pending r); at_end := at_end r |} in
  if (length got =? n)%nat then (got, r', None)
  else
    match at_end r, got with
    | EOF, _ :: _ => (got, r', Some ErrUnexpectedEOF)
    | e, _ => (got, r', Some e)
    end.

(** [Scanner]. *)
Record Scanner : Type := {
  r : Reader;
  err : option error;
  payload : list Z;
  len : list Z;                  (* [lenSize]byte *)
}.

Definition row_ff : list Z := repeat 0xff 16.

(** [reverseHexTable], sixteen bytes a row. *)
Definition reverseHexTable : list Z :=
  row_ff ++ row_ff ++ row_ff
  ++ [0x00; 0x01; 0x02; 0x03; 0x04; 0x05; 0x06; 0x07;
      0x08; 0x09; 0xff; 0xff; 0xff; 0xff; 0xff; 0xff]
  ++ [0xff; 0x0a; 0x0b; 0x0c; 0x0d; 0x0e; 0x0f; 0xff;
      0xff; 0xff; 0xff; 0xff; 0xff; 0xff; 0xff; 0xff]
  ++ row_ff
  ++ [0xff; 0x0a; 0x0b; 0x0c; 0x0d; 0x0e; 0x0f; 0xff;
      0xff; 0xff; 0xff; 0xff; 0xff; 0xff; 0xff; 0xff]
  ++ row_ff
  ++ row_ff ++ row_ff ++ row_ff ++ row_ff
  ++ row_ff ++ row_ff ++ row_ff ++ row_ff.

(** [hexval(b byte) int]. *)
Definition hexval (b : Z) : Z := nth (Z.to_nat (byte b)) reverseHexTable 0.

(** [hexDecode(lenBytes [lenSize]byte) (int, error)]. *)
Definition hexDecode (lenBytes : list Z) : Z * option error :=
  let a := hexval (nth 0 lenBytes 0) in
  let b := hexval (nth 1 lenBytes 0) in
  let c := hexval (nth 2 lenBytes 0) in
  let d := hexval (nth 3 lenBytes 0) in
  if (a >? 0xf) || (b >? 0xf) || (c >? 0xf) || (d >? 0xf)
  then (0, Some ErrInvalidPktLen)
  else (Z.lor (Z.lor (Z.lor (Z.shiftl a 12) (Z.shiftl b 8)) (Z.shiftl c 4)) d,
        None).

Section WithLimit.

(** [OversizePayloadMax], a constant declared in another file of the
    package. *)
Variable OversizePayloadMax : Z.

(** [(s *Scanner) readPayloadLen() (int, error)], with the scanner after
    the read. *)
Definition readPayloadLen (s : Scanner) : Scanner * (Z * option error) :=
  let '(got, r', e) := ReadFull (r s) (Z.to_nat lenSize) in
  let s' := {| r := r'; err := err s; payload := payload s;
               len := got ++ drop (length got) (len s) |} in
  match e with
  | Some ErrUnexpectedEOF => (s', (0, Some ErrInvalidPktLen))
  | Some e => (s', (0, Some e))
  | None =>
      match hexDecode (len s') with
      | (_, Some e) => (s', (0, Some e))
      | (n, None) =>
          if n =? 0 then (s', (0, None))
          else if n <=? lenSize then (s', (0, Some ErrInvalidPktLen))
          else if n >? OversizePayloadMax + lenSize
               then (s', (0, Some ErrInvalidPktLen))
          else (s', (n - lenSize, None))
      end
  end.

(** [NewScanner(r)]. *)
Definition NewScanner (rd : Reader) : Scanner :=
  {| r := rd; err := None; payload := []; len := [0; 0; 0; 0] |}.

(** [(s *Scanner) Err() error] and [(s *Scanner) Bytes() []byte]. *)
Definition Err (s : Scanner) : option error := err s.
Definition Bytes (s : Scanner) : list Z := payload s.

(** [(s *Scanner) Scan() bool].  The state is the scanner together with
    [spare], the bytes of the array behind [s.payload] past its length, so
    that [cap(s.payload)] is [length (payload s) + length spare]: the
    payload is read into [s.payload[:l]], in place when the capacity
    allows and into a fresh zeroed array otherwise. *)
Definition Scan (st : Scanner * list Z) : Scanner * list Z * bool :=
  let '(s0, spare) := st in
  let '(s1, (l, e)) := readPayloadLen s0 in
  match e with
  | Some EOF =>
      ({| r := r s1; err := None; payload := payload s1; len := len s1 |},
       spare, false)
  | Some e =>
      ({| r := r s1; err := Some e; payload := payload s1; len := len s1 |},
       spare, false)
  | None =>
      let n := Z.to_nat l in
      let '(old, array) :=
        if Z.of_nat (length (payload s1) + length spare) <? l
        then ([], repeat 0 n)
        else (payload s1, payload s1 ++ spare) in
      let '(got, r', e2) := ReadFull (r s1) n in
      let array' := got ++ drop (length got) array in
      match e2 with
      | Some e =>
          ({| r := r'; err := Some e;
              payload := take (length old) array'; len := len s1 |},
           drop (length old) array', false)
      | None =>
          ({| r := r'; err := None;
              payload := take n array'; len := len s1 |},
           drop n array', true)
      end
  end.

End WithLimit.

End pktline.

(** ** strconv.ParseInt(s, 10, 64) (Go standard library) *)
Module strconv.

Inductive NumError : Type :=
| ErrSyntax                      (* "invalid syntax" *)
| ErrRange.                      (* "value out of range" *)

Definition u64 (z : Z) : Z := z mod 2 ^ 64.
Definition maxUint64 : Z := 2 ^ 64 - 1.

(** The byte of a character, and [lower(c)]. *)
Definition code (c : ascii) : Z := Z.of_N (N_of_ascii c).
Definition lower (c : Z) : Z := Z.lor c 0x20.

(** The loop of [ParseUint] over the bytes of [s], for base 10 and 64
    bits: [cutoff] is [maxUint64/10 + 1] and [maxVal] is [maxUint64]. *)
Fixpoint ParseUint_loop (s : list ascii) (n : Z) : Z * option NumError :=
  match s with
  | [] => (n, None)
  | c :: s' =>
      let c := code c in
      let digit :=
        if (0x30 <=? c) && (c <=? 0x39) then Some (c - 0x30)
        else if (0x61 <=? lower c) && (lower c <=? 0x7A)
             then Some (lower c - 0x61 + 10)
        else None in
      match digit with
      | None => (0, Some ErrSyntax)
      | Some d =>
          if d >=? 10 then (0, Some ErrSyntax)
          else if n >=? maxUint64 / 10 + 1 then (maxUint64, Some ErrRange)
          else
            let n := u64 (n * 10) in
            let n1 := u64 (n + d) in
            if (n1 <? n) || (n1 >? maxUint64) then (maxUint64, Some ErrRange)
            else ParseUint_loop s' n1
      end
  end.

(** [ParseUint(s, 10, 64)]. *)
Definition ParseUint (s : list ascii) : Z * option NumError :=
  match s with
  | [] => (0, Some ErrSyntax)
  | _ :: _ => ParseUint_loop s 0
  end.

(** [ParseInt(s, 10, 64)]. *)
Definition ParseInt (s : list ascii) : Z * option NumError :=
  match s with
  | [] => (0, Some ErrSyntax)
  | c0 :: rest =>
      let '(neg, digits) :=
        if Ascii.eqb c0 "+" then (false, rest)
        else if Ascii.eqb c0 "-" then (true, rest)
        else (false, s) in
      let '(un, e) := ParseUint digits in
      match e with
      | Some ErrSyntax => (0, Some ErrSyntax)
      | _ =>
          let cutoff := 2 ^ 63 in
          if negb neg && (un >=? cutoff) then (cutoff - 1, Some ErrRange)
          else if neg && (un >? cutoff) then (- cutoff, Some ErrRange)
          else (if neg then - un else un, None)
      end
  end.

End strconv.

(** ** strengthen: [StrSplitSkipEmpty] *)
Module strengthen.

(** A Go string is a sequence of bytes, here a list of [ascii]. *)
Definition gostring : Type := list ascii.

(** [s[first:i]]. *)
Definition slice (s : gostring) (first i : nat) : gostring :=
  take (i - first) (drop first s).

(** The loop [for ; i < len(s); i++], on the state [(sv, first)]; [todo]
    counts the iterations left, [len(s) - i]. *)
Fixpoint split_loop (todo : nat) (s : gostring) (sep : ascii)
    (sv : list gostring) (first i : nat) : list gostring * nat :=
  match todo with
  | O => (sv, first)
  | S todo' =>
      match s !! i with
      | None => (sv, first)
      | Some b =>
          if negb (Ascii.eqb b sep) then split_loop todo' s sep sv first (S i)
          else
            let sv' := if negb (first =? i)%nat
                       then sv ++ [slice s first i] else sv in
            split_loop todo' s sep sv' (S i) (S i)
      end
  end.

(** [StrSplitSkipEmpty(s string, sep byte, suggestcap int) []string].
    [make([]string, 0, suggestcap)] panics on a negative capacity and
    otherwise only sizes the allocation (running out of memory is not
    modelled). *)
Definition StrSplitSkipEmpty (s : gostring) (sep : ascii) (suggestcap : Z)
  : result (list gostring) :=
  if suggestcap <? 0 then Panic PanicMakeSlice else
  let '(sv, first) := split_loop (length s) s sep [] 0 0 in
  if (first <? length s)%nat then Ok (sv ++ [drop first s]) else Ok sv.

(** The id parsers of the same file. *)

Inductive error : Type :=
| ErrNotUserID                   (* "not user id" *)
| ErrNotKeyID                    (* "not key id" *)
| ErrNum (e : strconv.NumError).

Definition lift (res : Z * option strconv.NumError) : Z * option error :=
  (fst res, option_map ErrNum (snd res)).

(** [ParseUID(glid string) (int64, error)]. *)
Definition ParseUID (glid : list ascii) : Z * option error :=
  if negb (strings.HasPrefix glid (list_ascii_of_string "user-"))
  then (0, Some ErrNotUserID)
  else lift (strconv.ParseInt (drop 5 glid)).

(** [DecodeUID(glid string) int64]. *)
Definition DecodeUID (glid : list ascii) : Z :=
  if negb (strings.HasPrefix glid (list_ascii_of_string "user-"))
  then fst (strconv.ParseInt glid)
  else fst (strconv.ParseInt (drop 5 glid)).

(** [ParseKID(glid string) (int64, error)]. *)
Definition ParseKID (glid : list ascii) : Z * option error :=
  if negb (strings.HasPrefix glid (list_ascii_of_string "key-"))
  then (0, Some ErrNotKeyID)
  else lift (strconv.ParseInt (drop 4 glid)).

(** [SimpleAtob(s string, dv bool) bool]; the cases of the [switch] are
    compared in order. *)
Section Atob.

Variable unicode_ToLower_Map : list ascii -> list ascii.

Definition SimpleAtob (s : gostring) (dv : bool) : bool :=
  let l := strings.ToLower unicode_ToLower_Map s in
  if existsb (fun w => bool_decide (l = list_ascii_of_string w))
             ["true"; "yes"; "on"; "1"]%string
  then true
  else if existsb (fun w => bool_decide (l = list_ascii_of_string w))
                  ["false"; "no"; "off"; "0"]%string
  then false
  else dv.

End Atob.

End strengthen.

(** ** pkg/zeta/misc.go: path matching *)
Module zeta.

(** What [misc.go] takes from elsewhere: the wildmatch package, the
    constants [escapeChars] (through [strings.ContainsAny(pattern,
    escapeChars)]) and [dotDot], the operating system behind
    [caseInsensitive], and [strings.EqualFold]. *)
Class Env : Type := {
  Wildmatch : Type;
  NewWildmatch : list ascii -> Wildmatch;
  Wildmatch_Match : Wildmatch -> list ascii -> bool;
  containsEscape : list ascii -> bool;
  dotDot : list ascii;
  caseInsensitive : bool;
  EqualFold : list ascii -> list ascii -> bool;
}.

Section WithEnv.
Context `{Env}.

(** [Matcher]. *)
Record Matcher : Type := {
  prefix : list (list ascii);
  wildmatchs : list Wildmatch;
}.

(** One round of the loop of [NewMatcher]. *)
Definition NewMatcher_step (m : Matcher) (pattern : list ascii) : Matcher :=
  if (length pattern =? 0)%nat then m
  else if negb (containsEscape pattern) then
    {| prefix := prefix m ++ [strings.TrimSuffix pattern ["/"%char]];
       wildmatchs := wildmatchs m |}
  else
    {| prefix := prefix m;
       wildmatchs := wildmatchs m ++ [NewWildmatch pattern] |}.

(** [NewMatcher(patterns []string) *Matcher]. *)
Definition NewMatcher (patterns : list (list ascii)) : Matcher :=
  fold_left NewMatcher_step patterns {| prefix := []; wildmatchs := [] |}.

(** [systemCaseEqual(a, b string) bool]. *)
Definition systemCaseEqual (a b : list ascii) : bool :=
  if caseInsensitive then EqualFold a b else bool_decide (a = b).

(** The test of the first loop of [Match]; [name[prefixLen]] is read only
    when [name] is longer than the prefix. *)
Definition underPrefix (name p : list ascii) : bool :=
  let prefixLen := length p in
  (prefixLen <=? length name)%nat
  && systemCaseEqual (take prefixLen name) p
  && ((length name =? prefixLen)%nat
      || match name !! prefixLen with
         | Some c => bool_decide (c = "/"%char)
         | None => false
         end).

Fixpoint Match_prefixes (ps : list (list ascii)) (name : list ascii) : bool :=
  match ps with
  | [] => false
  | p :: ps' => if underPrefix name p then true else Match_prefixes ps' name
  end.

Fixpoint Match_wildmatchs (ws : list Wildmatch) (name : list ascii) : bool :=
  match ws with
  | [] => false
  | w :: ws' => if Wildmatch_Match w name then true else Match_wildmatchs ws' name
  end.

(** [(m *Matcher) Match(name string) bool]. *)
Definition Match (m : Matcher) (name : list ascii) : bool :=
  if (length (wildmatchs m) =? 0)%nat && (length (prefix m) =? 0)%nat then true
  else if Match_prefixes (prefix m) name then true
  else if Match_wildmatchs (wildmatchs m) name then true
  else false.

(** [hasDotDot(name string) bool]; [name[2]] panics on a name of fewer
    than three bytes. *)
Definition hasDotDot (name : list ascii) : result bool :=
  if bool_decide (name = dotDot) then Ok true
  else if strings.HasPrefix name dotDot then
    match name !! 2%nat with
    | Some c => Ok (bool_decide (c = "/"%char))
    | None => Panic PanicIndex
    end
  else Ok false.

End WithEnv.

(** [crud(r rune) bool]. *)
Definition crud (r : Z) : bool :=
  (r <=? 32)
  || (r =? 0x2C)                 (* , *)
  || (r =? 0x3A)                 (* : *)
  || (r =? 0x3B)                 (* ; *)
  || (r =? 0x3C)                 (* < *)
  || (r =? 0x3E)                 (* > *)
  || (r =? 0x22)                 (* double quote *)
  || (r =? 0x5C)                 (* backslash *)
  || (r =? 0x27).                (* single quote *)

(** The loop [for _, c := range s] of [stringNoCRUD] on the builder [b];
    [todo] bounds the iterations by the bytes left. *)
Fixpoint stringNoCRUD_loop (todo : nat) (s : list Z) (i : nat) (b : list Z)
  : list Z :=
  match todo with
  | O => b
  | S todo' =>
      if (i <? length s)%nat then
        let '(c, size) := utf8.DecodeRune (drop i s) in
        if (c =? 0x0A) || (c =? 0x3C) || (c =? 0x3E)
        then stringNoCRUD_loop todo' s (i + Z.to_nat size) b
        else stringNoCRUD_loop todo' s (i + Z.to_nat size) (utf8.AppendRune b c)
      else b
  end.

(** [stringNoCRUD(s string) string], on the bytes of [s]. *)
Definition stringNoCRUD (s : list Z) : list Z :=
  let s := strings.TrimLeftFunc s crud in
  let s := strings.TrimRightFunc s crud in
  stringNoCRUD_loop (length s) s 0 [].

End zeta.

(** ** A concrete environment for [misc.go]

    A case-sensitive system, with a wildmatch that only knows a trailing
    star; enough to run the definitions. *)
Module sample_env.

Definition star_match (w name : list ascii) : bool :=
  strings.HasPrefix name (strings.TrimSuffix w ["*"%char]).

#[global] Instance env : zeta.Env := {|
  zeta.Wildmatch := list ascii;
  zeta.NewWildmatch := fun pattern => pattern;
  zeta.Wildmatch_Match := star_match;
  zeta.containsEscape :=
    fun pattern =>
      existsb (fun c => bool_decide (c = "*"%char) || bool_decide (c = "?"%char)
                        || bool_decide (c = "["%char)) pattern;
  zeta.dotDot := list_ascii_of_string "..";
  zeta.caseInsensitive := false;
  zeta.EqualFold := fun a b => bool_decide (a = b);
|}.

End sample_env.

(** ** golang.org/x/sys/windows/registry, as far as the proxy settings
       read it *)
Module registry.

Inductive Hive : Type := LOCAL_MACHINE | CURRENT_USER.

Inductive error : Type :=
| ErrNotExist                    (* the value or key does not exist *)
| ErrOther (errno : Z).          (* any other error *)

(** An open key: what [GetStringValue] and [GetIntegerValue] return for a
    value name, the value and the error (the value type returned between
    them is dropped by every caller). *)
Record Key : Type := {
  GetStringValue : string -> string * option error;
  GetIntegerValue : string -> Z * option error;
}.

(** [OpenKey(hive, path, QUERY_VALUE)] on a registry. *)
Definition Registry : Type := Hive -> string -> Key + error.

End registry.

(** ** pkg/transport/proxy/proxy_windows.go *)
Module proxy.

Import registry.

Record windowsProxyConfig : Type := {
  ProxyServer : string;
  ProxyOverride : string;
  ProxyEnable : Z;
  AutoConfigURL : string;
}.

(** [httpproxy.Config]. *)
Record Config : Type := {
  HTTPProxy : string;
  HTTPSProxy : string;
  NoProxy : string;
  CGI : bool;
}.

Definition policies : string :=
  "Software\Policies\Microsoft\Windows\CurrentVersion\Internet Settings".
Definition settings : string :=
  "Software\Microsoft\Windows\CurrentVersion\Internet Settings".

(** [err != nil && err != registry.ErrNotExist]. *)
Definition fails (err : option error) : bool :=
  match err with
  | None => false
  | Some ErrNotExist => false
  | Some (ErrOther _) => true
  end.

(** [fromWindowsProxy() (values windowsProxyConfig, err error)], reading
    the registry [reg]. *)
Definition fromWindowsProxy (reg : Registry) : windowsProxyConfig * option error :=
  let proxySettingsPerUser :=
    match reg LOCAL_MACHINE policies with
    | inl k =>
        let '(tempPrxUsrSettings, err) := GetIntegerValue k "ProxySettingsPerUser" in
        match err with
        | None => tempPrxUsrSettings
        | Some _ => 1
        end
    | inr _ => 1
    end in
  let hkey := if proxySettingsPerUser =? 0 then LOCAL_MACHINE else CURRENT_USER in
  let values :=
    {| ProxyServer := ""; ProxyOverride := ""; ProxyEnable := 0;
       AutoConfigURL := "" |} in
  match reg hkey settings with
  | inr err => (values, Some err)
  | inl k =>
      let '(v, err) := GetStringValue k "ProxyServer" in
      let values :=
        {| ProxyServer := v; ProxyOverride := ProxyOverride values;
           ProxyEnable := ProxyEnable values;
           AutoConfigURL := AutoConfigURL values |} in
      if fails err then (values, err) else
      let '(v, err) := GetStringValue k "ProxyOverride" in
      let values :=
        {| ProxyServer := ProxyServer values; ProxyOverride := v;
           ProxyEnable := ProxyEnable values;
           AutoConfigURL := AutoConfigURL values |} in
      if fails err then (values, err) else
      let '(v, err) := GetIntegerValue k "ProxyEnable" in
      let values :=
        {| ProxyServer := ProxyServer values;
           ProxyOverride := ProxyOverride values; ProxyEnable := v;
           AutoConfigURL := AutoConfigURL values |} in
      if fails err then (values, err) else
      let '(v, err) := GetStringValue k "AutoConfigURL" in
      let values :=
        {| ProxyServer := ProxyServer values;
           ProxyOverride := ProxyOverride values;
           ProxyEnable := ProxyEnable values; AutoConfigURL := v |} in
      if fails err then (values, err) else
      (values, None)
  end.

Section WithEnvironment.

(** [os.Getenv], and [getEnvAny] of the package's other file. *)
Variable Getenv : string -> string.
Variable getEnvAny : list string -> string.

(** The body of the loop over [strings.Split(values.ProxyServer, ";")];
    [pair[0]] on an empty slice would panic. *)
Definition protocol_step (protocol : gmap string string) (s : string)
  : result (gmap string string) :=
  if String.eqb s "" then Ok protocol else
  let pair := strings.SplitN_2 s "=" in
  if (1 <? length pair)%nat then
    match pair with
    | p0 :: p1 :: _ => Ok (<[p0 := p1]> protocol)
    | _ => Panic PanicIndex
    end
  else
    match pair with
    | p0 :: _ => Ok (<[EmptyString := p0]> protocol)
    | [] => Panic PanicIndex
    end.

Fixpoint protocol_loop (ss : list string) (protocol : gmap string string)
  : result (gmap string string) :=
  match ss with
  | [] => Ok protocol
  | s :: ss' =>
      match protocol_step protocol s with
      | Panic p => Panic p
      | Ok protocol' => protocol_loop ss' protocol'
      end
  end.

(** The closure [getProtocolAny]. *)
Fixpoint getProtocolAny (protocol : gmap string string) (keys : list string)
  : string :=
  match keys with
  | [] => ""
  | a :: keys' =>
      match protocol !! a with
      | Some v => v
      | None => getProtocolAny protocol keys'
      end
  end.

(** [FromEnvironment() *httpproxy.Config], reading the registry [reg]. *)
Definition FromEnvironment (reg : Registry) : result Config :=
  let cfg :=
    {| HTTPProxy := getEnvAny ["HTTP_PROXY"; "http_proxy"; "ALL_PROXY"; "all_proxy"];
       HTTPSProxy := getEnvAny ["HTTPS_PROXY"; "https_proxy"; "ALL_PROXY"; "all_proxy"];
       NoProxy := getEnvAny ["NO_PROXY"; "no_proxy"];
       CGI := negb (String.eqb (Getenv "REQUEST_METHOD") "") |} in
  let '(values, err) := fromWindowsProxy reg in
  match err with
  | Some _ => Ok cfg
  | None =>
      if ProxyEnable values >? 1 then
        match protocol_loop (strings.Split (ProxyServer values) ";") ∅ with
        | Panic p => Panic p
        | Ok protocol =>
            let cfg :=
              if (String.length (NoProxy cfg) =? 0)%nat
              then {| HTTPProxy := HTTPProxy cfg; HTTPSProxy := HTTPSProxy cfg;
                      NoProxy := strings.Replace (ProxyOverride values) ";" ",";
                      CGI := CGI cfg |}
              else cfg in
            let cfg :=
              if (String.length (HTTPProxy cfg) =? 0)%nat
              then {| HTTPProxy := getProtocolAny protocol ["http"; ""];
                      HTTPSProxy := HTTPSProxy cfg; NoProxy := NoProxy cfg;
                      CGI := CGI cfg |}
              else cfg in
            let cfg :=
              if (String.length (HTTPSProxy cfg) =? 0)%nat
              then {| HTTPProxy := HTTPProxy cfg;
                      HTTPSProxy := getProtocolAny protocol ["https"; ""];
                      NoProxy := NoProxy cfg; CGI := CGI cfg |}
              else cfg in
            Ok cfg
      end
      else Ok cfg
  end.

End WithEnvironment.

End proxy.

(** ** A registry and an environment for the proxy settings

    Enough to run [FromEnvironment]: a settings key with three values,
    a registry that holds it for the current user and has no policy, and
    an environment given as a list of bindings. *)
Module sample_proxy.

Import registry proxy.

Definition key (server override : string) (enable : Z) : Key :=
  {| GetStringValue := fun name =>
       if String.eqb name "ProxyServer" then (server, None)
       else if String.eqb name "ProxyOverride" then (override, None)
       else (EmptyString, Some ErrNotExist);
     GetIntegerValue := fun name =>
       if String.eqb name "ProxyEnable" then (enable, None)
       else (0, Some ErrNotExist) |}.

Definition user_registry (k : Key) : Registry :=
  fun hive path =>
    match hive with
    | CURRENT_USER => if String.eqb path settings then inl k else inr ErrNotExist
    | LOCAL_MACHINE => inr ErrNotExist
    end.

Fixpoint Getenv (env : list (string * string)) (name : string) : string :=
  match env with
  | [] => EmptyString
  | (n, v) :: env' => if String.eqb n name then v else Getenv env' name
  end.

Fixpoint getEnvAny (env : list (string * string)) (names : list string)
  : string :=
  match names with
  | [] => EmptyString
  | n :: names' =>
      if negb (String.eqb (Getenv env n) "") then Getenv env n
      else getEnvAny env names'
  end.

End sample_proxy.

(** ** Vocabulary for the statements about the codec *)

(** The bounds written in [intToRune]'s third and fourth tests. *)
Definition tier3_max : Z :=
  Z.shiftl 1 diffmatchpatch.THREE_BYTE_BITS
  - diffmatchpatch.UNICODE_INVALID_RANGE_DELTA - 3.
Definition tier4_max : Z :=
  Z.shiftl 1 diffmatchpatch.FOUR_BYTE_BITS
  - diffmatchpatch.UNICODE_INVALID_RANGE_DELTA - 3.

(** The tier of an input, by the raw ranges of the tier table. *)
Definition tier (i : Z) : Z :=
  if i <? 2 ^ 7 then 1
  else if i <? 2 ^ 11 then 2
  else if i <? 2 ^ 16 - 2048 - 3 then 3
  else 4.

(** The number of units of a scalar: the size [runeToInt] dispatches on. *)
Definition rune_units (r : Z) : Z := snd (utf8.EncodeRune [0; 0; 0; 0] r).

(** [intToRune] returns on [i] through the branch of [tier i]. *)
Definition encodes_in_tier (i : Z) : Prop :=
  exists r,
    diffmatchpatch.intToRune i = Ok r /\ rune_units r = tier i /\
    (tier i = 1 -> r = i) /\
    (tier i = 2 ->
     utf8.DecodeRune (diffmatchpatch.units2 i) = (r, 2)) /\
    (tier i = 3 ->
     utf8.DecodeRune
       (diffmatchpatch.units3
          (if i >=? diffmatchpatch.UNICODE_INVALID_RANGE_START
           then i + diffmatchpatch.UNICODE_INVALID_RANGE_DELTA else i))
     = (r, 3)) /\
    (tier i = 4 ->
     utf8.DecodeRune
       (diffmatchpatch.units4
          (i + (diffmatchpatch.UNICODE_INVALID_RANGE_DELTA + 3))) = (r, 4)).

(** ** Vocabulary for the statements about changes *)

(** [p] is not after [q]. *)
Definition path_le (p q : string) : Prop := String.compare p q <> Gt.

Section ChangeVocabulary.
Context `{object.Decls}.
Import object.

(** A side is present when it is not [Equal] to [empty]. *)
Definition present (e : ChangeEntry) : bool := negb (ChangeEntry_Equal e empty).

(** The mode of a side is a file mode. *)
Definition file_mode (e : ChangeEntry) : bool :=
  FileMode_IsFile (TreeEntry_Mode (TreeEntry_ e)).

(** The file view of a side that has a tree. *)
Definition file_view (e : ChangeEntry) : option File :=
  match entryFile e with
  | Ok f => Some f
  | Panic _ => None
  end.

(** [a] is not after [b], by effective path. *)
Definition name_le (a b : Change) : Prop := path_le (name a) (name b).

End ChangeVocabulary.

(** ** Vocabulary for the statements about the pkt-len header *)

(** The value of a hexadecimal digit, by its character range. *)
Definition hex_digit (b : Z) : option Z :=
  if (0x30 <=? b) && (b <=? 0x39) then Some (b - 0x30)            (* 0-9 *)
  else if (0x41 <=? b) && (b <=? 0x46) then Some (b - 0x41 + 10)  (* A-F *)
  else if (0x61 <=? b) && (b <=? 0x66) then Some (b - 0x61 + 10)  (* a-f *)
  else None.

(** The lower-case hexadecimal digit of a value below sixteen. *)
Definition hex_char (d : Z) : Z := if d <? 10 then 0x30 + d else 0x61 + (d - 10).

(** The four hexadecimal digits of a length below 65536. *)
Definition pkt_len (n : Z) : list Z :=
  [hex_char (n / 4096); hex_char ((n / 256) mod 16);
   hex_char ((n / 16) mod 16); hex_char (n mod 16)].

(** The pkt-line that carries [p]: a flush-pkt for an empty [p], else the
    length of the line in four digits, then [p]. *)
Definition pkt_line (p : list Z) : list Z :=
  match p with
  | [] => pkt_len 0
  | _ :: _ => pkt_len (Z.of_nat (length p) + 4) ++ p
  end.

(** The loop [for s.Scan() { ... s.Bytes() ... }], run for at most [todo]
    calls: the payloads seen, and the state after the last call. *)
Fixpoint scan_all (OversizePayloadMax : Z) (todo : nat)
    (st : pktline.Scanner * list Z)
  : list (list Z) * (pktline.Scanner * list Z) :=
  match todo with
  | O => ([], st)
  | S todo' =>
      let '(st', more) := pktline.Scan OversizePayloadMax st in
      if more then
        let '(ps, final) := scan_all OversizePayloadMax todo' st' in
        (pktline.Bytes (fst st') :: ps, final)
      else ([], st')
  end.

(** ** Vocabulary for the statements about the id parsers *)

(** The character of a decimal digit, and the number a list of decimal
    digits writes. *)
Definition digit_char (d : Z) : ascii := ascii_of_N (Z.to_N (0x30 + d)).

Definition decimal (ds : list Z) : Z := fold_left (fun n d => 10 * n + d) ds 0.

Definition numeral (ds : list Z) : list ascii := map digit_char ds.

Definition is_digit (d : Z) : Prop := 0 <= d <= 9.

(** ** Vocabulary for the statements about path matching *)

(** [name] is [p] or lies under the directory [p]. *)
Definition at_or_under (p name : list ascii) : Prop :=
  name = p \/ exists rest, name = p ++ "/"%char :: rest.

(** ** Vocabulary for the statements about [StrSplitSkipEmpty] *)
Section SplitVocabulary.
Import strengthen.





End SplitVocabulary.

(** ** Vocabulary for the statements about searching *)
Section SearchVocabulary.
Context {A : Type}.

(** [pat] stands in [l] at index [k]. *)
Definition occurs_at (pat l : list A) (k : nat) : Prop :=
  (k + length pat <= length l)%nat /\ take (length pat) (drop k l) = pat.

(** [res] is the answer of a forward search from index [from]: -1 when
    [pat] stands nowhere from there on, else the first index where it
    does. *)
Definition first_from (pat l : list A) (from : nat) (res : Z) : Prop :=
  (res = -1 /\ forall k, (from <= k)%nat -> ~ occurs_at pat l k) \/
  (exists k, res = Z.of_nat k /\ (from <= k)%nat /\ occurs_at pat l k /\
             forall j, (from <= j < k)%nat -> ~ occurs_at pat l j).

(** [res] is the answer of a backward search in [l]: -1 when [pat] stands
    nowhere, else the last index where it does. *)
Definition last_in (pat l : list A) (res : Z) : Prop :=
  (res = -1 /\ forall k, ~ occurs_at pat l k) \/
  (exists k, res = Z.of_nat k /\ occurs_at pat l k /\
             forall j, (k < j)%nat -> ~ occurs_at pat l j).

End SearchVocabulary.

(** ** Vocabulary for the statements about the proxy settings *)
Section ProxyVocabulary.

Import registry proxy.

(** The policy that makes the proxy settings those of the machine:
    [ProxySettingsPerUser] can be read and is 0. *)
Definition per_machine (reg : Registry) : bool :=
  match reg LOCAL_MACHINE policies with
  | inl k =>
      match GetIntegerValue k "ProxySettingsPerUser" with
      | (0, None) => true
      | _ => false
      end
  | inr _ => false
  end.

(** The errors of the four reads of the settings key, in order, and the
    values they return. *)
Definition reads (k : Key) : list (option error) :=
  [snd (GetStringValue k "ProxyServer"); snd (GetStringValue k "ProxyOverride");
   snd (GetIntegerValue k "ProxyEnable"); snd (GetStringValue k "AutoConfigURL")].

Definition values_read (k : Key) : windowsProxyConfig :=
  {| ProxyServer := fst (GetStringValue k "ProxyServer");
     ProxyOverride := fst (GetStringValue k "ProxyOverride");
     ProxyEnable := fst (GetIntegerValue k "ProxyEnable");
     AutoConfigURL := fst (GetStringValue k "AutoConfigURL") |}.

Definition no_values : windowsProxyConfig :=
  {| ProxyServer := ""; ProxyOverride := ""; ProxyEnable := 0;
     AutoConfigURL := "" |}.

(** The first error that is not [ErrNotExist]. *)
Fixpoint first_failure (errs : list (option error)) : option error :=
  match errs with
  | [] => None
  | Some (ErrOther n) :: _ => Some (ErrOther n)
  | _ :: errs' => first_failure errs'
  end.

(** An entry of a [ProxyServer] string, as a scheme and an address: the
    texts before and after its first [=], the scheme being empty when it
    has none. *)
Definition server_entry (e : string) : string * string :=
  match strings.cut e "=" with
  | Some (scheme, addr) => (scheme, addr)
  | None => (EmptyString, e)
  end.

(** The entries of a [ProxyServer] string: its non-empty pieces between
    semicolons. *)
Definition server_entries (server : string) : list (string * string) :=
  map server_entry
      (filter (fun e => e <> EmptyString) (strings.Split server ";")).

(** The address the last entry for [scheme] gives. *)
Definition address (entries : list (string * string)) (scheme : string)
  : option string :=
  last (map snd (filter (fun kv => fst kv = scheme) entries)).

(** The address for [scheme]: that of its own entries, else that of the
    entries with an empty scheme, else none. *)
Definition chosen (server scheme : string) : string :=
  match address (server_entries server) scheme with
  | Some a => a
  | None =>
      match address (server_entries server) EmptyString with
      | Some a => a
      | None => EmptyString
      end
  end.

(** No byte of [s] is [c]. *)
Fixpoint free_of (c : ascii) (s : string) : Prop :=
  match s with
  | EmptyString => True
  | String x s' => x <> c /\ free_of c s'
  end.

End ProxyVocabulary.

(** ** Vocabulary for the statements about [stringNoCRUD] *)

Definition is_byte (b : Z) : Prop := 0 <= b < 256.
Definition is_ascii (b : Z) : Prop := 0 <= b < 128.

(** The characters [stringNoCRUD] drops everywhere: newline, [<], [>]. *)
Definition barred (b : Z) : bool := (b =? 10) || (b =? 60) || (b =? 62).

(** [s] without its leading elements that satisfy [f], and without those
    at both ends. *)
Fixpoint strip (f : Z -> bool) (s : list Z) : list Z :=
  match s with
  | [] => []
  | b :: s' => if f b then strip f s' else s
  end.

Definition strip_both (f : Z -> bool) (s : list Z) : list Z :=
  rev (strip f (rev (strip f s))).

(** The bytes [stringNoCRUD] may write. *)
Definition clean (b : Z) : Prop := is_byte b /\ barred b = false.

(** ** Vocabulary for the statements about [SimpleAtob] *)

(** [s] spells the lower-case word [w], each letter in either case. *)
Definition spells (w s : list ascii) : Prop :=
  Forall2 (fun cw cs =>
             cs = cw
             \/ (0x61 <= strings.byte_of cw <= 0x7A
                 /\ strings.byte_of cs + 32 = strings.byte_of cw)) w s.

Definition spells_one (ws : list string) (s : list ascii) : Prop :=
  Exists (fun w => spells (list_ascii_of_string w) s) ws.

Definition true_words : list string := ["true"; "yes"; "on"; "1"]%string.
Definition false_words : list string := ["false"; "no"; "off"; "0"]%string.

(** * Properties of the codec *)

Import diffmatchpatch.

(** ** Bit fields as quotients and remainders *)
Section BitFields.

Lemma u32_small (z : Z) : 0 <= z < 4294967296 -> u32 z = z.
Proof. intros Hz. unfold u32. apply Z.mod_small. exact Hz. Qed.

Lemma land_shifted_low (hi lo k : Z) :
  0 <= k -> 0 <= lo < 2 ^ k -> Z.land (hi * 2 ^ k) lo = 0.
Proof.
  intros Hk Hlo. apply Z.bits_inj'. intros n Hn.
  rewrite Z.land_spec, Z.bits_0.
  destruct (Z.lt_ge_cases n k) as [Hlt | Hge].
  - rewrite Z.mul_pow2_bits_low by assumption. reflexivity.
  - rewrite <- (Z.mod_small lo (2 ^ k)) by assumption.
    rewrite Z.mod_pow2_bits_high by lia. apply andb_false_r.
Qed.

Lemma lor_shifted_low (hi lo k : Z) :
  0 <= k -> 0 <= lo < 2 ^ k -> Z.lor (hi * 2 ^ k) lo = hi * 2 ^ k + lo.
Proof.
  intros Hk Hlo.
  rewrite <- Z.lxor_lor by (apply land_shifted_low; assumption).
  symmetry. apply Z.add_nocarry_lxor, land_shifted_low; assumption.
Qed.

Lemma lor_shiftl_low (hi lo k : Z) :
  0 <= k -> 0 <= lo < 2 ^ k -> Z.lor (Z.shiftl hi k) lo = hi * 2 ^ k + lo.
Proof.
  intros Hk Hlo. rewrite Z.shiftl_mul_pow2 by assumption.
  apply lor_shifted_low; assumption.
Qed.

Lemma getBits_div_mod (i cnt from : Z) :
  0 <= from -> 0 <= cnt <= 8 ->
  getBits i cnt from = (i / 2 ^ from) mod 2 ^ cnt.
Proof.
  intros Hf Hc. unfold getBits, byte, u32.
  rewrite Z.shiftl_1_l, Z.shiftr_div_pow2 by assumption.
  assert (H8 : 0 < 2 ^ cnt <= 2 ^ 8).
  { split; [apply Z.pow_pos_nonneg; lia | apply Z.pow_le_mono_r; lia]. }
  change (2 ^ 8) with 256 in H8.
  rewrite (Z.mod_small (2 ^ cnt)) by lia.
  rewrite (Z.mod_small (2 ^ cnt - 1)) by lia.
  replace (2 ^ cnt - 1) with (Z.ones cnt) by (rewrite Z.ones_equiv; lia).
  rewrite Z.land_ones by lia.
  apply Z.mod_small.
  pose proof (Z.mod_pos_bound (i / 2 ^ from) (2 ^ cnt)). lia.
Qed.

End BitFields.

(** ** Evaluating conditionals *)

Ltac closed t := let v := eval vm_compute in t in change t with v.

Ltac zif :=
  match goal with
  | |- context [?a <? ?b] => destruct (Z.ltb_spec a b); try lia
  | |- context [?a <=? ?b] => destruct (Z.leb_spec a b); try lia
  | |- context [?a =? ?b] => destruct (Z.eqb_spec a b); try lia
  end.

(* Decide the condition of the outermost conditional: by evaluation when it
   is closed, by linear arithmetic otherwise. *)
Ltac step_if :=
  lazymatch goal with
  | |- (if ?c then _ else _) = _ =>
      first
        [ let v := eval hnf in c in
          lazymatch v with
          | true => change c with true
          | false => change c with false
          end
        | replace c with true by (symmetry; lia)
        | replace c with false by (symmetry; lia) ];
      cbv iota
  end.

(** ** [utf8.DecodeRune] on two-, three- and four-byte sequences *)
Section Decode.

Lemma land_low_bits (c x k : Z) :
  0 <= k -> 0 <= x < 2 ^ k -> c mod 2 ^ k = 0 ->
  Z.land (c + x) (Z.ones k) = x.
Proof.
  intros Hk Hx Hc. rewrite Z.land_ones by assumption.
  rewrite Z.add_mod, Hc, Z.add_0_l, Z.mod_mod by lia.
  apply Z.mod_small; assumption.
Qed.

Lemma lor_lead (c x k : Z) :
  0 <= k -> 0 <= x < 2 ^ k -> c mod 2 ^ k = 0 -> Z.lor c x = c + x.
Proof.
  intros Hk Hx Hc.
  rewrite (Z.div_mod c (2 ^ k)) by lia. rewrite Hc, Z.add_0_r, Z.mul_comm.
  apply lor_shifted_low; assumption.
Qed.

Lemma first_two (a : Z) : 2 <= a < 32 -> utf8.first (0xC0 + a) = utf8.s1.
Proof. intros H. unfold utf8.first. repeat zif; reflexivity. Qed.

Lemma first_three (a : Z) :
  0 <= a < 16 ->
  utf8.first (0xE0 + a) =
  if a =? 0 then utf8.s2 else if a =? 13 then utf8.s4 else utf8.s3.
Proof. intros H. unfold utf8.first. repeat zif; reflexivity. Qed.

Lemma first_four (a : Z) :
  0 <= a < 8 ->
  utf8.first (0xF0 + a) =
  if a =? 0 then utf8.s5 else if a <? 4 then utf8.s6
  else if a =? 4 then utf8.s7 else utf8.xx.
Proof. intros H. unfold utf8.first. repeat zif; reflexivity. Qed.

Ltac decode_start :=
  unfold utf8.DecodeRune;
  cbv beta iota zeta delta [utf8.at_ nth length].

Ltac decode_run :=
  match goal with
  | |- context [utf8.acceptRanges ?k] => closed (utf8.acceptRanges k)
  end;
  cbv beta iota delta [fst snd utf8.locb utf8.hicb];
  repeat step_if.

Lemma DecodeRune_two (a b : Z) :
  2 <= a < 32 -> 0 <= b < 64 ->
  utf8.DecodeRune [0xC0 + a; 0x80 + b] = (a * 64 + b, 2).
Proof.
  intros Ha Hb. decode_start. rewrite first_two by assumption. decode_run.
  change utf8.mask2 with (Z.ones 5). change utf8.maskx with (Z.ones 6).
  rewrite !land_low_bits by (reflexivity || lia).
  rewrite lor_shiftl_low by lia. reflexivity.
Qed.

Lemma DecodeRune_three (a b c : Z) :
  0 <= a < 16 -> 0 <= b < 64 -> 0 <= c < 64 ->
  (a = 0 -> 32 <= b) -> (a = 13 -> b < 32) ->
  utf8.DecodeRune [0xE0 + a; 0x80 + b; 0x80 + c] = (a * 4096 + b * 64 + c, 3).
Proof.
  intros Ha Hb Hc H0 H13. decode_start. rewrite first_three by assumption.
  assert (Hval :
    Z.lor (Z.lor (Z.shiftl (Z.land (0xE0 + a) utf8.mask3) 12)
                 (Z.shiftl (Z.land (0x80 + b) utf8.maskx) 6))
          (Z.land (0x80 + c) utf8.maskx) = a * 4096 + b * 64 + c).
  { change utf8.mask3 with (Z.ones 4). change utf8.maskx with (Z.ones 6).
    rewrite !land_low_bits by (reflexivity || lia).
    rewrite (Z.shiftl_mul_pow2 b 6) by lia.
    rewrite (lor_shiftl_low a (b * 2 ^ 6) 12) by lia.
    replace (a * 2 ^ 12 + b * 2 ^ 6) with ((a * 64 + b) * 2 ^ 6) by lia.
    rewrite lor_shifted_low by lia. lia. }
  destruct (Z.eqb_spec a 0) as [-> | Hn0];
    [ | destruct (Z.eqb_spec a 13) as [-> | Hn13] ];
    decode_run; rewrite Hval; reflexivity.
Qed.

Lemma DecodeRune_four (a b c d : Z) :
  0 <= a <= 4 -> 0 <= b < 64 -> 0 <= c < 64 -> 0 <= d < 64 ->
  (a = 0 -> 16 <= b) -> (a = 4 -> b < 16) ->
  utf8.DecodeRune [0xF0 + a; 0x80 + b; 0x80 + c; 0x80 + d] =
  (a * 262144 + b * 4096 + c * 64 + d, 4).
Proof.
  intros Ha Hb Hc Hd H0 H4. decode_start. rewrite first_four by lia.
  assert (Hval :
    Z.lor (Z.lor (Z.lor (Z.shiftl (Z.land (0xF0 + a) utf8.mask4) 18)
                        (Z.shiftl (Z.land (0x80 + b) utf8.maskx) 12))
                 (Z.shiftl (Z.land (0x80 + c) utf8.maskx) 6))
          (Z.land (0x80 + d) utf8.maskx)
    = a * 262144 + b * 4096 + c * 64 + d).
  { change utf8.mask4 with (Z.ones 3). change utf8.maskx with (Z.ones 6).
    rewrite !land_low_bits by (reflexivity || lia).
    rewrite (Z.shiftl_mul_pow2 b 12), (Z.shiftl_mul_pow2 c 6) by lia.
    rewrite (lor_shiftl_low a (b * 2 ^ 12) 18) by lia.
    replace (a * 2 ^ 18 + b * 2 ^ 12) with ((a * 64 + b) * 2 ^ 12) by lia.
    rewrite (lor_shifted_low (a * 64 + b) (c * 2 ^ 6) 12) by lia.
    replace ((a * 64 + b) * 2 ^ 12 + c * 2 ^ 6)
      with ((a * 4096 + b * 64 + c) * 2 ^ 6) by lia.
    rewrite lor_shifted_low by lia. lia. }
  destruct (Z.eqb_spec a 0) as [-> | Hn0];
    [ | destruct (Z.ltb_spec a 4) as [Hlt | Hge];
        [ | replace a with 4 in * by lia ] ];
    decode_run; rewrite Hval; reflexivity.
Qed.

(** Past U+10FFFF the four-byte form is rejected: size 1, not 4. *)
Lemma DecodeRune_four_beyond (a b c d : Z) :
  4 <= a < 8 -> 0 <= b < 64 -> (a = 4 -> 16 <= b) ->
  utf8.DecodeRune [0xF0 + a; 0x80 + b; 0x80 + c; 0x80 + d] =
  (utf8.RuneError, 1).
Proof.
  intros Ha Hb H4. decode_start. rewrite first_four by lia.
  destruct (Z.eqb_spec a 4) as [-> | Hn4].
  - decode_run. reflexivity.
  - replace (a =? 0) with false by (symmetry; lia).
    replace (a <? 4) with false by (symmetry; lia).
    cbv iota. step_if.
    closed (Z.shiftr (i32 (Z.shiftl utf8.xx 31)) 31).
    change (Z.lnot (-1)) with 0. rewrite Z.land_0_r. reflexivity.
Qed.

End Decode.

(** ** The units built by [intToRune], as sums *)
Section Units.

Ltac divmod := Z.div_mod_to_equations; lia.

Lemma units2_sum (i : Z) :
  0 <= i < 2048 ->
  units2 i = [0xC0 + i / 64; 0x80 + i mod 64].
Proof.
  intros Hi. unfold units2. rewrite !getBits_div_mod by lia.
  change (2 ^ 6) with 64. change (2 ^ 5) with 32. change (2 ^ 0) with 1.
  rewrite Z.div_1_r.
  assert (Ha : 0 <= i / 64 < 2 ^ 5) by (change (2 ^ 5) with 32; divmod).
  assert (Hb : 0 <= i mod 64 < 2 ^ 6) by (change (2 ^ 6) with 64; divmod).
  rewrite (Z.mod_small (i / 64) 32) by exact Ha.
  rewrite (lor_lead 0xC0 _ 5), (lor_lead 0x80 _ 6) by (reflexivity || lia).
  reflexivity.
Qed.

Lemma units3_sum (i : Z) :
  0 <= i < 65536 ->
  units3 i = [0xE0 + i / 4096; 0x80 + (i / 64) mod 64; 0x80 + i mod 64].
Proof.
  intros Hi. unfold units3. rewrite !getBits_div_mod by lia.
  change (2 ^ 12) with 4096. change (2 ^ 6) with 64.
  change (2 ^ 4) with 16. change (2 ^ 0) with 1.
  rewrite Z.div_1_r.
  assert (Ha : 0 <= i / 4096 < 2 ^ 4) by (change (2 ^ 4) with 16; divmod).
  assert (Hb : 0 <= (i / 64) mod 64 < 2 ^ 6) by (change (2 ^ 6) with 64; divmod).
  assert (Hc : 0 <= i mod 64 < 2 ^ 6) by (change (2 ^ 6) with 64; divmod).
  rewrite (Z.mod_small (i / 4096) 16) by exact Ha.
  rewrite (lor_lead 0xE0 _ 4), !(lor_lead 0x80 _ 6) by (reflexivity || lia).
  reflexivity.
Qed.

Lemma units4_sum (i : Z) :
  0 <= i < 2097152 ->
  units4 i = [0xF0 + i / 262144; 0x80 + (i / 4096) mod 64;
              0x80 + (i / 64) mod 64; 0x80 + i mod 64].
Proof.
  intros Hi. unfold units4. rewrite !getBits_div_mod by lia.
  change (2 ^ 18) with 262144. change (2 ^ 12) with 4096.
  change (2 ^ 6) with 64. change (2 ^ 3) with 8. change (2 ^ 0) with 1.
  rewrite Z.div_1_r.
  assert (Ha : 0 <= i / 262144 < 2 ^ 3) by (change (2 ^ 3) with 8; divmod).
  assert (Hb : 0 <= (i / 4096) mod 64 < 2 ^ 6) by (change (2 ^ 6) with 64; divmod).
  assert (Hc : 0 <= (i / 64) mod 64 < 2 ^ 6) by (change (2 ^ 6) with 64; divmod).
  assert (Hd : 0 <= i mod 64 < 2 ^ 6) by (change (2 ^ 6) with 64; divmod).
  rewrite (Z.mod_small (i / 262144) 8) by exact Ha.
  rewrite (lor_lead 0xF0 _ 3), !(lor_lead 0x80 _ 6) by (reflexivity || lia).
  reflexivity.
Qed.

End Units.

(** ** What [intToRune] returns, tier by tier *)
Section Encode.

Ltac divmod := Z.div_mod_to_equations; lia.

Ltac thresholds :=
  change (Z.shiftl 1 ONE_BYTE_BITS) with 128;
  change (Z.shiftl 1 TWO_BYTE_BITS) with 2048;
  change (Z.shiftl 1 THREE_BYTE_BITS - UNICODE_INVALID_RANGE_DELTA - 3)
    with 63485;
  change (Z.shiftl 1 FOUR_BYTE_BITS - UNICODE_INVALID_RANGE_DELTA - 3)
    with 2095101;
  change UNICODE_INVALID_RANGE_START with 55296;
  change UNICODE_INVALID_RANGE_END with 57343;
  change UNICODE_INVALID_RANGE_DELTA with 2048.

Lemma checked_ok (n r : Z) :
  r <> utf8.RuneError -> checked n (r, n) = Ok r.
Proof.
  intros Hr. unfold checked. rewrite Z.eqb_refl.
  destruct (Z.eqb_spec r utf8.RuneError); [contradiction | reflexivity].
Qed.

Lemma intToRune_tier1 (i : Z) : 0 <= i < 128 -> intToRune i = Ok i.
Proof.
  intros Hi. unfold intToRune. thresholds. step_if.
  unfold i32. do 2 f_equal. change (2 ^ 31) with 2147483648.
  change (2 ^ 32) with 4294967296. rewrite Z.mod_small; lia.
Qed.

Lemma decode_units2 (i : Z) :
  128 <= i < 2048 -> utf8.DecodeRune (units2 i) = (i, 2).
Proof.
  intros Hi. rewrite units2_sum by lia. rewrite DecodeRune_two by divmod.
  f_equal. divmod.
Qed.

Lemma decode_units3 (j : Z) :
  2048 <= j < 55296 \/ 57344 <= j < 65536 ->
  utf8.DecodeRune (units3 j) = (j, 3).
Proof.
  intros Hj. rewrite units3_sum by lia. rewrite DecodeRune_three by divmod.
  f_equal. divmod.
Qed.

Lemma decode_units4 (j : Z) :
  65536 <= j < 1114112 -> utf8.DecodeRune (units4 j) = (j, 4).
Proof.
  intros Hj. rewrite units4_sum by lia. rewrite DecodeRune_four by divmod.
  f_equal. divmod.
Qed.

Lemma decode_units4_beyond (j : Z) :
  1114112 <= j < 2097152 ->
  utf8.DecodeRune (units4 j) = (utf8.RuneError, 1).
Proof.
  intros Hj. rewrite units4_sum by lia.
  apply DecodeRune_four_beyond; divmod.
Qed.

Lemma intToRune_tier2 (i : Z) : 128 <= i < 2048 -> intToRune i = Ok i.
Proof.
  intros Hi. unfold intToRune. thresholds. do 2 step_if.
  rewrite decode_units2 by assumption.
  apply checked_ok. unfold utf8.RuneError. lia.
Qed.

Lemma intToRune_tier3_low (i : Z) : 2048 <= i < 55296 -> intToRune i = Ok i.
Proof.
  intros Hi. unfold intToRune. thresholds. do 3 step_if.
  replace (i >=? 55296) with false by (symmetry; lia).
  rewrite decode_units3 by lia.
  apply checked_ok. unfold utf8.RuneError. lia.
Qed.

Lemma intToRune_tier3_high (i : Z) :
  55296 <= i < 63485 -> intToRune i = Ok (i + 2048).
Proof.
  intros Hi. unfold intToRune. thresholds. do 3 step_if.
  replace (i >=? 55296) with true by (symmetry; lia).
  rewrite u32_small by lia. rewrite decode_units3 by lia.
  apply checked_ok. unfold utf8.RuneError. lia.
Qed.

Lemma intToRune_tier4 (i : Z) :
  63485 <= i < 1112061 -> intToRune i = Ok (i + 2051).
Proof.
  intros Hi. unfold intToRune. thresholds. do 4 step_if.
  change (2048 + 3) with 2051. rewrite u32_small by lia.
  rewrite decode_units4 by lia.
  apply checked_ok. unfold utf8.RuneError. lia.
Qed.

(** From 1112061 on the four units spell a value past U+10FFFF: the
    self-check of the fourth branch panics. *)
Lemma intToRune_tier4_beyond (i : Z) :
  1112061 <= i < 2095101 -> intToRune i = Panic (PanicEncoding 4).
Proof.
  intros Hi. unfold intToRune. thresholds. do 4 step_if.
  change (2048 + 3) with 2051. rewrite u32_small by lia.
  rewrite decode_units4_beyond by lia. reflexivity.
Qed.

Lemma intToRune_too_large (i : Z) :
  2095101 <= i -> intToRune i = Panic PanicTooLarge.
Proof.
  intros Hi. unfold intToRune. thresholds. do 4 step_if. reflexivity.
Qed.

End Encode.

(** ** [utf8.EncodeRune] into a four-byte buffer, and [runeToInt] *)
Section DecodeInt.

Ltac divmod := Z.div_mod_to_equations; lia.

Ltac encode_start :=
  unfold utf8.EncodeRune, utf8.encodeRuneNonASCII, u32, byte;
  change (2 ^ 32) with 4294967296;
  change utf8.rune1Max with 127; change utf8.rune2Max with 2047;
  change utf8.rune3Max with 65535; change utf8.MaxRune with 1114111;
  change utf8.surrogateMin with 55296; change utf8.surrogateMax with 57343;
  cbv beta zeta.

Lemma EncodeRune_two (r : Z) :
  128 <= r < 2048 ->
  utf8.EncodeRune [0; 0; 0; 0] r = ([0xC0 + r / 64; 0x80 + r mod 64; 0; 0], 2).
Proof.
  intros Hr. encode_start. rewrite (Z.mod_small r 4294967296) by lia.
  do 2 step_if. cbv beta iota delta [insert list_insert].
  rewrite Z.shiftr_div_pow2 by lia.
  change utf8.maskx with (Z.ones 6). rewrite Z.land_ones by lia.
  change (2 ^ 6) with 64.
  replace ((r / 64) mod 256) with (r / 64) by divmod.
  replace ((r mod 256) mod 64) with (r mod 64) by divmod.
  rewrite (lor_lead utf8.t2 _ 5), (lor_lead utf8.tx _ 6)
    by (reflexivity || (change (2 ^ 5) with 32; change (2 ^ 6) with 64; divmod)).
  reflexivity.
Qed.

Lemma EncodeRune_three (r : Z) :
  2048 <= r < 55296 \/ 57343 < r < 65536 ->
  utf8.EncodeRune [0; 0; 0; 0] r =
  ([0xE0 + r / 4096; 0x80 + (r / 64) mod 64; 0x80 + r mod 64; 0], 3).
Proof.
  intros Hr. encode_start. rewrite (Z.mod_small r 4294967296) by lia.
  do 3 step_if. cbv beta iota delta [insert list_insert].
  rewrite !Z.shiftr_div_pow2 by lia.
  change utf8.maskx with (Z.ones 6). rewrite !Z.land_ones by lia.
  change (2 ^ 6) with 64. change (2 ^ 12) with 4096.
  replace ((r / 4096) mod 256) with (r / 4096) by divmod.
  replace (((r / 64) mod 256) mod 64) with ((r / 64) mod 64) by divmod.
  replace ((r mod 256) mod 64) with (r mod 64) by divmod.
  rewrite (lor_lead utf8.t3 _ 4), !(lor_lead utf8.tx _ 6)
    by (reflexivity || (change (2 ^ 4) with 16; change (2 ^ 6) with 64; divmod)).
  reflexivity.
Qed.

Lemma EncodeRune_four (r : Z) :
  65536 <= r <= 1114111 ->
  utf8.EncodeRune [0; 0; 0; 0] r =
  ([0xF0 + r / 262144; 0x80 + (r / 4096) mod 64;
    0x80 + (r / 64) mod 64; 0x80 + r mod 64], 4).
Proof.
  intros Hr. encode_start. rewrite (Z.mod_small r 4294967296) by lia.
  do 4 step_if. cbv beta iota delta [insert list_insert].
  rewrite !Z.shiftr_div_pow2 by lia.
  change utf8.maskx with (Z.ones 6). rewrite !Z.land_ones by lia.
  change (2 ^ 6) with 64. change (2 ^ 12) with 4096. change (2 ^ 18) with 262144.
  replace ((r / 262144) mod 256) with (r / 262144) by divmod.
  replace (((r / 4096) mod 256) mod 64) with ((r / 4096) mod 64) by divmod.
  replace (((r / 64) mod 256) mod 64) with ((r / 64) mod 64) by divmod.
  replace ((r mod 256) mod 64) with (r mod 64) by divmod.
  rewrite (lor_lead utf8.t4 _ 3), !(lor_lead utf8.tx _ 6)
    by (reflexivity || (change (2 ^ 3) with 8; change (2 ^ 6) with 64; divmod)).
  reflexivity.
Qed.

Ltac decode_int r :=
  unfold runeToInt; cbv beta zeta;
  change (Z.shiftl 1 ONE_BYTE_BITS) with 128;
  rewrite (u32_small r) by lia;
  step_if.

Lemma runeToInt_tier1 (r : Z) : 0 <= r < 128 -> runeToInt r = Ok r.
Proof. intros Hr. decode_int r. reflexivity. Qed.

Lemma runeToInt_tier2 (r : Z) : 128 <= r < 2048 -> runeToInt r = Ok r.
Proof.
  intros Hr. decode_int r. rewrite EncodeRune_two by assumption.
  cbv beta iota zeta delta [utf8.at_ nth]. step_if.
  change 0x1F with (Z.ones 5). change 0x3F with (Z.ones 6).
  rewrite !land_low_bits
    by (reflexivity || (change (2 ^ 5) with 32; change (2 ^ 6) with 64; divmod)).
  rewrite Z.shiftl_mul_pow2 by lia. change (2 ^ 6) with 64.
  rewrite u32_small by divmod.
  rewrite (lor_shifted_low _ _ 6) by (change (2 ^ 6) with 64; divmod).
  f_equal. change (2 ^ 6) with 64. divmod.
Qed.

Lemma pack3 (a b c : Z) :
  0 <= b < 64 -> 0 <= c < 64 ->
  Z.lor (Z.lor (a * 4096) (b * 64)) c = a * 4096 + b * 64 + c.
Proof.
  intros Hb Hc.
  replace (Z.lor (a * 4096) (b * 64)) with ((a * 64 + b) * 2 ^ 6).
  - rewrite lor_shifted_low by lia. lia.
  - change 4096 with (2 ^ 12). rewrite lor_shifted_low by lia. lia.
Qed.

Lemma pack4 (a b c d : Z) :
  0 <= b < 64 -> 0 <= c < 64 -> 0 <= d < 64 ->
  Z.lor (Z.lor (Z.lor (a * 262144) (b * 4096)) (c * 64)) d
  = a * 262144 + b * 4096 + c * 64 + d.
Proof.
  intros Hb Hc Hd.
  replace (Z.lor (a * 262144) (b * 4096)) with ((a * 64 + b) * 4096).
  - rewrite pack3 by assumption. lia.
  - change 262144 with (2 ^ 18). rewrite lor_shifted_low by lia. lia.
Qed.

Ltac fields :=
  change 0x7 with (Z.ones 3); change 0xF with (Z.ones 4);
  change 0x1F with (Z.ones 5); change 0x3F with (Z.ones 6);
  rewrite !land_low_bits
    by (reflexivity ||
        (change (2 ^ 3) with 8; change (2 ^ 4) with 16;
         change (2 ^ 5) with 32; change (2 ^ 6) with 64; divmod));
  rewrite !Z.shiftl_mul_pow2 by lia;
  change (2 ^ 6) with 64; change (2 ^ 12) with 4096;
  change (2 ^ 18) with 262144;
  rewrite !(u32_small (_ * _)) by divmod.

Lemma runeToInt_tier3_low (r : Z) : 2048 <= r < 55296 -> runeToInt r = Ok r.
Proof.
  intros Hr. decode_int r. rewrite EncodeRune_three by lia.
  cbv beta iota zeta delta [utf8.at_ nth]. do 2 step_if.
  fields. rewrite pack3 by divmod.
  replace (r / 4096 * 4096 + (r / 64) mod 64 * 64 + r mod 64) with r by divmod.
  change UNICODE_INVALID_RANGE_END with 57343. step_if. reflexivity.
Qed.

Lemma runeToInt_tier3_high (r : Z) :
  57343 < r < 65536 -> runeToInt r = Ok (r - 2048).
Proof.
  intros Hr. decode_int r. rewrite EncodeRune_three by lia.
  cbv beta iota zeta delta [utf8.at_ nth]. do 2 step_if.
  fields. rewrite pack3 by divmod.
  replace (r / 4096 * 4096 + (r / 64) mod 64 * 64 + r mod 64) with r by divmod.
  change UNICODE_INVALID_RANGE_END with 57343.
  change UNICODE_INVALID_RANGE_DELTA with 2048. step_if.
  rewrite u32_small by lia. reflexivity.
Qed.

Lemma runeToInt_tier4 (r : Z) :
  65536 <= r <= 1114111 -> runeToInt r = Ok (r - 2051).
Proof.
  intros Hr. decode_int r. rewrite EncodeRune_four by lia.
  cbv beta iota zeta delta [utf8.at_ nth]. do 3 step_if.
  fields. rewrite pack4 by divmod.
  replace (r / 262144 * 262144 + (r / 4096) mod 64 * 4096
           + (r / 64) mod 64 * 64 + r mod 64) with r by divmod.
  change UNICODE_INVALID_RANGE_DELTA with 2048.
  rewrite u32_small by lia. f_equal. lia.
Qed.

End DecodeInt.

(** ** The codec: domain, round trips, reserved values, tiers *)
Section Codec.

(** The scalar [intToRune] returns on its domain: the input, moved past the
    surrogates and past the three values left out at the top of tier 3. *)
Lemma intToRune_value (i : Z) :
  codec_domain i ->
  intToRune i =
  Ok (if i <? 55296 then i else if i <? 63485 then i + 2048 else i + 2051).
Proof.
  unfold codec_domain. intros Hi.
  destruct (Z.ltb_spec i 55296) as [H1 | H1].
  - destruct (Z.lt_ge_cases i 128); [apply intToRune_tier1; lia | ].
    destruct (Z.lt_ge_cases i 2048); [apply intToRune_tier2; lia | ].
    apply intToRune_tier3_low; lia.
  - destruct (Z.ltb_spec i 63485) as [H2 | H2].
    + apply intToRune_tier3_high; lia.
    + apply intToRune_tier4; lia.
Qed.

Lemma intToRune_outside (i : Z) :
  1112060 < i -> exists p, intToRune i = Panic p.
Proof.
  intros Hi. destruct (Z.lt_ge_cases i 2095101).
  - exists (PanicEncoding 4). apply intToRune_tier4_beyond. lia.
  - exists PanicTooLarge. apply intToRune_too_large. lia.
Qed.

(** [intToRune] returns exactly on [0, 1112060], the range its comment names. *)
Lemma intToRune_domain (i : Z) :
  0 <= i -> (is_Ok (intToRune i) = true <-> codec_domain i).
Proof.
  intros Hi. split.
  - intros Hok. unfold codec_domain.
    destruct (Z.le_gt_cases i 1112060) as [Hle | Hgt]; [lia | ].
    destruct (intToRune_outside i Hgt) as [p Hp]. rewrite Hp in Hok.
    discriminate Hok.
  - intros Hd. rewrite intToRune_value by assumption. reflexivity.
Qed.

Lemma codec_pair (i : Z) :
  codec_domain i ->
  exists r, intToRune i = Ok r /\ runeToInt r = Ok i.
Proof.
  intros Hd. pose proof (intToRune_value i Hd) as Hv.
  unfold codec_domain in Hd.
  destruct (Z.ltb_spec i 55296) as [H1 | H1].
  - exists i. split; [exact Hv | ].
    destruct (Z.lt_ge_cases i 128); [apply runeToInt_tier1; lia | ].
    destruct (Z.lt_ge_cases i 2048); [apply runeToInt_tier2; lia | ].
    apply runeToInt_tier3_low; lia.
  - destruct (Z.ltb_spec i 63485) as [H2 | H2].
    + exists (i + 2048). split; [exact Hv | ].
      rewrite runeToInt_tier3_high by lia. f_equal. lia.
    + exists (i + 2051). split; [exact Hv | ].
      rewrite runeToInt_tier4 by lia. f_equal. lia.
Qed.

(** [runeToInt] returns on every rune: [utf8.EncodeRune] writes two, three
    or four bytes once the one-byte case is set aside. *)
Lemma runeToInt_total (r : Z) : exists i, runeToInt r = Ok i.
Proof.
  unfold runeToInt. cbv zeta.
  destruct (u32 r <? Z.shiftl 1 ONE_BYTE_BITS) eqn:Hlow; [eexists; reflexivity | ].
  assert (Hsize : let s := snd (utf8.EncodeRune [0; 0; 0; 0] r) in
                  s = 2 \/ s = 3 \/ s = 4).
  { unfold utf8.EncodeRune, utf8.encodeRuneNonASCII. cbv zeta.
    change (Z.shiftl 1 ONE_BYTE_BITS) with 128 in Hlow.
    change utf8.rune1Max with 127.
    replace (u32 r <=? 127) with false by (symmetry; lia).
    destruct (u32 r <=? utf8.rune2Max); [left; reflexivity | ].
    destruct ((u32 r <? utf8.surrogateMin)
              || (utf8.surrogateMax <? u32 r) && (u32 r <=? utf8.rune3Max));
      [right; left; reflexivity | ].
    destruct ((utf8.rune3Max <? u32 r) && (u32 r <=? utf8.MaxRune));
      [right; right; reflexivity | right; left; reflexivity]. }
  destruct (utf8.EncodeRune [0; 0; 0; 0] r) as [bytes size]. cbn [snd] in Hsize.
  destruct Hsize as [-> | [-> | ->]]; cbn [Z.eqb Pos.eqb].
  - eexists; reflexivity.
  - destruct (_ >=? _); eexists; reflexivity.
  - eexists; reflexivity.
Qed.

(** C1. On the codec's domain, decoding the scalar that encoding returns
    gives back the integer: [intToRune i] returns some [r], and
    [runeToInt r] returns [i]. *)
Theorem runeToInt_intToRune (i : Z) :
  codec_domain i ->
  exists r, intToRune i = Ok r /\ runeToInt r = Ok i.
Proof. exact (codec_pair i). Qed.

Lemma runeToInt_intToRune_witness :
  codec_domain 60000 /\
  exists r, intToRune 60000 = Ok r /\ runeToInt r = Ok 60000.
Proof.
  split; [unfold codec_domain; lia | ].
  apply (runeToInt_intToRune 60000). unfold codec_domain. lia.
Defined.

(** C9. On the image of the encoder, decoding and encoding again gives the
    same scalar: if [r] is [intToRune i] for [i] in the domain, then
    [runeToInt r] returns some [j] and [intToRune j] returns [r]. *)
Theorem intToRune_runeToInt (i r : Z) :
  codec_domain i -> intToRune i = Ok r ->
  exists j, runeToInt r = Ok j /\ intToRune j = Ok r.
Proof.
  intros Hd Hr. destruct (codec_pair i Hd) as [r' [He Hdec]].
  assert (r' = r) by congruence. subst r'.
  exists i. split; assumption.
Qed.

Lemma intToRune_runeToInt_witness :
  codec_domain 1112060 /\ intToRune 1112060 = Ok 1114111 /\
  exists j, runeToInt 1114111 = Ok j /\ intToRune j = Ok 1114111.
Proof.
  assert (Hd : codec_domain 1112060) by (unfold codec_domain; lia).
  assert (He : intToRune 1112060 = Ok 1114111) by (vm_compute; reflexivity).
  split; [exact Hd | split; [exact He | ]].
  exact (intToRune_runeToInt 1112060 1114111 Hd He).
Defined.

(** C5. On the codec's domain the scalar returned by [intToRune] is outside
    the surrogate range [0xD800, 0xDFFF] and is none of 0xFFFD, 0xFFFE,
    0xFFFF. *)
Theorem intToRune_avoids_reserved (i r : Z) :
  codec_domain i -> intToRune i = Ok r ->
  ~ (UNICODE_INVALID_RANGE_START <= r <= UNICODE_INVALID_RANGE_END) /\
  r <> 0xFFFD /\ r <> 0xFFFE /\ r <> 0xFFFF.
Proof.
  intros Hd Hr. rewrite (intToRune_value i Hd) in Hr.
  injection Hr as <-. unfold codec_domain in Hd.
  change UNICODE_INVALID_RANGE_START with 55296.
  change UNICODE_INVALID_RANGE_END with 57343.
  destruct (Z.ltb_spec i 55296); [lia | ].
  destruct (Z.ltb_spec i 63485); lia.
Qed.

Lemma intToRune_avoids_reserved_witness :
  codec_domain 63484 /\ intToRune 63484 = Ok 0xFFFC /\
  (~ (UNICODE_INVALID_RANGE_START <= 0xFFFC <= UNICODE_INVALID_RANGE_END) /\
   0xFFFC <> 0xFFFD /\ 0xFFFC <> 0xFFFE /\ 0xFFFC <> 0xFFFF).
Proof.
  assert (Hd : codec_domain 63484) by (unfold codec_domain; lia).
  assert (He : intToRune 63484 = Ok 0xFFFC) by (vm_compute; reflexivity).
  split; [exact Hd | split; [exact He | ]].
  exact (intToRune_avoids_reserved 63484 0xFFFC Hd He).
Defined.

Lemma rune_units_value (r : Z) :
  0 <= r < 55296 \/ 57343 < r <= 1114111 ->
  rune_units r =
  if r <? 128 then 1 else if r <? 2048 then 2 else if r <? 65536 then 3 else 4.
Proof.
  intros Hr. unfold rune_units.
  destruct (Z.ltb_spec r 128).
  { unfold utf8.EncodeRune. rewrite u32_small by lia.
    change utf8.rune1Max with 127.
    replace (r <=? 127) with true by (symmetry; lia). reflexivity. }
  destruct (Z.ltb_spec r 2048); [rewrite EncodeRune_two by lia; reflexivity | ].
  destruct (Z.ltb_spec r 65536); [rewrite EncodeRune_three by lia; reflexivity | ].
  rewrite EncodeRune_four by lia. reflexivity.
Qed.

(** C3, as the code has it. The fourth branch returns for every input from
    [tier3_max] up to 1112060, where the four units spell [i + 2051], with
    no wrap-around; [intToRune] panics exactly on the inputs above 1112060,
    so already below [tier4_max]: in the self-check of the fourth branch
    for the inputs from 1112061 up to [tier4_max], and in the final
    too-large panic from [tier4_max] on. *)
Theorem intToRune_four_units_range (i : Z) :
  0 <= i < 2 ^ 32 ->
  (tier3_max <= i <= 1112060 ->
   utf8.DecodeRune (units4 (i + 2051)) = (i + 2051, 4) /\
   intToRune i = Ok (i + 2051) /\ rune_units (i + 2051) = 4) /\
  (1112060 < i <-> exists p, intToRune i = Panic p) /\
  (1112060 < i < tier4_max -> intToRune i = Panic (PanicEncoding 4)) /\
  (tier4_max <= i -> intToRune i = Panic PanicTooLarge).
Proof.
  intros Hi. change tier3_max with 63485. change tier4_max with 2095101.
  split; [ | split; [ | split]].
  - intros Hr. split; [apply decode_units4; lia | ].
    split; [apply intToRune_tier4; lia | ].
    rewrite rune_units_value by lia.
    destruct (Z.ltb_spec (i + 2051) 128); [lia | ].
    destruct (Z.ltb_spec (i + 2051) 2048); [lia | ].
    destruct (Z.ltb_spec (i + 2051) 65536); [lia | reflexivity].
  - split; [apply intToRune_outside | ].
    intros [p Hp]. destruct (Z.le_gt_cases i 1112060) as [Hle | Hgt]; [ | exact Hgt].
    rewrite intToRune_value in Hp by (unfold codec_domain; lia). discriminate Hp.
  - intros Hr. apply intToRune_tier4_beyond. lia.
  - intros Hr. apply intToRune_too_large. exact Hr.
Qed.

Lemma intToRune_four_units_range_witness :
  (0 <= 63485 < 2 ^ 32 /\ tier3_max <= 63485 <= 1112060 /\
   utf8.DecodeRune (units4 (63485 + 2051)) = (63485 + 2051, 4) /\
   intToRune 63485 = Ok (63485 + 2051) /\ rune_units (63485 + 2051) = 4) /\
  (1112060 < 2095100 < tier4_max /\
   intToRune 2095100 = Panic (PanicEncoding 4)) /\
  (tier4_max <= 2095101 /\ intToRune 2095101 = Panic PanicTooLarge).
Proof.
  assert (Hu : 0 <= 63485 < 2 ^ 32) by lia.
  assert (Hr : tier3_max <= 63485 <= 1112060) by (change tier3_max with 63485; lia).
  assert (Hu4 : 0 <= 2095100 < 2 ^ 32) by lia.
  assert (Hr4 : 1112060 < 2095100 < tier4_max)
    by (change tier4_max with 2095101; lia).
  assert (Hu5 : 0 <= 2095101 < 2 ^ 32) by lia.
  assert (Hr5 : tier4_max <= 2095101) by (change tier4_max with 2095101; lia).
  split; [ | split].
  - split; [exact Hu | ]. split; [exact Hr | ].
    exact (proj1 (intToRune_four_units_range 63485 Hu) Hr).
  - split; [exact Hr4 | ].
    exact (proj1 (proj2 (proj2 (intToRune_four_units_range 2095100 Hu4))) Hr4).
  - split; [exact Hr5 | ].
    exact (proj2 (proj2 (proj2 (intToRune_four_units_range 2095101 Hu5))) Hr5).
Defined.

(** C3 as stated fails: 1112061 lies in [tier3_max, tier4_max), and
    [intToRune] panics there, in the self-check of the fourth branch. *)
Lemma intToRune_four_units_range_counterexample :
  tier3_max <= 1112061 < tier4_max /\
  tier4_max = 2 ^ 21 - 2048 - 3 /\
  intToRune 1112061 = Panic (PanicEncoding 4).
Proof. vm_compute. repeat split; intros H; discriminate H. Qed.

(** C6. Every input of the domain is encoded in the tier the tier table
    gives it, so the switches are exactly at 2^7, 2^11 and 2^16 - 2048 - 3:
    127 is returned as it is and 128 through the two units, 2047 through two
    units and 2048 through three, 63484 through three and 63485 through
    four.  [encodes_in_tier i] says that the returned scalar has [tier i]
    units, that tier 1 returns the input itself, and that tiers 2, 3 and 4
    return what [utf8.DecodeRune] reads from the units of their branch. *)
Theorem intToRune_tier_exact (i : Z) : codec_domain i -> encodes_in_tier i.
Proof.
  intros Hd. pose proof (intToRune_value i Hd) as Hv.
  unfold codec_domain in Hd. unfold encodes_in_tier, tier.
  change (2 ^ 7) with 128. change (2 ^ 11) with 2048.
  change (2 ^ 16 - 2048 - 3) with 63485.
  change UNICODE_INVALID_RANGE_START with 55296.
  change UNICODE_INVALID_RANGE_DELTA with 2048. change (2048 + 3) with 2051.
  eexists. split; [exact Hv | ].
  destruct (Z.ltb_spec i 128) as [H1 | H1];
    [ | destruct (Z.ltb_spec i 2048) as [H2 | H2];
        [ | destruct (Z.ltb_spec i 63485) as [H3 | H3] ] ].
  - replace (i <? 55296) with true by (symmetry; lia).
    rewrite rune_units_value by lia.
    replace (i <? 128) with true by (symmetry; lia).
    repeat split; intros; (reflexivity || discriminate).
  - replace (i <? 55296) with true by (symmetry; lia).
    rewrite rune_units_value by lia.
    replace (i <? 128) with false by (symmetry; lia).
    replace (i <? 2048) with true by (symmetry; lia).
    repeat split; intros; try discriminate. apply decode_units2. lia.
  - destruct (Z.ltb_spec i 55296) as [H4 | H4].
    + rewrite rune_units_value by lia.
      replace (i <? 128) with false by (symmetry; lia).
      replace (i <? 2048) with false by (symmetry; lia).
      replace (i <? 65536) with true by (symmetry; lia).
      replace (i >=? 55296) with false by (symmetry; lia).
      repeat split; intros; try discriminate. apply decode_units3. lia.
    + replace (i <? 63485) with true by (symmetry; lia).
      rewrite rune_units_value by lia.
      replace (i + 2048 <? 128) with false by (symmetry; lia).
      replace (i + 2048 <? 2048) with false by (symmetry; lia).
      replace (i + 2048 <? 65536) with true by (symmetry; lia).
      replace (i >=? 55296) with true by (symmetry; lia).
      repeat split; intros; try discriminate. apply decode_units3. lia.
  - replace (i <? 55296) with false by (symmetry; lia).
    replace (i <? 63485) with false by (symmetry; lia).
    rewrite rune_units_value by lia.
    replace (i + 2051 <? 128) with false by (symmetry; lia).
    replace (i + 2051 <? 2048) with false by (symmetry; lia).
    replace (i + 2051 <? 65536) with false by (symmetry; lia).
    repeat split; intros; try discriminate. apply decode_units4. lia.
Qed.

Lemma intToRune_tier_exact_witness :
  (codec_domain 127 /\ tier 127 = 1 /\ encodes_in_tier 127) /\
  (codec_domain 128 /\ tier 128 = 2 /\ encodes_in_tier 128) /\
  (codec_domain 2047 /\ tier 2047 = 2 /\ encodes_in_tier 2047) /\
  (codec_domain 2048 /\ tier 2048 = 3 /\ encodes_in_tier 2048) /\
  (codec_domain 63484 /\ tier 63484 = 3 /\ encodes_in_tier 63484) /\
  (codec_domain 63485 /\ tier 63485 = 4 /\ encodes_in_tier 63485).
Proof.
  assert (Hd : forall i, 0 <= i <= 1112060 -> codec_domain i)
    by (intros i Hi; exact Hi).
  repeat match goal with
         | |- _ /\ _ => split
         | |- codec_domain _ => apply Hd; lia
         | |- tier _ = _ => reflexivity
         | |- encodes_in_tier ?i => apply (intToRune_tier_exact i), Hd; lia
         end.
Defined.

(** The units at the three switches. *)
Example units_at_switches :
  intToRune 127 = Ok 127 /\
  units2 128 = [0xC2; 0x80] /\ intToRune 128 = Ok 128 /\
  units2 2047 = [0xDF; 0xBF] /\ intToRune 2047 = Ok 2047 /\
  units3 2048 = [0xE0; 0xA0; 0x80] /\ intToRune 2048 = Ok 2048 /\
  units3 (63484 + 2048) = [0xEF; 0xBF; 0xBC] /\ intToRune 63484 = Ok 0xFFFC /\
  units4 (63485 + 2051) = [0xF0; 0x90; 0x80; 0x80] /\
  intToRune 63485 = Ok 0x10000.
Proof. vm_compute. repeat split. Qed.

End Codec.

(** * Properties of the change classifier *)

(** ** Byte-wise order on paths *)
Section PathOrder.

Lemma ascii_compare_refl (x : ascii) : Ascii.compare x x = Eq.
Proof. unfold Ascii.compare. apply N.compare_refl. Qed.

Lemma ascii_compare_lt_trans (x y z : ascii) :
  Ascii.compare x y = Lt -> Ascii.compare y z = Lt -> Ascii.compare x z = Lt.
Proof.
  unfold Ascii.compare. rewrite !N.compare_lt_iff. apply N.lt_trans.
Qed.

Lemma path_le_trans (p q s : string) :
  path_le p q -> path_le q s -> path_le p s.
Proof.
  unfold path_le. revert q s.
  induction p as [ | x p IH]; intros q s Hpq Hqs.
  - destruct s; discriminate.
  - destruct q as [ | y q]; [exfalso; apply Hpq; reflexivity | ].
    destruct s as [ | z s]; [exfalso; apply Hqs; reflexivity | ].
    cbn [String.compare] in *.
    destruct (Ascii.compare x y) eqn:Exy; [ | | exfalso; apply Hpq; reflexivity].
    + apply Ascii.compare_eq_iff in Exy. subst y.
      destruct (Ascii.compare x z); [ | discriminate | exact Hqs ].
      exact (IH q s Hpq Hqs).
    + destruct (Ascii.compare y z) eqn:Eyz;
        [ | | exfalso; apply Hqs; reflexivity].
      * apply Ascii.compare_eq_iff in Eyz. subst z. rewrite Exy. discriminate.
      * rewrite (ascii_compare_lt_trans x y z Exy Eyz). discriminate.
Qed.

Lemma path_le_refl (p : string) : path_le p p.
Proof.
  unfold path_le. induction p as [ | x p IH]; [discriminate | ].
  cbn [String.compare]. rewrite ascii_compare_refl. exact IH.
Qed.

(** What [Less] tests: [strings.Compare(p, q) < 0]. *)
Lemma Compare_neg (p q : string) :
  (strings.Compare p q <? 0) = true <-> String.compare p q = Lt.
Proof.
  unfold strings.Compare. destruct (String.compare p q); cbn; split;
    intros Hc; (reflexivity || discriminate Hc).
Qed.

Lemma Compare_neg_le (p q : string) :
  (strings.Compare p q <? 0) = true -> path_le p q.
Proof. rewrite Compare_neg. unfold path_le. intros ->. discriminate. Qed.

Lemma Compare_nonneg_le (p q : string) :
  (strings.Compare p q <? 0) = false -> path_le q p.
Proof.
  unfold strings.Compare, path_le. rewrite (String.compare_antisym q p).
  destruct (String.compare p q); cbn; intros Hc;
    first [discriminate Hc | discriminate].
Qed.

End PathOrder.

(** ** [Action] and [Files] *)
Section Classifier.
Context `{object.Decls}.
Import object.

Lemma Action_table (c : Change) :
  Action c =
  match ChangeEntry_Equal (From c) empty, ChangeEntry_Equal (To c) empty with
  | true, true => inr ErrMalformedChange
  | true, false => inl merkletrie.Insert
  | false, true => inl merkletrie.Delete
  | false, false => inl merkletrie.Modify
  end.
Proof.
  unfold Action.
  destruct (ChangeEntry_Equal (From c) empty), (ChangeEntry_Equal (To c) empty);
    reflexivity.
Qed.

(** C2. [Action] is decided by which sides equal [empty]: both, a
    malformed-change error; only [From], [Insert]; only [To], [Delete];
    neither, [Modify]. *)
Theorem Action_by_presence (c : Change) :
  Action c =
  match ChangeEntry_Equal (From c) empty, ChangeEntry_Equal (To c) empty with
  | true, true => inr ErrMalformedChange
  | true, false => inl merkletrie.Insert
  | false, true => inl merkletrie.Delete
  | false, false => inl merkletrie.Modify
  end.
Proof. exact (Action_table c). Qed.

Lemma file_view_tree (e : ChangeEntry) :
  Tree_ e <> None -> exists f, entryFile e = Ok f /\ file_view e = Some f.
Proof.
  intros Ht. unfold file_view, entryFile.
  destruct (Tree_ e) as [t | ]; [ | contradiction].
  eexists. split; reflexivity.
Qed.

(** C4, as the code has it. When [Action] succeeds and every present side
    has a tree, [Files] returns without error: a file view for each present
    side and nil for the absent one when every present side has a file
    mode, and nil for both sides as soon as one present side has not. *)
Theorem Files_by_mode (c : Change) (a : merkletrie.Action) :
  Action c = inl a ->
  (present (From c) = true -> Tree_ (From c) <> None) ->
  (present (To c) = true -> Tree_ (To c) <> None) ->
  Files c =
  Ok (if (implb (present (From c)) (file_mode (From c)))
         && (implb (present (To c)) (file_mode (To c)))
      then (if present (From c) then file_view (From c) else None,
            if present (To c) then file_view (To c) else None, None)
      else (None, None, None)).
Proof.
  intros Ha Hf Ht. unfold Files. rewrite Ha.
  rewrite Action_table in Ha. unfold present, file_mode in *.
  destruct (ChangeEntry_Equal (From c) empty) eqn:Ef;
    destruct (ChangeEntry_Equal (To c) empty) eqn:Et;
    try discriminate Ha; injection Ha as <-; cbn.
  - (* Insert *)
    destruct (FileMode_IsFile _); cbn; [ | reflexivity].
    destruct (file_view_tree (To c) (Ht eq_refl)) as [f [-> ->]]. reflexivity.
  - (* Delete *)
    destruct (FileMode_IsFile _); cbn; [ | reflexivity].
    destruct (file_view_tree (From c) (Hf eq_refl)) as [f [-> ->]]. reflexivity.
  - (* Modify *)
    destruct (FileMode_IsFile (TreeEntry_Mode (TreeEntry_ (To c)))); cbn;
      [ | rewrite andb_false_r; reflexivity].
    destruct (file_view_tree (To c) (Ht eq_refl)) as [g [-> ->]].
    destruct (FileMode_IsFile (TreeEntry_Mode (TreeEntry_ (From c)))); cbn;
      [ | reflexivity].
    destruct (file_view_tree (From c) (Hf eq_refl)) as [f [-> ->]]. reflexivity.
Qed.

End Classifier.

Lemma Files_by_mode_witness :
  object.Action (sample.modified "a/a") = inl merkletrie.Modify /\
  object.Files (sample.modified "a/a") =
  Ok (Some ("a/a"%string, sample.Regular, 7, 3, 1),
      Some ("a/a"%string, sample.Regular, 7, 3, 2), None).
Proof.
  split; [reflexivity | ].
  apply (Files_by_mode (sample.modified "a/a") merkletrie.Modify).
  - reflexivity.
  - intros _. discriminate.
  - intros _. discriminate.
Defined.

(** Why the trees are asked for: a file side without a tree. *)
Example Files_nil_tree :
  object.Files
    {| object.From := object.empty;
       object.To :=
         {| object.Name := "a"; object.Tree_ := None;
            object.TreeEntry_ :=
              {| sample.e_name := "a"; sample.e_mode := sample.Regular;
                 sample.e_hash := 7; sample.e_size := 3 |} |} |}
  = Panic PanicNilDeref.
Proof. reflexivity. Qed.

Example Action_on_samples :
  object.Action (sample.inserted "a") = inl merkletrie.Insert /\
  object.Action (sample.modified "a") = inl merkletrie.Modify /\
  object.Action {| object.From := sample.side "a" 1 sample.Regular;
                   object.To := object.empty |} = inl merkletrie.Delete /\
  object.Action {| object.From := object.empty; object.To := object.empty |}
  = inr object.ErrMalformedChange.
Proof. repeat split. Qed.

(** C4 as stated fails: a directory replaced by a regular file is a
    [Modify] whose [To] side has a file mode, and [Files] returns nil for
    both sides. *)
Lemma Files_by_mode_counterexample :
  object.Action (sample.dir_to_file "a") = inl merkletrie.Modify /\
  file_mode (object.To (sample.dir_to_file "a")) = true /\
  file_mode (object.From (sample.dir_to_file "a")) = false /\
  object.Files (sample.dir_to_file "a") = Ok (None, None, None).
Proof. repeat split; reflexivity. Qed.

(** ** Sorting a [Changes] *)
Section Sorting.
Context `{object.Decls}.
Import object.

Lemma name_le_trans (a b c : Change) :
  name_le a b -> name_le b c -> name_le a c.
Proof. unfold name_le. apply path_le_trans. Qed.

Lemma Less_cons (x : Change) (c : Changes) (i j : nat) :
  Less (x :: c) (S i) (S j) = Less c i j.
Proof. reflexivity. Qed.

Lemma Swap_cons (x : Change) (c : Changes) (i j : nat) :
  Swap (x :: c) (S i) (S j) =
  match Swap c i j with Ok c' => Ok (x :: c') | Panic p => Panic p end.
Proof.
  unfold Swap.
  change ((x :: c) !! S i) with (c !! i). change ((x :: c) !! S j) with (c !! j).
  destruct (c !! i), (c !! j); reflexivity.
Qed.

(** The two steps of the inner loop, at a pair of neighbours. *)
Lemma Less_neighbours (l : Changes) (y x : Change) (l2 : Changes) :
  Less (l ++ y :: x :: l2) (S (length l)) (length l) =
  Ok (strings.Compare (name x) (name y) <? 0).
Proof.
  induction l as [ | z l IH]; [reflexivity | ].
  cbn [app length]. rewrite Less_cons. exact IH.
Qed.

Lemma Swap_neighbours (l : Changes) (y x : Change) (l2 : Changes) :
  Swap (l ++ y :: x :: l2) (S (length l)) (length l) =
  Ok (l ++ x :: y :: l2).
Proof.
  induction l as [ | z l IH]; [reflexivity | ].
  cbn [app length]. rewrite Swap_cons, IH. reflexivity.
Qed.

(** The inner loop started at the element after a sorted prefix puts it in
    place. *)
Lemma insertionSort_inner_inserts (l1 : Changes) (x : Change) (l2 : Changes) :
  StronglySorted name_le l1 ->
  exists l1',
    insertionSort_inner (l1 ++ x :: l2) 0 (length l1) = Ok (l1' ++ l2) /\
    Permutation l1' (l1 ++ [x]) /\ StronglySorted name_le l1'.
Proof.
  revert l2. induction l1 as [ | y l IH] using rev_ind; intros l2 Hs.
  - exists [x]. cbn. repeat split; [reflexivity | ].
    repeat constructor.
  - rewrite length_app. cbn [length]. rewrite Nat.add_1_r.
    rewrite <- app_assoc. cbn [app insertionSort_inner].
    replace (0 <? S (length l))%nat with true by (symmetry; apply Nat.ltb_lt; lia).
    rewrite Less_neighbours.
    apply StronglySorted_app in Hs. destruct Hs as (Hly & Hl & _).
    destruct (strings.Compare (name x) (name y) <? 0) eqn:Hc.
    + rewrite Swap_neighbours.
      destruct (IH (y :: l2) Hl) as (l' & Hrun & Hperm & Hsorted).
      exists (l' ++ [y]). rewrite Hrun, <- app_assoc. split; [reflexivity | ].
      split.
      * rewrite Hperm. rewrite <- !app_assoc. cbn.
        apply Permutation_app_head. apply perm_swap.
      * apply StronglySorted_app_2; [ | exact Hsorted | repeat constructor].
        intros a b Ha Hb. apply list_elem_of_singleton in Hb. subst b.
        rewrite Hperm in Ha. apply elem_of_app in Ha. destruct Ha as [Ha | Ha].
        -- apply Hly; [exact Ha | apply list_elem_of_singleton; reflexivity].
        -- apply list_elem_of_singleton in Ha. subst a.
           apply Compare_neg_le. exact Hc.
    + exists ((l ++ [y]) ++ [x]). rewrite <- !app_assoc. cbn.
      split; [reflexivity | ]. split; [reflexivity | ].
      replace (l ++ [y; x]) with (l ++ [y] ++ [x]) by reflexivity.
      apply StronglySorted_app_2; [ | exact Hl | ].
      * intros a b Ha Hb. apply elem_of_app in Hb.
        assert (Hay : name_le a y).
        { apply Hly; [exact Ha | apply list_elem_of_singleton; reflexivity]. }
        destruct Hb as [Hb | Hb]; apply list_elem_of_singleton in Hb; subst b.
        -- exact Hay.
        -- apply (name_le_trans a y x Hay). apply Compare_nonneg_le. exact Hc.
      * constructor; [repeat constructor | ].
        constructor; [ | constructor]. apply Compare_nonneg_le. exact Hc.
Qed.

Lemma insertionSort_outer_sorts (l2 l1 : Changes) :
  StronglySorted name_le l1 ->
  exists l',
    insertionSort_outer (length l2) (l1 ++ l2) 0 (length l1) = Ok l' /\
    Permutation l' (l1 ++ l2) /\ StronglySorted name_le l'.
Proof.
  revert l1. induction l2 as [ | x l2 IH]; intros l1 Hs.
  - exists l1. rewrite app_nil_r. repeat split; [reflexivity | exact Hs].
  - cbn [length insertionSort_outer].
    destruct (insertionSort_inner_inserts l1 x l2 Hs)
      as (l1' & Hrun & Hperm & Hsorted).
    rewrite Hrun.
    assert (Hlen : S (length l1) = length l1').
    { rewrite Hperm, length_app. cbn. lia. }
    rewrite Hlen.
    destruct (IH l1' Hsorted) as (l' & Hrun' & Hperm' & Hsorted').
    exists l'. split; [exact Hrun' | ]. split; [ | exact Hsorted'].
    rewrite Hperm', Hperm, <- app_assoc. reflexivity.
Qed.

Lemma Sort_sorts (cs : Changes) :
  exists cs', Sort cs = Ok cs' /\ Permutation cs' cs /\
              StronglySorted name_le cs'.
Proof.
  unfold Sort, Len. destruct cs as [ | x cs].
  - exists []. repeat split; [reflexivity | constructor].
  - cbn [length]. destruct cs as [ | y cs].
    + exists [x]. repeat split; [reflexivity | repeat constructor].
    + replace (S (S (length cs)) <=? 1)%nat with false by reflexivity.
      unfold insertionSort.
      replace (S (S (length cs)) - (0 + 1))%nat with (length (y :: cs))
        by (cbn [length]; lia).
      apply (insertionSort_outer_sorts (y :: cs) [x]).
      repeat constructor.
Qed.

Lemma sorted_names (cs : Changes) :
  StronglySorted name_le cs -> StronglySorted path_le (map name cs).
Proof.
  induction 1 as [ | a l Hl IH Ha]; cbn; constructor; [exact IH | ].
  rewrite Forall_map. exact Ha.
Qed.

(** C7. [Sort] returns the changes rearranged so that their effective
    paths ([From]'s path when [From] is present, else [To]'s) are in
    byte-wise lexicographic order; changes at "b/x", "a/y", "a/a" come out
    as "a/a", "a/y", "b/x". *)
Theorem Sort_by_effective_path :
  (forall c : Change,
     name c = if present (From c) then Name (From c) else Name (To c)) /\
  (forall cs : Changes,
     exists cs', Sort cs = Ok cs' /\ Permutation cs' cs /\
                 StronglySorted path_le (map name cs')) /\
  (forall c1 c2 c3 : Change,
     name c1 = "b/x"%string -> name c2 = "a/y"%string ->
     name c3 = "a/a"%string ->
     Sort [c1; c2; c3] = Ok [c3; c2; c1]).
Proof.
  split; [intros c; reflexivity | ]. split.
  - intros cs. destruct (Sort_sorts cs) as (cs' & Hrun & Hperm & Hsorted).
    exists cs'. split; [exact Hrun | ]. split; [exact Hperm | ].
    apply sorted_names. exact Hsorted.
  - intros c1 c2 c3 H1 H2 H3.
    unfold Sort, insertionSort. cbn -[Less Swap].
    unfold Less at 1. cbn [lookup list_lookup]. rewrite H1, H2.
    change (strings.Compare "a/y" "b/x" <? 0) with true. cbv iota.
    unfold Swap at 1. cbn [lookup list_lookup insert list_insert].
    unfold Less at 1. cbn [lookup list_lookup]. rewrite H3, H1.
    change (strings.Compare "a/a" "b/x" <? 0) with true. cbv iota.
    unfold Swap at 1. cbn [lookup list_lookup insert list_insert].
    unfold Less at 1. cbn [lookup list_lookup]. rewrite H3, H2.
    change (strings.Compare "a/a" "a/y" <? 0) with true. cbv iota.
    unfold Swap at 1. cbn [lookup list_lookup insert list_insert].
    reflexivity.
Qed.

End Sorting.

Lemma Sort_by_effective_path_witness :
  object.name (sample.modified "b/x") = "b/x"%string /\
  object.name (sample.inserted "a/y") = "a/y"%string /\
  object.name (sample.modified "a/a") = "a/a"%string /\
  object.Sort
    [sample.modified "b/x"; sample.inserted "a/y"; sample.modified "a/a"] =
  Ok [sample.modified "a/a"; sample.inserted "a/y"; sample.modified "b/x"].
Proof.
  split; [reflexivity | ]. split; [reflexivity | ]. split; [reflexivity | ].
  apply (proj2 (proj2 Sort_by_effective_path)); reflexivity.
Defined.

(** * Properties of the pkt-len header *)
Section PktLen.
Import pktline.

Lemma forall_bytes (P : Z -> bool) :
  forallb P (map Z.of_nat (seq 0 256)) = true ->
  forall b, 0 <= b < 256 -> P b = true.
Proof.
  intros Hall b Hb. rewrite forallb_forall in Hall. apply Hall.
  rewrite <- (Z2Nat.id b) by lia. apply in_map, in_seq. lia.
Qed.

(** [hexval] reads the digit's value, and 0xff for any other byte. *)
Lemma hexval_digit (b : Z) :
  0 <= b < 256 ->
  hexval b = match hex_digit b with Some v => v | None => 0xff end.
Proof.
  intros Hb.
  apply Z.eqb_eq.
  apply (forall_bytes
           (fun b => hexval b =?
                     match hex_digit b with Some v => v | None => 0xff end));
    [vm_compute; reflexivity | exact Hb].
Qed.

Lemma hex_digit_range (b v : Z) : hex_digit b = Some v -> 0 <= v <= 15.
Proof.
  unfold hex_digit. intros Hd.
  destruct ((0x30 <=? b) && (b <=? 0x39)) eqn:E1;
    [injection Hd as <-; lia | ].
  destruct ((0x41 <=? b) && (b <=? 0x46)) eqn:E2;
    [injection Hd as <-; lia | ].
  destruct ((0x61 <=? b) && (b <=? 0x66)) eqn:E3;
    [injection Hd as <-; lia | discriminate Hd].
Qed.

Lemma pack_nibbles (a b c d : Z) :
  0 <= b <= 15 -> 0 <= c <= 15 -> 0 <= d <= 15 ->
  Z.lor (Z.lor (Z.lor (Z.shiftl a 12) (Z.shiftl b 8)) (Z.shiftl c 4)) d
  = 4096 * a + 256 * b + 16 * c + d.
Proof.
  intros Hb Hc Hd. rewrite !Z.shiftl_mul_pow2 by lia.
  rewrite (lor_shifted_low a (b * 2 ^ 8) 12) by lia.
  replace (a * 2 ^ 12 + b * 2 ^ 8) with ((a * 16 + b) * 2 ^ 8) by lia.
  rewrite (lor_shifted_low _ (c * 2 ^ 4) 8) by lia.
  replace ((a * 16 + b) * 2 ^ 8 + c * 2 ^ 4)
    with ((a * 256 + b * 16 + c) * 2 ^ 4) by lia.
  rewrite lor_shifted_low by lia. lia.
Qed.

Lemma hexDecode_digits (h0 h1 h2 h3 : Z) (tl : list Z) :
  0 <= h0 < 256 -> 0 <= h1 < 256 -> 0 <= h2 < 256 -> 0 <= h3 < 256 ->
  hexDecode (h0 :: h1 :: h2 :: h3 :: tl) =
  match hex_digit h0, hex_digit h1, hex_digit h2, hex_digit h3 with
  | Some a, Some b, Some c, Some d =>
      (4096 * a + 256 * b + 16 * c + d, None)
  | _, _, _, _ => (0, Some ErrInvalidPktLen)
  end.
Proof.
  intros H0 H1 H2 H3. unfold hexDecode. cbn [nth].
  rewrite !hexval_digit by assumption.
  destruct (hex_digit h0) as [a | ] eqn:E0; [ | reflexivity].
  apply hex_digit_range in E0.
  replace (a >? 15) with false by (symmetry; lia). cbn [orb].
  destruct (hex_digit h1) as [b | ] eqn:E1; [ | reflexivity].
  apply hex_digit_range in E1.
  replace (b >? 15) with false by (symmetry; lia). cbn [orb].
  destruct (hex_digit h2) as [c | ] eqn:E2; [ | reflexivity].
  apply hex_digit_range in E2.
  replace (c >? 15) with false by (symmetry; lia). cbn [orb].
  destruct (hex_digit h3) as [d | ] eqn:E3; [ | reflexivity].
  apply hex_digit_range in E3.
  replace (d >? 15) with false by (symmetry; lia).
  rewrite pack_nibbles by assumption. reflexivity.
Qed.

(** C8. When the reader delivers four more bytes, [readPayloadLen] is
    decided by them: a byte that is no hexadecimal digit gives
    [ErrInvalidPktLen]; four digits spelling the total length [n] give a
    flush (0, no error) for [n = 0], [ErrInvalidPktLen] for [0 < n <= 4] and
    for [n > OversizePayloadMax + 4], and the payload length [n - 4]
    otherwise. *)
Theorem readPayloadLen_header (OversizePayloadMax : Z) (s : Scanner)
    (h0 h1 h2 h3 : Z) (rest : list Z) :
  0 <= h0 < 256 -> 0 <= h1 < 256 -> 0 <= h2 < 256 -> 0 <= h3 < 256 ->
  pending (r s) = h0 :: h1 :: h2 :: h3 :: rest ->
  snd (readPayloadLen OversizePayloadMax s) =
  match hex_digit h0, hex_digit h1, hex_digit h2, hex_digit h3 with
  | Some a, Some b, Some c, Some d =>
      let n := 4096 * a + 256 * b + 16 * c + d in
      if n =? 0 then (0, None)
      else if (n <=? 4) || (n >? OversizePayloadMax + 4)
           then (0, Some ErrInvalidPktLen)
      else (n - 4, None)
  | _, _, _, _ => (0, Some ErrInvalidPktLen)
  end.
Proof.
  intros H0 H1 H2 H3 Hp. unfold readPayloadLen, ReadFull. rewrite Hp.
  change (Z.to_nat lenSize) with 4%nat. cbn [firstn skipn]. rewrite take_0, drop_0.
  cbn [length Nat.eqb app len]. rewrite hexDecode_digits by assumption.
  destruct (hex_digit h0) as [a | ]; [ | reflexivity].
  destruct (hex_digit h1) as [b | ]; [ | reflexivity].
  destruct (hex_digit h2) as [c | ]; [ | reflexivity].
  destruct (hex_digit h3) as [d | ]; [ | reflexivity].
  cbv zeta. change lenSize with 4.
  destruct (4096 * a + 256 * b + 16 * c + d =? 0); [reflexivity | ].
  destruct (4096 * a + 256 * b + 16 * c + d <=? 4); [reflexivity | ].
  cbn [orb].
  destruct (4096 * a + 256 * b + 16 * c + d >? OversizePayloadMax + 4);
    reflexivity.
Qed.

(** The four bytes of the header are consumed, whatever they are. *)
Lemma readPayloadLen_consumes (OversizePayloadMax : Z) (s : Scanner)
    (h0 h1 h2 h3 : Z) (rest : list Z) :
  pending (r s) = h0 :: h1 :: h2 :: h3 :: rest ->
  pending (r (fst (readPayloadLen OversizePayloadMax s))) = rest /\
  len (fst (readPayloadLen OversizePayloadMax s)) =
  [h0; h1; h2; h3] ++ drop 4 (len s).
Proof.
  intros Hp. unfold readPayloadLen, ReadFull. rewrite Hp.
  change (Z.to_nat lenSize) with 4%nat.
  cbn [firstn skipn]. rewrite take_0, drop_0. cbn [length Nat.eqb app len].
  destruct (hexDecode _) as [n [e | ]]; [split; reflexivity | ].
  destruct (n =? 0); [split; reflexivity | ].
  destruct (n <=? lenSize); [split; reflexivity | ].
  destruct (n >? OversizePayloadMax + lenSize); split; reflexivity.
Qed.

End PktLen.

Lemma readPayloadLen_header_witness :
  snd (pktline.readPayloadLen 65520
         {| pktline.r := {| pktline.pending := [0x30; 0x30; 0x30; 0x39; 0x68];
                            pktline.at_end := pktline.EOF |};
            pktline.err := None; pktline.payload := [];
            pktline.len := [0; 0; 0; 0] |}) = (5, None).
Proof.
  apply (readPayloadLen_header 65520 _ 0x30 0x30 0x30 0x39 [0x68]);
    first [lia | reflexivity].
Defined.

(** Headers at the edges, with [OversizePayloadMax] set to 65520, and the
    short reads. *)
Example readPayloadLen_runs :
  let scan bytes :=
    snd (pktline.readPayloadLen 65520
           {| pktline.r := {| pktline.pending := bytes;
                              pktline.at_end := pktline.EOF |};
              pktline.err := None; pktline.payload := [];
              pktline.len := [0; 0; 0; 0] |}) in
  scan [0x30; 0x30; 0x30; 0x30] = (0, None) /\                       (* 0000 *)
  scan [0x30; 0x30; 0x30; 0x34] = (0, Some pktline.ErrInvalidPktLen) /\ (* 0004 *)
  scan [0x30; 0x30; 0x30; 0x35] = (1, None) /\                       (* 0005 *)
  scan [0x66; 0x66; 0x66; 0x34] = (65520, None) /\                   (* fff4 *)
  scan [0x46; 0x46; 0x46; 0x35] = (0, Some pktline.ErrInvalidPktLen) /\ (* FFF5 *)
  scan [0x30; 0x30; 0x67; 0x30] = (0, Some pktline.ErrInvalidPktLen) /\ (* 00g0 *)
  scan [0x30; 0x30] = (0, Some pktline.ErrInvalidPktLen) /\
  scan [] = (0, Some pktline.EOF).
Proof. vm_compute. repeat split. Qed.

(** * Properties of [StrSplitSkipEmpty] *)
Section Split.
Import strengthen.











End Split.


Example StrSplitSkipEmpty_run :
  strengthen.StrSplitSkipEmpty (list_ascii_of_string ",a/b,,c,") "," 8
  = Ok [list_ascii_of_string "a/b"; list_ascii_of_string "c"].
Proof. reflexivity. Qed.

(** * Further properties of the codec *)
Section CodecMore.

(** X1. [getBits(i, cnt, from)] is the field of [cnt] bits of [i] that
    starts at bit [from], for fields of at most eight bits: the quotient of
    [i] by [2^from], modulo [2^cnt]; it is below [2^cnt]. *)
Theorem getBits_field (i cnt from : Z) :
  0 <= from -> 0 <= cnt <= 8 ->
  getBits i cnt from = (i / 2 ^ from) mod 2 ^ cnt /\
  0 <= getBits i cnt from < 2 ^ cnt.
Proof.
  intros Hf Hc. rewrite getBits_div_mod by assumption.
  split; [reflexivity | ].
  apply Z.mod_pos_bound. apply Z.pow_pos_nonneg; lia.
Qed.

Lemma getBits_field_witness :
  getBits 0xABCD 4 8 = (0xABCD / 2 ^ 8) mod 2 ^ 4 /\
  0 <= getBits 0xABCD 4 8 < 2 ^ 4.
Proof. apply (getBits_field 0xABCD 4 8); lia. Defined.

(** X2. [runeToInt] returns on every rune: the panic that closes it is
    never reached. *)
Theorem runeToInt_never_panics (r : Z) : exists i, runeToInt r = Ok i.
Proof. exact (runeToInt_total r). Qed.

(** X3. On its domain [intToRune] is strictly increasing, so distinct
    integers get distinct scalars, in the same order. *)
Theorem intToRune_increasing (i j : Z) :
  codec_domain i -> codec_domain j -> i < j ->
  exists r s, intToRune i = Ok r /\ intToRune j = Ok s /\ r < s.
Proof.
  intros Hi Hj Hlt.
  rewrite (intToRune_value i Hi), (intToRune_value j Hj).
  do 2 eexists. split; [reflexivity | ]. split; [reflexivity | ].
  unfold codec_domain in *.
  destruct (Z.ltb_spec i 55296), (Z.ltb_spec i 63485),
    (Z.ltb_spec j 55296), (Z.ltb_spec j 63485); lia.
Qed.

Lemma intToRune_increasing_witness :
  exists r s, intToRune 55295 = Ok r /\ intToRune 55296 = Ok s /\ r < s.
Proof.
  apply (intToRune_increasing 55295 55296); unfold codec_domain; lia.
Defined.

(** X4. A rune that is no Unicode scalar value (negative, a surrogate, or
    above U+10FFFF) is decoded like U+FFFD, to 63485, which is also what
    U+10000, the scalar [intToRune] gives 63485, is decoded to. *)
Theorem runeToInt_invalid (r : Z) :
  - 2 ^ 31 <= r < 2 ^ 31 ->
  r < 0 \/ utf8.surrogateMin <= r <= utf8.surrogateMax \/ utf8.MaxRune < r ->
  runeToInt r = Ok 63485 /\ runeToInt 0x10000 = Ok 63485 /\
  intToRune 63485 = Ok 0x10000.
Proof.
  intros Hr Hbad.
  split; [ | split; vm_compute; reflexivity].
  change utf8.surrogateMin with 55296 in Hbad.
  change utf8.surrogateMax with 57343 in Hbad.
  change utf8.MaxRune with 1114111 in Hbad.
  change (2 ^ 31) with 2147483648 in Hr.
  unfold runeToInt. cbv zeta.
  change (Z.shiftl 1 ONE_BYTE_BITS) with 128.
  assert (Hu : 55296 <= u32 r <= 57343 \/ 1114111 < u32 r < 4294967296).
  { unfold u32. change (2 ^ 32) with 4294967296.
    destruct (Z.lt_ge_cases r 0) as [Hneg | Hpos].
    - right. replace r with ((r + 4294967296) + (-1) * 4294967296) by lia.
      rewrite Z.mod_add by lia. rewrite Z.mod_small by lia. lia.
    - rewrite Z.mod_small by lia. lia. }
  replace (u32 r <? 128) with false by (symmetry; lia).
  unfold utf8.EncodeRune, utf8.encodeRuneNonASCII. cbv zeta.
  change utf8.rune1Max with 127. change utf8.rune2Max with 2047.
  change utf8.rune3Max with 65535. change utf8.MaxRune with 1114111.
  change utf8.surrogateMin with 55296. change utf8.surrogateMax with 57343.
  replace (u32 r <=? 127) with false by (symmetry; lia).
  replace (u32 r <=? 2047) with false by (symmetry; lia).
  replace ((u32 r <? 55296) || (57343 <? u32 r) && (u32 r <=? 65535))
    with false by (symmetry; lia).
  replace ((65535 <? u32 r) && (u32 r <=? 1114111))
    with false by (symmetry; lia).
  vm_compute. reflexivity.
Qed.

Lemma runeToInt_invalid_witness :
  runeToInt 0xD800 = Ok 63485 /\ runeToInt 0x10000 = Ok 63485 /\
  intToRune 63485 = Ok 0x10000.
Proof.
  apply (runeToInt_invalid 0xD800); [lia | ].
  right. left. unfold utf8.surrogateMin, utf8.surrogateMax. lia.
Defined.

End CodecMore.

(** * Properties of the search functions *)
Section Search.
Import stringutil.

Section Occurrences.
Context {A : Type} `{EqDecision A}.
Implicit Types (pat l s : list A).

Lemma occurs_at_cons pat (c : A) l (k : nat) :
  occurs_at pat (c :: l) (S k) <-> occurs_at pat l k.
Proof. unfold occurs_at. cbn [drop length]. split; intros [Hl Ht]; split; (lia || exact Ht). Qed.

Lemma occurs_at_drop pat l (i k : nat) :
  (i <= length l)%nat ->
  occurs_at pat (drop i l) k <-> occurs_at pat l (i + k).
Proof.
  intros Hi. unfold occurs_at. rewrite length_drop, drop_drop.
  split; intros [Hl Ht]; split; (lia || exact Ht).
Qed.

Lemma occurs_at_take pat l (b k : nat) :
  (b <= length l)%nat ->
  occurs_at pat (take b l) k <->
  occurs_at pat l k /\ (k + length pat <= b)%nat.
Proof.
  intros Hb. unfold occurs_at. rewrite length_take.
  rewrite skipn_firstn_comm, take_take.
  split.
  - intros [Hl Ht]. rewrite (Nat.min_l (length pat)) in Ht by lia.
    split; [split; [lia | exact Ht] | lia].
  - intros [[Hl Ht] Hk]. rewrite (Nat.min_l (length pat)) by lia.
    split; [lia | exact Ht].
Qed.

Lemma HasPrefix_take s pat :
  strings.HasPrefix s pat = true <->
  (length pat <= length s)%nat /\ take (length pat) s = pat.
Proof.
  revert s.
  induction pat as [ | p pat IH]; intros s.
  - destruct s; cbn; (split; [intros _; split; [lia | reflexivity] | reflexivity]).
  - destruct s as [ | c s]; cbn [strings.HasPrefix length take].
    + split; [discriminate | intros [Hl _]; lia].
    + rewrite andb_true_iff, bool_decide_eq_true, IH.
      split.
      * intros [-> [Hl Ht]]. split; [lia | rewrite Ht; reflexivity].
      * intros [Hl Ht]. injection Ht as -> Ht. split; [reflexivity | ].
        split; [lia | exact Ht].
Qed.

Lemma HasPrefix_occurs s pat :
  strings.HasPrefix s pat = true <-> occurs_at pat s 0.
Proof.
  unfold occurs_at. rewrite drop_0, Nat.add_0_l. apply HasPrefix_take.
Qed.

Lemma occurs_at_nil pat (k : nat) :
  occurs_at pat [] k -> k = 0%nat /\ pat = [].
Proof.
  intros [Hl Ht]. cbn [length] in Hl.
  destruct pat; [split; [lia | reflexivity] | cbn [length] in Hl; lia].
Qed.

Lemma Index_at_first s pat (k0 : nat) :
  (strings.Index_at s pat k0 = -1 /\ forall k, ~ occurs_at pat s k) \/
  (exists k, strings.Index_at s pat k0 = Z.of_nat (k0 + k) /\
             occurs_at pat s k /\
             forall j, (j < k)%nat -> ~ occurs_at pat s j).
Proof.
  revert k0. induction s as [ | c s IH]; intros k0; cbn [strings.Index_at].
  - destruct (strings.HasPrefix [] pat) eqn:Hp.
    + right. exists 0%nat. rewrite Nat.add_0_r.
      split; [reflexivity | ]. split; [apply HasPrefix_occurs; exact Hp | ].
      intros j Hj. lia.
    + left. split; [reflexivity | ]. intros k Hk.
      destruct (occurs_at_nil _ _ Hk) as [-> ->]. discriminate Hp.
  - destruct (strings.HasPrefix (c :: s) pat) eqn:Hp.
    + right. exists 0%nat. rewrite Nat.add_0_r.
      split; [reflexivity | ]. split; [apply HasPrefix_occurs; exact Hp | ].
      intros j Hj. lia.
    + assert (Hno : ~ occurs_at pat (c :: s) 0).
      { rewrite <- HasPrefix_occurs, Hp. discriminate. }
      destruct (IH (S k0)) as [[Hr Hnone] | (k & Hr & Hk & Hbefore)].
      * left. split; [exact Hr | ]. intros [ | k]; [exact Hno | ].
        rewrite occurs_at_cons. apply Hnone.
      * right. exists (S k). split; [rewrite Hr; f_equal; lia | ].
        split; [apply occurs_at_cons; exact Hk | ].
        intros [ | j] Hj; [exact Hno | ].
        rewrite occurs_at_cons. apply Hbefore. lia.
Qed.

Lemma Index_first s pat : first_from pat s 0 (strings.Index s pat).
Proof.
  unfold first_from, strings.Index.
  destruct (Index_at_first s pat 0) as [[Hr Hnone] | (k & Hr & Hk & Hbefore)].
  - left. split; [exact Hr | ]. intros k _. apply Hnone.
  - right. exists k. split; [exact Hr | ]. split; [lia | ].
    split; [exact Hk | ]. intros j Hj. apply Hbefore. lia.
Qed.

Lemma LastIndex_at_last s pat (k0 : nat) :
  (strings.LastIndex_at s pat k0 = -1 /\ forall k, ~ occurs_at pat s k) \/
  (exists k, strings.LastIndex_at s pat k0 = Z.of_nat (k0 + k) /\
             occurs_at pat s k /\
             forall j, (k < j)%nat -> ~ occurs_at pat s j).
Proof.
  revert k0. induction s as [ | c s IH]; intros k0; cbn [strings.LastIndex_at].
  - destruct (strings.HasPrefix [] pat) eqn:Hp.
    + right. exists 0%nat. rewrite Nat.add_0_r.
      split; [reflexivity | ]. split; [apply HasPrefix_occurs; exact Hp | ].
      intros j Hj Hocc. apply occurs_at_nil in Hocc. lia.
    + left. split; [reflexivity | ]. intros k Hk.
      destruct (occurs_at_nil _ _ Hk) as [-> ->]. discriminate Hp.
  - cbv zeta.
    destruct (IH (S k0)) as [[Hr Hnone] | (k & Hr & Hk & Hafter)].
    + rewrite Hr. change (-1 >=? 0) with false. cbv iota.
      destruct (strings.HasPrefix (c :: s) pat) eqn:Hp.
      * right. exists 0%nat. rewrite Nat.add_0_r.
        split; [reflexivity | ].
        split; [apply HasPrefix_occurs; exact Hp | ].
        intros [ | j] Hj; [lia | ]. rewrite occurs_at_cons. apply Hnone.
      * left. split; [reflexivity | ]. intros [ | k].
        -- rewrite <- HasPrefix_occurs, Hp. discriminate.
        -- rewrite occurs_at_cons. apply Hnone.
    + rewrite Hr.
      rewrite Z.geb_leb, (proj2 (Z.leb_le 0 _)) by lia.
      right. exists (S k). split; [f_equal; lia | ].
      split; [apply occurs_at_cons; exact Hk | ].
      intros [ | j] Hj; [lia | ]. rewrite occurs_at_cons. apply Hafter. lia.
Qed.

Lemma LastIndex_last s pat : last_in pat s (strings.LastIndex s pat).
Proof. apply (LastIndex_at_last s pat 0). Qed.

(** A search in [l[i:]], moved back by [i]. *)
Lemma first_from_drop pat l (i : nat) (ind : Z) :
  (i <= length l)%nat ->
  first_from pat (drop i l) 0 ind ->
  first_from pat l i (if ind =? -1 then -1 else ind + Z.of_nat i).
Proof.
  intros Hi [[-> Hnone] | (k & -> & _ & Hk & Hbefore)].
  - left. split; [reflexivity | ]. intros k Hk Hocc.
    apply (Hnone (k - i)%nat); [lia | ].
    apply occurs_at_drop; [exact Hi | ].
    replace (i + (k - i))%nat with k by lia. exact Hocc.
  - right. exists (i + k)%nat.
    rewrite (proj2 (Z.eqb_neq (Z.of_nat k) (-1))) by lia.
    split; [lia | ]. split; [lia | ].
    split; [apply occurs_at_drop; assumption | ].
    intros j Hj Hocc. apply (Hbefore (j - i)%nat); [lia | ].
    apply occurs_at_drop; [exact Hi | ].
    replace (i + (j - i))%nat with j by lia. exact Hocc.
Qed.

End Occurrences.

Lemma Equal_occurs (r1 r2 : list Z) (i : nat) :
  Z.of_nat i <= len r1 - len r2 ->
  slices.Equal (take (length r2) (drop i r1)) r2 = true <-> occurs_at r2 r1 i.
Proof.
  unfold len, slices.Equal, occurs_at. intros Hi.
  rewrite bool_decide_eq_true. split; [intros Ht; split; [lia | exact Ht] | ].
  intros [_ Ht]. exact Ht.
Qed.

Lemma occurs_at_last (r1 r2 : list Z) (k : nat) :
  occurs_at r2 r1 k -> Z.of_nat k <= len r1 - len r2.
Proof. unfold occurs_at, len. intros [Hl _]. lia. Qed.

Lemma runesIndex_loop_first (r1 r2 : list Z) (todo i : nat) :
  (todo + i = S (length r1))%nat ->
  (forall j, (j < i)%nat -> ~ occurs_at r2 r1 j) ->
  first_from r2 r1 0 (runesIndex_loop todo r1 r2 (len r1 - len r2) i).
Proof.
  revert i. induction todo as [ | todo IH]; intros i Hfuel Hbefore;
    cbn [runesIndex_loop].
  - left. split; [reflexivity | ]. intros k _ Hk.
    destruct (Nat.lt_ge_cases k i) as [Hlt | Hge]; [exact (Hbefore k Hlt Hk) | ].
    apply occurs_at_last in Hk. unfold len in Hk. lia.
  - destruct (Z.leb_spec (Z.of_nat i) (len r1 - len r2)) as [Hin | Hout].
    + destruct (slices.Equal (take (length r2) (drop i r1)) r2) eqn:He.
      * right. exists i. split; [reflexivity | ]. split; [lia | ].
        split; [apply Equal_occurs; assumption | ].
        intros j Hj. apply Hbefore. lia.
      * apply IH; [lia | ]. intros j Hj.
        destruct (Nat.eq_dec j i) as [-> | Hne]; [ | apply Hbefore; lia].
        rewrite <- Equal_occurs by exact Hin. rewrite He. discriminate.
    + left. split; [reflexivity | ]. intros k _ Hk.
      destruct (Nat.lt_ge_cases k i) as [Hlt | Hge]; [exact (Hbefore k Hlt Hk) | ].
      apply occurs_at_last in Hk. lia.
Qed.

Lemma runesIndex_first_from (r1 r2 : list Z) :
  first_from r2 r1 0 (runesIndex r1 r2).
Proof.
  unfold runesIndex. apply runesIndex_loop_first; [lia | ].
  intros j Hj. lia.
Qed.

(** The shape shared by [indexOf] and [runesIndexOf]: past the last index
    the answer is -1, and from a start [i] up to the last index it is the
    answer of the search from [max i 0]. *)
Lemma search_from (search : list Z -> list Z -> Z) (l pat : list Z) (i : Z) :
  (forall l' pat', first_from pat' l' 0 (search l' pat')) ->
  let res :=
    if i >? len l - 1 then -1
    else if i <=? 0 then search l pat
    else
      let ind := search (drop (Z.to_nat i) l) pat in
      if ind =? -1 then -1 else ind + i in
  (len l - 1 < i /\ res = -1) \/
  (i <= len l - 1 /\ first_from pat l (Z.to_nat i) res).
Proof.
  intros Hsearch. cbv zeta. unfold len.
  destruct (Z.gtb_spec i (Z.of_nat (length l) - 1)) as [Hgt | Hle].
  - left. split; [lia | reflexivity].
  - right. split; [lia | ].
    destruct (Z.leb_spec i 0) as [Hneg | Hpos].
    + replace (Z.to_nat i) with 0%nat by lia. apply Hsearch.
    + pose proof (first_from_drop pat l (Z.to_nat i)
                    (search (drop (Z.to_nat i) l) pat)) as Hd.
      rewrite Z2Nat.id in Hd by lia. apply Hd; [lia | apply Hsearch].
Qed.

(** X5. [runesIndex(r1, r2)] is the first index at which [r2] stands in
    [r1], and -1 when it stands nowhere; an empty [r2] is found at 0. *)
Theorem runesIndex_first (r1 r2 : list Z) :
  first_from r2 r1 0 (runesIndex r1 r2) /\ runesIndex r1 [] = 0.
Proof.
  split; [apply runesIndex_first_from | ].
  destruct (runesIndex_first_from r1 []) as [[_ Hnone] | (k & Hr & _ & _ & Hb)].
  - exfalso. apply (Hnone 0%nat); [lia | ]. split; [cbn; lia | reflexivity].
  - destruct k as [ | k]; [exact Hr | ]. exfalso.
    apply (Hb 0%nat); [lia | ]. split; [cbn; lia | reflexivity].
Qed.

(** X6. [runesIndexOf(target, pattern, i)] is -1 when [i] is past the last
    index of [target] (also for an empty pattern, and for an empty
    target); otherwise it is the first index from [max i 0] on at which
    [pattern] stands in [target], or -1. *)
Theorem runesIndexOf_first (target pattern : list Z) (i : Z) :
  (len target - 1 < i /\ runesIndexOf target pattern i = -1) \/
  (i <= len target - 1 /\
   first_from pattern target (Z.to_nat i) (runesIndexOf target pattern i)).
Proof. exact (search_from runesIndex target pattern i runesIndex_first_from). Qed.

(** X7. [indexOf(str, pattern, i)] is -1 when [i] is past the last index
    of [str] (so the empty pattern is not found in the empty string);
    otherwise it is the first index from [max i 0] on at which [pattern]
    stands in [str], or -1. *)
Theorem indexOf_first (str pattern : list Z) (i : Z) :
  (len str - 1 < i /\ indexOf str pattern i = -1) \/
  (i <= len str - 1 /\
   first_from pattern str (Z.to_nat i) (indexOf str pattern i)).
Proof.
  exact (search_from strings.Index str pattern i
           (fun l p => Index_first l p)).
Qed.

Lemma first_values (b : Z) :
  In (utf8.first b)
     [utf8.as_; utf8.xx; utf8.s1; utf8.s2; utf8.s3; utf8.s4; utf8.s5;
      utf8.s6; utf8.s7].
Proof.
  unfold utf8.first.
  repeat match goal with
         | |- context [if ?c then _ else _] => destruct c
         end; cbn; tauto.
Qed.

(** [utf8.DecodeRune] consumes at least one byte of a non-empty input, at
    most four, and never more than there are; one when the first byte is
    ASCII. *)
Lemma DecodeRune_size (p : list Z) :
  p <> [] ->
  1 <= snd (utf8.DecodeRune p) <= 4 /\
  snd (utf8.DecodeRune p) <= len p /\
  (utf8.at_ p 0 < 0x80 -> snd (utf8.DecodeRune p) = 1).
Proof.
  intros Hp. unfold utf8.DecodeRune, len. cbv zeta.
  assert (Hn : 1 <= Z.of_nat (length p)).
  { destruct p; [contradiction | cbn [length]; lia]. }
  set (n := Z.of_nat (length p)) in *.
  replace (n <? 1) with false by (symmetry; lia).
  assert (Hascii : utf8.at_ p 0 < 0x80 -> utf8.first (utf8.at_ p 0) = utf8.as_).
  { intros Hlt. unfold utf8.first.
    replace (utf8.at_ p 0 <? 128) with true by (symmetry; lia). reflexivity. }
  pose proof (first_values (utf8.at_ p 0)) as Hx.
  set (x := utf8.first (utf8.at_ p 0)) in *.
  cbn [In] in Hx.
  assert (Hone : forall v : Z * Z, snd v = 1 ->
            1 <= snd v <= 4 /\ snd v <= n /\ (utf8.at_ p 0 < 128 -> snd v = 1))
    by (intros v ->; lia).
  destruct Hx as [Hx | [Hx | Hx]];
    [rewrite <- Hx; apply Hone; reflexivity ..| ].
  assert (Hmulti : utf8.at_ p 0 < 128 -> False).
  { intros Hlt. apply Hascii in Hlt.
    repeat destruct Hx as [Hx | Hx]; try contradiction;
      rewrite Hlt in Hx; discriminate Hx. }
  repeat destruct Hx as [Hx | Hx]; try contradiction; rewrite <- Hx;
    closed (Z.land utf8.s1 7); closed (Z.land utf8.s2 7);
    closed (Z.land utf8.s3 7); closed (Z.land utf8.s4 7);
    closed (Z.land utf8.s5 7); closed (Z.land utf8.s6 7);
    closed (Z.land utf8.s7 7);
    repeat match goal with
           | |- context [if ?c then _ else _] =>
               first [ let v := eval hnf in c in
                       lazymatch v with
                       | true => change c with true
                       | false => change c with false
                       end; cbv iota
                     | destruct c eqn:? ]
           end;
    cbn [snd]; (split; [lia | split; [lia | intros Hlt; exfalso; auto]]).
Qed.

(** X8. [lastIndexOf(str, pattern, i)] never slices out of range.  It is
    -1 for a negative [i]; for [i] at or past the end it is the last index
    at which [pattern] stands in [str], or -1; for an index [i] of [str]
    it is the last index at which [pattern] stands in [str] and ends
    within the character that starts at [i] (one to four bytes, one for
    an ASCII byte), or -1. *)
Theorem lastIndexOf_last (str pattern : list Z) (i : Z) :
  (i < 0 /\ lastIndexOf str pattern i = Ok (-1)) \/
  (len str <= i /\
   exists res, lastIndexOf str pattern i = Ok res /\ last_in pattern str res) \/
  (0 <= i < len str /\
   exists res size,
     lastIndexOf str pattern i = Ok res /\
     1 <= size <= 4 /\ i + size <= len str /\
     (utf8.at_ (drop (Z.to_nat i) str) 0 < 0x80 -> size = 1) /\
     ((res = -1 /\
       forall k, occurs_at pattern str k ->
                 i + size < Z.of_nat k + len pattern) \/
      (exists k, res = Z.of_nat k /\ occurs_at pattern str k /\
                 Z.of_nat k + len pattern <= i + size /\
                 forall j, (k < j)%nat -> occurs_at pattern str j ->
                           i + size < Z.of_nat j + len pattern))).
Proof.
  unfold lastIndexOf.
  destruct (Z.ltb_spec i 0) as [Hneg | Hpos]; [left; split; [lia | reflexivity] | ].
  right.
  destruct (Z.geb_spec i (len str)) as [Hge | Hlt].
  { left. split; [lia | ]. eexists. split; [reflexivity | apply LastIndex_last]. }
  right. split; [lia | ]. cbv zeta. unfold len in *.
  assert (Hne : drop (Z.to_nat i) str <> []).
  { intros Hd. apply (f_equal length) in Hd. rewrite length_drop in Hd.
    cbn in Hd. lia. }
  destruct (DecodeRune_size _ Hne) as (Hsize & Hfit & Hascii).
  set (size := snd (utf8.DecodeRune (drop (Z.to_nat i) str))) in *.
  unfold len in Hfit. rewrite length_drop in Hfit.
  destruct (Z.gtb_spec (i + size) (Z.of_nat (length str))) as [Hover | Hin];
    [lia | ].
  exists (strings.LastIndex (take (Z.to_nat (i + size)) str) pattern), size.
  split; [reflexivity | ]. split; [exact Hsize | ]. split; [lia | ].
  split; [exact Hascii | ].
  assert (Hb : (Z.to_nat (i + size) <= length str)%nat) by lia.
  destruct (LastIndex_last (take (Z.to_nat (i + size)) str) pattern)
    as [[-> Hnone] | (k & -> & Hk & Hafter)].
  - left. split; [reflexivity | ]. intros k Hk.
    destruct (Z.lt_ge_cases (i + size) (Z.of_nat k + Z.of_nat (length pattern)))
      as [Hout | Hinside]; [exact Hout | ].
    exfalso. apply (Hnone k). apply occurs_at_take; [exact Hb | ].
    split; [exact Hk | lia].
  - right. exists k. split; [reflexivity | ].
    apply occurs_at_take in Hk; [ | exact Hb]. destruct Hk as [Hk Hend].
    split; [exact Hk | ]. split; [lia | ].
    intros j Hj Hocc.
    destruct (Z.lt_ge_cases (i + size) (Z.of_nat j + Z.of_nat (length pattern)))
      as [Hout | Hinside]; [exact Hout | ].
    exfalso. apply (Hafter j Hj). apply occurs_at_take; [exact Hb | ].
    split; [exact Hocc | lia].
Qed.

End Search.

Example search_runs :
  stringutil.indexOf [1; 2; 3; 1; 2; 3] [2; 3] 2 = 4 /\
  stringutil.indexOf [1; 2; 3] [] 3 = -1 /\
  stringutil.indexOf [] [] 0 = -1 /\
  stringutil.runesIndexOf [1; 2; 3; 1; 2; 3] [3; 1] (-5) = 2 /\
  stringutil.runesIndex [] [] = 0 /\
  stringutil.lastIndexOf [1; 2; 3; 1; 2; 3] [2; 3] 4 = Ok 1 /\
  stringutil.lastIndexOf [1; 2; 3; 1; 2; 3] [2; 3] 5 = Ok 4 /\
  stringutil.lastIndexOf [0x61; 0xE2; 0x82; 0xAC; 0x62] [0x82; 0xAC] 1 = Ok 2.
Proof. vm_compute. repeat split. Qed.

(** * Properties of the pkt-line scanner *)
Section PktScan.
Import pktline.
Variable OversizePayloadMax : Z.

Lemma hexval_range (b : Z) : 0 <= hexval b <= 255.
Proof.
  unfold hexval.
  assert (Hb : 0 <= byte b < 256) by (unfold byte; apply Z.mod_pos_bound; lia).
  revert Hb. generalize (byte b). clear b. intros b Hb.
  pose proof (forall_bytes
                (fun b => (0 <=? nth (Z.to_nat b) reverseHexTable 0)
                          && (nth (Z.to_nat b) reverseHexTable 0 <=? 255))
                ltac:(vm_compute; reflexivity) b Hb) as Hok.
  cbv beta in Hok. apply andb_true_iff in Hok. destruct Hok as [H1 H2].
  apply Z.leb_le in H1, H2. lia.
Qed.

Lemma hexDecode_bound (l : list Z) (n : Z) :
  hexDecode l = (n, None) -> 0 <= n <= 65535.
Proof.
  unfold hexDecode. cbv zeta.
  pose proof (hexval_range (nth 0 l 0)) as Ha.
  pose proof (hexval_range (nth 1 l 0)) as Hb.
  pose proof (hexval_range (nth 2 l 0)) as Hc.
  pose proof (hexval_range (nth 3 l 0)) as Hd.
  destruct (hexval (nth 0 l 0) >? 15) eqn:Ea; [discriminate | ].
  destruct (hexval (nth 1 l 0) >? 15) eqn:Eb; [discriminate | ].
  destruct (hexval (nth 2 l 0) >? 15) eqn:Ec; [discriminate | ].
  destruct (hexval (nth 3 l 0) >? 15) eqn:Ed; [discriminate | ].
  cbn [orb]. intros Hn. injection Hn as <-.
  rewrite Z.gtb_ltb in Ea, Eb, Ec, Ed.
  apply Z.ltb_ge in Ea, Eb, Ec, Ed.
  rewrite pack_nibbles by lia. lia.
Qed.

(** The payload length [readPayloadLen] hands to [Scan] is within the
    limit, whatever the reader delivers. *)
Lemma readPayloadLen_bound (s : Scanner) (l : Z) :
  snd (readPayloadLen OversizePayloadMax s) = (l, None) ->
  0 <= l <= Z.max 0 OversizePayloadMax /\ l <= 65531.
Proof.
  unfold readPayloadLen.
  destruct (ReadFull (r s) (Z.to_nat lenSize)) as [[got r'] e].
  destruct e as [e | ].
  { destruct e; cbn [snd]; intros Hl; discriminate Hl. }
  destruct (hexDecode _) as [n oe] eqn:Hdec.
  destruct oe as [e | ]; [cbn [snd]; intros Hl; discriminate Hl | ].
  apply hexDecode_bound in Hdec. change lenSize with 4.
  destruct (Z.eqb_spec n 0); [cbn [snd]; intros Hl; injection Hl as <-; lia | ].
  destruct (Z.leb_spec n 4); [cbn [snd]; intros Hl; discriminate Hl | ].
  destruct (Z.gtb_spec n (OversizePayloadMax + 4));
    cbn [snd]; intros Hl; [discriminate Hl | ].
  injection Hl as <-. lia.
Qed.

Lemma hex_digit_char (d : Z) :
  0 <= d < 16 -> hex_digit (hex_char d) = Some d /\ 0 <= hex_char d < 256.
Proof.
  intros Hd. unfold hex_digit, hex_char.
  destruct (Z.ltb_spec d 10).
  - replace ((48 <=? 48 + d) && (48 + d <=? 57)) with true by (symmetry; lia).
    split; [f_equal; lia | lia].
  - replace ((48 <=? 97 + (d - 10)) && (97 + (d - 10) <=? 57))
      with false by (symmetry; lia).
    replace ((65 <=? 97 + (d - 10)) && (97 + (d - 10) <=? 70))
      with false by (symmetry; lia).
    replace ((97 <=? 97 + (d - 10)) && (97 + (d - 10) <=? 102))
      with true by (symmetry; lia).
    split; [f_equal; lia | lia].
Qed.

Lemma hexDecode_pkt_len_tail (n : Z) (tl : list Z) :
  0 <= n < 65536 -> hexDecode (pkt_len n ++ tl) = (n, None).
Proof.
  intros Hn. unfold pkt_len. cbn [app].
  assert (H0 : 0 <= n / 4096 < 16) by (Z.div_mod_to_equations; lia).
  assert (H1 : 0 <= (n / 256) mod 16 < 16) by (Z.div_mod_to_equations; lia).
  assert (H2 : 0 <= (n / 16) mod 16 < 16) by (Z.div_mod_to_equations; lia).
  assert (H3 : 0 <= n mod 16 < 16) by (Z.div_mod_to_equations; lia).
  destruct (hex_digit_char _ H0) as [E0 B0].
  destruct (hex_digit_char _ H1) as [E1 B1].
  destruct (hex_digit_char _ H2) as [E2 B2].
  destruct (hex_digit_char _ H3) as [E3 B3].
  rewrite hexDecode_digits by assumption. rewrite E0, E1, E2, E3.
  f_equal. Z.div_mod_to_equations; lia.
Qed.

(** X9. [hexDecode] reads back the four lower-case hexadecimal digits of
    any length below 65536, whatever follows them. *)
Theorem hexDecode_pkt_len (n : Z) (tl : list Z) :
  0 <= n < 65536 -> hexDecode (pkt_len n ++ tl) = (n, None).
Proof. exact (hexDecode_pkt_len_tail n tl). Qed.

Lemma ReadFull_exact (rd : Reader) (p rest : list Z) :
  pending rd = p ++ rest ->
  ReadFull rd (length p) = (p, {| pending := rest; at_end := at_end rd |}, None).
Proof.
  intros Hp. unfold ReadFull. rewrite Hp.
  rewrite take_app_length, drop_app_length, Nat.eqb_refl. reflexivity.
Qed.

(** The header [pkt_len n] in front of the reader. *)
Lemma readPayloadLen_pkt_len (s : Scanner) (n : Z) (rest : list Z) :
  0 <= n < 65536 ->
  pending (r s) = pkt_len n ++ rest ->
  readPayloadLen OversizePayloadMax s =
  ({| r := {| pending := rest; at_end := at_end (r s) |}; err := err s;
      payload := payload s; len := pkt_len n ++ drop 4 (len s) |},
   if n =? 0 then (0, None)
   else if n <=? 4 then (0, Some ErrInvalidPktLen)
   else if n >? OversizePayloadMax + 4 then (0, Some ErrInvalidPktLen)
   else (n - 4, None)).
Proof.
  intros Hn Hp. unfold readPayloadLen.
  change (Z.to_nat lenSize) with (length (pkt_len n)).
  rewrite (ReadFull_exact (r s) (pkt_len n) rest Hp).
  cbn [len]. rewrite hexDecode_pkt_len_tail by exact Hn.
  change lenSize with 4. change (length (pkt_len n)) with 4%nat.
  destruct (n =? 0); [reflexivity | ].
  destruct (n <=? 4); [reflexivity | ].
  destruct (n >? OversizePayloadMax + 4); reflexivity.
Qed.

Lemma Scan_pkt_line_run (s : Scanner) (spare p rest : list Z) :
  Z.of_nat (length p) <= OversizePayloadMax ->
  Z.of_nat (length p) + 4 < 65536 ->
  pending (r s) = pkt_line p ++ rest ->
  exists s' spare',
    Scan OversizePayloadMax (s, spare) = (s', spare', true) /\
    Bytes s' = p /\ Err s' = None /\
    r s' = {| pending := rest; at_end := at_end (r s) |}.
Proof.
  intros Hmax Hlen Hp. unfold Scan.
  destruct p as [ | b p].
  - cbn [pkt_line] in Hp.
    rewrite (readPayloadLen_pkt_len s 0 rest) by (lia || exact Hp).
    cbn [Z.eqb]. change (Z.to_nat 0) with 0%nat.
    rewrite (proj2 (Z.ltb_ge _ 0)) by lia.
    cbn [r]. change 0%nat with (length (@nil Z)) at 1.
    rewrite (ReadFull_exact _ [] rest) by reflexivity.
    cbn [length app]. rewrite drop_0, take_0.
    do 2 eexists. repeat split.
  - cbn [pkt_line] in Hp. set (q := b :: p) in *.
    assert (Hq : 1 <= Z.of_nat (length q)) by (unfold q; cbn [length]; lia).
    rewrite <- app_assoc in Hp.
    rewrite (readPayloadLen_pkt_len s (Z.of_nat (length q) + 4) (q ++ rest))
      by (lia || exact Hp).
    rewrite (proj2 (Z.eqb_neq _ 0)) by lia.
    rewrite (proj2 (Z.leb_gt _ 4)) by lia.
    rewrite Z.gtb_ltb, (proj2 (Z.ltb_ge _ _)) by lia.
    replace (Z.of_nat (length q) + 4 - 4) with (Z.of_nat (length q)) by lia.
    rewrite Nat2Z.id. cbn [r payload len].
    rewrite (ReadFull_exact _ q rest) by reflexivity.
    destruct (Z.of_nat (length (payload s) + length spare) <? Z.of_nat (length q));
      rewrite take_app_length; do 2 eexists; repeat split.
Qed.

(** X10. With a well-formed pkt-line in front of the reader (a flush-pkt,
    or a payload within [OversizePayloadMax]), [Scan] returns true, [Bytes]
    is the payload, [Err] is nil, and the reader is left at the byte after
    the line. *)
Theorem Scan_pkt_line (s : Scanner) (spare p rest : list Z) :
  Z.of_nat (length p) <= OversizePayloadMax ->
  Z.of_nat (length p) + 4 < 65536 ->
  pending (r s) = pkt_line p ++ rest ->
  exists s' spare',
    Scan OversizePayloadMax (s, spare) = (s', spare', true) /\
    Bytes s' = p /\ Err s' = None /\
    r s' = {| pending := rest; at_end := at_end (r s) |}.
Proof. exact (Scan_pkt_line_run s spare p rest). Qed.

Lemma ReadFull_short (rd : Reader) (n : nat) :
  (length (pending rd) < n)%nat ->
  ReadFull rd n =
  (pending rd, {| pending := []; at_end := at_end rd |},
   Some match at_end rd, pending rd with
        | EOF, _ :: _ => ErrUnexpectedEOF
        | e, _ => e
        end).
Proof.
  intros Hlt. unfold ReadFull.
  rewrite take_ge, drop_ge by lia.
  rewrite (proj2 (Nat.eqb_neq _ _)) by lia.
  destruct (at_end rd), (pending rd); reflexivity.
Qed.

Lemma ReadFull_full (rd : Reader) (n : nat) (got : list Z) (rd' : Reader) :
  ReadFull rd n = (got, rd', None) -> length got = n.
Proof.
  unfold ReadFull.
  destruct (Nat.eqb_spec (length (take n (pending rd))) n) as [Heq | Hne].
  - intros H. injection H as <- _. exact Heq.
  - destruct (at_end rd), (take n (pending rd)); discriminate.
Qed.

(** X11. Whatever the reader delivers, when [Scan] returns true [Err] is
    nil and [Bytes] holds at most [OversizePayloadMax] bytes (and at most
    65531, the most four digits can announce). *)
Theorem Scan_true_bounded (st st' : Scanner * list Z) :
  Scan OversizePayloadMax st = (st', true) ->
  Err (fst st') = None /\
  Z.of_nat (length (Bytes (fst st'))) <= Z.max 0 OversizePayloadMax /\
  Z.of_nat (length (Bytes (fst st'))) <= 65531.
Proof.
  destruct st as [s0 spare]. unfold Scan.
  pose proof (readPayloadLen_bound s0) as Hbound.
  destruct (readPayloadLen OversizePayloadMax s0) as [s1 [l e]].
  cbn [snd] in Hbound.
  destruct e as [e | ]; [destruct e; intros H; discriminate H | ].
  specialize (Hbound l eq_refl).
  destruct (if Z.of_nat (length (payload s1) + length spare) <? l
            then ([], repeat 0 (Z.to_nat l))
            else (payload s1, payload s1 ++ spare)) as [old array].
  destruct (ReadFull (r s1) (Z.to_nat l)) as [[got r'] e2] eqn:Hread.
  destruct e2 as [e | ]; [intros H; discriminate H | ].
  apply ReadFull_full in Hread.
  intros H. injection H as <-. cbn [fst Err Bytes err payload].
  split; [reflexivity | ].
  assert (Htake : take (Z.to_nat l) (got ++ drop (length got) array) = got)
    by (rewrite <- Hread; apply take_app_length).
  rewrite Htake, Hread. lia.
Qed.

Lemma Scan_end_run (s : Scanner) (spare : list Z) :
  (length (pending (r s)) < 4)%nat -> at_end (r s) = EOF ->
  exists s',
    Scan OversizePayloadMax (s, spare) = (s', spare, false) /\
    Bytes s' = Bytes s /\
    Err s' = match pending (r s) with
             | [] => None
             | _ :: _ => Some ErrInvalidPktLen
             end /\
    pending (r s') = [].
Proof.
  intros Hshort Hend. unfold Scan, readPayloadLen.
  change (Z.to_nat lenSize) with 4%nat.
  rewrite ReadFull_short by exact Hshort. rewrite Hend.
  destruct (pending (r s)); eexists; repeat split.
Qed.

(** X12. At the end of the stream [Scan] returns false and leaves [Bytes]
    as it was: with [Err] nil when the stream ends between pkt-lines, and
    with [ErrInvalidPktLen] when it ends inside a header. *)
Theorem Scan_end_of_stream (s : Scanner) (spare : list Z) :
  (length (pending (r s)) < 4)%nat -> at_end (r s) = EOF ->
  exists s',
    Scan OversizePayloadMax (s, spare) = (s', spare, false) /\
    Bytes s' = Bytes s /\
    Err s' = match pending (r s) with
             | [] => None
             | _ :: _ => Some ErrInvalidPktLen
             end.
Proof.
  intros Hshort Hend.
  destruct (Scan_end_run s spare Hshort Hend) as (s' & Hrun & Hb & He & _).
  exists s'. repeat split; assumption.
Qed.

Lemma scan_all_step (todo : nat) (st : Scanner * list Z) :
  scan_all OversizePayloadMax (S todo) st =
  let '(st', more) := Scan OversizePayloadMax st in
  if more then
    let '(ps, final) := scan_all OversizePayloadMax todo st' in
    (Bytes (fst st') :: ps, final)
  else ([], st').
Proof. reflexivity. Qed.

(** X14. Scanning a stream made of well-formed pkt-lines and nothing else
    gives their payloads, in order (an empty payload for a flush-pkt);
    the call after the last line returns false with [Err] nil, the reader
    being exhausted. *)
Theorem scan_all_stream (ps : list (list Z)) (s : Scanner) (spare : list Z) :
  Forall (fun p => Z.of_nat (length p) <= OversizePayloadMax /\
                   Z.of_nat (length p) + 4 < 65536) ps ->
  pending (r s) = concat (map pkt_line ps) -> at_end (r s) = EOF ->
  exists final,
    scan_all OversizePayloadMax (S (length ps)) (s, spare) = (ps, final) /\
    Err (fst final) = None /\ pending (r (fst final)) = [].
Proof.
  intros Hps. revert s spare.
  induction Hps as [ | p ps [Hmax Hfit] Hps IH]; intros s spare Hp Hend.
  - cbn [map concat] in Hp. cbn [length scan_all].
    destruct (Scan_end_run s spare) as (s' & -> & _ & He & Hr);
      [rewrite Hp; cbn; lia | exact Hend | ].
    rewrite Hp in He. exists (s', spare). repeat split; assumption.
  - cbn [map concat] in Hp. rewrite scan_all_step.
    destruct (Scan_pkt_line_run s spare p _ Hmax Hfit Hp)
      as (s' & spare' & -> & Hb & He & Hr).
    destruct (IH s' spare') as (final & Hrun & Hfe & Hfr).
    { rewrite Hr. reflexivity. }
    { rewrite Hr. exact Hend. }
    change (length (p :: ps)) with (S (length ps)).
    rewrite Hrun. cbn [fst]. rewrite Hb.
    exists final. repeat split; assumption.
Qed.

(** X13. When the stream ends inside a payload [Scan] returns false with a
    non-nil [Err]: [io.ErrUnexpectedEOF] after a part of the payload, and
    [io.EOF] itself when the stream ends right after the header. *)
Theorem Scan_short_payload (s : Scanner) (spare part : list Z) (size : Z) :
  1 <= size <= OversizePayloadMax -> size + 4 < 65536 ->
  Z.of_nat (length part) < size ->
  pending (r s) = pkt_len (size + 4) ++ part -> at_end (r s) = EOF ->
  exists st',
    Scan OversizePayloadMax (s, spare) = (st', false) /\
    Err (fst st') = Some match part with
                         | [] => EOF
                         | _ :: _ => ErrUnexpectedEOF
                         end.
Proof.
  intros Hsize Hfit Hpart Hp Hend. unfold Scan.
  rewrite (readPayloadLen_pkt_len s (size + 4) part) by (lia || exact Hp).
  rewrite (proj2 (Z.eqb_neq _ 0)) by lia.
  rewrite (proj2 (Z.leb_gt _ 4)) by lia.
  rewrite Z.gtb_ltb, (proj2 (Z.ltb_ge _ _)) by lia.
  replace (size + 4 - 4) with size by lia. cbn [r payload len].
  rewrite ReadFull_short by (cbn [pending]; lia).
  cbn [pending at_end]. rewrite Hend.
  destruct (Z.of_nat (length (payload s) + length spare) <? size);
    destruct part; eexists; split; reflexivity.
Qed.

End PktScan.

Lemma Scan_true_bounded_witness :
  exists st',
    pktline.Scan 65520
      (pktline.NewScanner
         {| pktline.pending := pkt_line [0x68; 0x69]; pktline.at_end := pktline.EOF |},
       []) = (st', true) /\
    pktline.Err (fst st') = None /\
    Z.of_nat (length (pktline.Bytes (fst st'))) <= Z.max 0 65520 /\
    Z.of_nat (length (pktline.Bytes (fst st'))) <= 65531.
Proof.
  eexists. split; [vm_compute; reflexivity | ].
  apply (Scan_true_bounded 65520
           (pktline.NewScanner
              {| pktline.pending := pkt_line [0x68; 0x69];
                 pktline.at_end := pktline.EOF |}, [])).
  vm_compute. reflexivity.
Defined.

Lemma scan_all_stream_witness :
  exists final,
    scan_all 65520 3
      (pktline.NewScanner
         {| pktline.pending := concat (map pkt_line [[0x68; 0x69]; []]);
            pktline.at_end := pktline.EOF |}, [])
    = ([[0x68; 0x69]; []], final) /\
    pktline.Err (fst final) = None /\
    pktline.pending (pktline.r (fst final)) = [].
Proof.
  apply (scan_all_stream 65520 [[0x68; 0x69]; []]
           (pktline.NewScanner
              {| pktline.pending := concat (map pkt_line [[0x68; 0x69]; []]);
                 pktline.at_end := pktline.EOF |}) []);
    [ | reflexivity | reflexivity].
  repeat constructor; cbn; lia.
Defined.

Lemma Scan_end_of_stream_witness :
  exists s',
    pktline.Scan 65520
      (pktline.NewScanner
         {| pktline.pending := [0x30; 0x30]; pktline.at_end := pktline.EOF |},
       []) = (s', [], false) /\
    pktline.Bytes s' = [] /\ pktline.Err s' = Some pktline.ErrInvalidPktLen.
Proof.
  apply (Scan_end_of_stream 65520
           (pktline.NewScanner
              {| pktline.pending := [0x30; 0x30];
                 pktline.at_end := pktline.EOF |}) []);
    [cbn; lia | reflexivity].
Defined.

Lemma Scan_short_payload_witness :
  exists st',
    pktline.Scan 65520
      (pktline.NewScanner
         {| pktline.pending := pkt_len (2 + 4) ++ [];
            pktline.at_end := pktline.EOF |}, []) = (st', false) /\
    pktline.Err (fst st') = Some pktline.EOF.
Proof.
  apply (Scan_short_payload 65520
           (pktline.NewScanner
              {| pktline.pending := pkt_len (2 + 4) ++ [];
                 pktline.at_end := pktline.EOF |}) [] [] 2);
    [lia | lia | cbn; lia | reflexivity | reflexivity].
Defined.

Lemma Scan_pkt_line_witness :
  exists s' spare',
    pktline.Scan 65520
      (pktline.NewScanner
         {| pktline.pending := pkt_line [0x68; 0x69] ++ [0x30];
            pktline.at_end := pktline.EOF |}, [])
    = (s', spare', true) /\
    pktline.Bytes s' = [0x68; 0x69] /\ pktline.Err s' = None /\
    pktline.r s' = {| pktline.pending := [0x30];
                      pktline.at_end := pktline.EOF |}.
Proof.
  apply (Scan_pkt_line 65520
           (pktline.NewScanner
              {| pktline.pending := pkt_line [0x68; 0x69] ++ [0x30];
                 pktline.at_end := pktline.EOF |})
           [] [0x68; 0x69] [0x30]);
    [cbn; lia | cbn; lia | reflexivity].
Defined.

Lemma hexDecode_pkt_len_witness :
  pktline.hexDecode (pkt_len 0xbeef ++ []) = (0xbeef, None).
Proof. apply (hexDecode_pkt_len 0xbeef []). lia. Defined.

(** * The order [Less] gives to [sort.Sort] *)
Section LessOrder.
Context `{object.Decls}.
Import object.


Lemma compare_refl (p : string) : String.compare p p = Eq.
Proof.
  destruct (String.compare p p) eqn:Hc; [reflexivity | | ];
    pose proof (String.compare_antisym p p) as Ha; rewrite Hc in Ha;
    discriminate Ha.
Qed.



End LessOrder.


(** * Properties of the path matcher *)
Section Matching.
Context `{zeta.Env}.
Import zeta.

Lemma underPrefix_at_or_under (name p : list ascii) :
  caseInsensitive = false ->
  underPrefix name p = true <-> at_or_under p name.
Proof.
  intros Hcase. unfold underPrefix, systemCaseEqual, at_or_under.
  rewrite Hcase. cbv zeta.
  rewrite !andb_true_iff, orb_true_iff, Nat.leb_le, bool_decide_eq_true,
    Nat.eqb_eq.
  split.
  - intros [[Hlen Htake] Hend].
    pose proof (take_drop (length p) name) as Hsplit. rewrite Htake in Hsplit.
    destruct Hend as [Heq | Hslash].
    + left. rewrite <- Hsplit, drop_ge by lia. apply app_nil_r.
    + right. destruct (name !! length p) as [c | ] eqn:Hc; [ | discriminate].
      apply bool_decide_eq_true in Hslash. subst c.
      exists (drop (S (length p)) name).
      rewrite <- Hsplit at 1. f_equal. apply drop_S. exact Hc.
  - intros [-> | [rest ->]].
    + split; [split; [lia | apply take_ge; lia] | left; reflexivity].
    + split; [split | right].
      * rewrite length_app. lia.
      * apply take_app_length.
      * rewrite list_lookup_middle by reflexivity.
        apply bool_decide_eq_true. reflexivity.
Qed.

Lemma Match_prefixes_some (ps : list (list ascii)) (name : list ascii) :
  Match_prefixes ps name = true <->
  exists p, In p ps /\ underPrefix name p = true.
Proof.
  induction ps as [ | p ps IH]; cbn [Match_prefixes In].
  - split; [discriminate | intros [p [[] _]]].
  - destruct (underPrefix name p) eqn:Hp.
    + split; [intros _; exists p; split; [left; reflexivity | exact Hp] | reflexivity].
    + rewrite IH. split.
      * intros [q [Hq Hu]]. exists q. split; [right; exact Hq | exact Hu].
      * intros [q [[<- | Hq] Hu]]; [rewrite Hp in Hu; discriminate Hu | ].
        exists q. split; assumption.
Qed.

Lemma Match_wildmatchs_some (ws : list Wildmatch) (name : list ascii) :
  Match_wildmatchs ws name = true <->
  exists w, In w ws /\ Wildmatch_Match w name = true.
Proof.
  induction ws as [ | w ws IH]; cbn [Match_wildmatchs In].
  - split; [discriminate | intros [w [[] _]]].
  - destruct (Wildmatch_Match w name) eqn:Hw.
    + split; [intros _; exists w; split; [left; reflexivity | exact Hw] | reflexivity].
    + rewrite IH. split.
      * intros [q [Hq Hu]]. exists q. split; [right; exact Hq | exact Hu].
      * intros [q [[<- | Hq] Hu]]; [rewrite Hw in Hu; discriminate Hu | ].
        exists q. split; assumption.
Qed.

Lemma Match_cases (m : Matcher) (name : list ascii) :
  caseInsensitive = false ->
  Match m name = true <->
  (prefix m = [] /\ wildmatchs m = []) \/
  (exists p, In p (prefix m) /\ at_or_under p name) \/
  (exists w, In w (wildmatchs m) /\ Wildmatch_Match w name = true).
Proof.
  intros Hcase. unfold Match.
  assert (Hpre : Match_prefixes (prefix m) name = true <->
                 exists p, In p (prefix m) /\ at_or_under p name).
  { rewrite Match_prefixes_some. split; intros [p [Hin Hp]]; exists p;
      (split; [exact Hin | ]); apply (underPrefix_at_or_under name p Hcase);
      exact Hp. }
  destruct (wildmatchs m) as [ | w ws] eqn:Hw;
    destruct (prefix m) as [ | p ps] eqn:Hp; cbn [length Nat.eqb andb].
  - split; [intros _; left; split; reflexivity | reflexivity].
  - destruct (Match_prefixes (p :: ps) name).
    + split; [intros _; right; left; apply Hpre; reflexivity | reflexivity].
    + cbn [Match_wildmatchs]. split; [discriminate | ].
      intros [[Hnil _] | [Hex | [w [[] _]]]]; [discriminate Hnil | ].
      apply Hpre. exact Hex.
  - cbn [Match_prefixes].
    rewrite <- (Match_wildmatchs_some (w :: ws) name).
    destruct (Match_wildmatchs (w :: ws) name).
    + split; [intros _; right; right; reflexivity | reflexivity].
    + split; [discriminate | ].
      intros [[_ Hnil] | [[q [[] _]] | Hex]]; [discriminate Hnil | exact Hex].
  - rewrite <- (Match_wildmatchs_some (w :: ws) name).
    destruct (Match_prefixes (p :: ps) name).
    + split; [intros _; right; left; apply Hpre; reflexivity | reflexivity].
    + destruct (Match_wildmatchs (w :: ws) name).
      * split; [intros _; right; right; reflexivity | reflexivity].
      * split; [discriminate | ].
        intros [[Hnil _] | [Hex | Hex]];
          [discriminate Hnil | apply Hpre; exact Hex | exact Hex].
Qed.

(** X16. On a case-sensitive system, [Match] accepts a name exactly when
    the matcher is empty, or the name is one of its prefixes or lies under
    one of them as a directory (so the prefix [a] accepts [a] and [a/b],
    not [ab]), or one of its wildmatches accepts it. *)
Theorem Match_accepts (m : Matcher) (name : list ascii) :
  caseInsensitive = false ->
  Match m name = true <->
  (prefix m = [] /\ wildmatchs m = []) \/
  (exists p, In p (prefix m) /\ at_or_under p name) \/
  (exists w, In w (wildmatchs m) /\ Wildmatch_Match w name = true).
Proof. exact (Match_cases m name). Qed.

Definition plain_pattern (pat : list ascii) : bool :=
  negb (length pat =? 0)%nat && negb (containsEscape pat).

Definition wild_pattern (pat : list ascii) : bool :=
  negb (length pat =? 0)%nat && containsEscape pat.

Lemma NewMatcher_fold (patterns : list (list ascii)) (m : Matcher) :
  fold_left NewMatcher_step patterns m =
  {| prefix :=
       prefix m
       ++ map (fun pat => strings.TrimSuffix pat ["/"%char])
              (List.filter plain_pattern patterns);
     wildmatchs :=
       wildmatchs m ++ map NewWildmatch (List.filter wild_pattern patterns) |}.
Proof.
  revert m. induction patterns as [ | pat patterns IH]; intros m.
  - cbn. rewrite !app_nil_r. destruct m; reflexivity.
  - cbn [fold_left List.filter]. rewrite IH.
    unfold NewMatcher_step, plain_pattern, wild_pattern.
    destruct (length pat =? 0)%nat; cbn [negb andb]; [reflexivity | ].
    destruct (containsEscape pat); cbn [negb prefix wildmatchs map];
      rewrite <- app_assoc; reflexivity.
Qed.

(** X17. On a case-sensitive system, the matcher [NewMatcher] builds
    accepts a name exactly when every pattern is empty, or some non-empty
    pattern selects it: a pattern without escape characters when the name
    is the pattern less its final slash or lies under it, a pattern with
    escape characters when its wildmatch accepts the name. *)
Theorem NewMatcher_Match (patterns : list (list ascii)) (name : list ascii) :
  caseInsensitive = false ->
  Match (NewMatcher patterns) name = true <->
  (forall pat, In pat patterns -> pat = []) \/
  (exists pat, In pat patterns /\ pat <> [] /\
     if containsEscape pat
     then Wildmatch_Match (NewWildmatch pat) name = true
     else at_or_under (strings.TrimSuffix pat ["/"%char]) name).
Proof.
  intros Hcase. rewrite (Match_cases _ name Hcase).
  unfold NewMatcher. rewrite NewMatcher_fold. cbn [prefix wildmatchs app].
  assert (Hlen : forall pat : list ascii,
            (length pat =? 0)%nat = true <-> pat = []).
  { intros pat. rewrite Nat.eqb_eq. destruct pat; cbn; split; (reflexivity || discriminate || lia). }
  split.
  - intros [[Hp Hw] | [[p [Hin Hu]] | [w [Hin Hm]]]].
    + left. intros pat Hin.
      destruct (length pat =? 0)%nat eqn:Hl; [apply Hlen; exact Hl | ].
      exfalso. destruct (containsEscape pat) eqn:He.
      * assert (Hf : In pat (List.filter wild_pattern patterns)).
        { apply List.filter_In. split; [exact Hin | ].
          unfold wild_pattern. rewrite Hl, He. reflexivity. }
        destruct (List.filter wild_pattern patterns); [destruct Hf | discriminate Hw].
      * assert (Hf : In pat (List.filter plain_pattern patterns)).
        { apply List.filter_In. split; [exact Hin | ].
          unfold plain_pattern. rewrite Hl, He. reflexivity. }
        destruct (List.filter plain_pattern patterns); [destruct Hf | discriminate Hp].
    + right. apply List.in_map_iff in Hin. destruct Hin as [pat [<- Hin]].
      apply List.filter_In in Hin. destruct Hin as [Hin Hplain].
      unfold plain_pattern in Hplain. apply andb_true_iff in Hplain.
      destruct Hplain as [Hne Hesc]. apply negb_true_iff in Hne, Hesc.
      exists pat. split; [exact Hin | ]. split.
      * intros Hnil. apply Hlen in Hnil. congruence.
      * rewrite Hesc. exact Hu.
    + right. apply List.in_map_iff in Hin. destruct Hin as [pat [<- Hin]].
      apply List.filter_In in Hin. destruct Hin as [Hin Hwild].
      unfold wild_pattern in Hwild. apply andb_true_iff in Hwild.
      destruct Hwild as [Hne Hesc]. apply negb_true_iff in Hne.
      exists pat. split; [exact Hin | ]. split.
      * intros Hnil. apply Hlen in Hnil. congruence.
      * rewrite Hesc. exact Hm.
  - intros [Hall | [pat [Hin [Hne Hsel]]]].
    + left. split.
      * destruct (List.filter plain_pattern patterns) as [ | q qs] eqn:Hf;
          [reflexivity | ].
        assert (Hq : In q (List.filter plain_pattern patterns))
          by (rewrite Hf; left; reflexivity).
        apply List.filter_In in Hq. destruct Hq as [Hq Hplain].
        rewrite (Hall q Hq) in Hplain. discriminate Hplain.
      * destruct (List.filter wild_pattern patterns) as [ | q qs] eqn:Hf;
          [reflexivity | ].
        assert (Hq : In q (List.filter wild_pattern patterns))
          by (rewrite Hf; left; reflexivity).
        apply List.filter_In in Hq. destruct Hq as [Hq Hwild].
        rewrite (Hall q Hq) in Hwild. discriminate Hwild.
    + right.
      assert (Hl : (length pat =? 0)%nat = false).
      { destruct (length pat =? 0)%nat eqn:Hl; [ | reflexivity].
        apply Hlen in Hl. contradiction. }
      destruct (containsEscape pat) eqn:He.
      * right. exists (NewWildmatch pat). split; [ | exact Hsel].
        apply List.in_map. apply List.filter_In. split; [exact Hin | ].
        unfold wild_pattern. rewrite Hl, He. reflexivity.
      * left. exists (strings.TrimSuffix pat ["/"%char]). split; [ | exact Hsel].
        apply (List.in_map (fun pat => strings.TrimSuffix pat ["/"%char])).
        apply List.filter_In. split; [exact Hin | ].
        unfold plain_pattern. rewrite Hl, He. reflexivity.
Qed.

(** X18. With [dotDot] set to "..", [hasDotDot] never reads past the end
    of the name, and it holds exactly for ".." and for the names that
    start with "../". *)
Theorem hasDotDot_parent (name : list ascii) :
  dotDot = list_ascii_of_string ".." ->
  exists b, hasDotDot name = Ok b /\
            (b = true <-> at_or_under (list_ascii_of_string "..") name).
Proof.
  intros Hdd. unfold hasDotDot, at_or_under. rewrite Hdd.
  cbn [list_ascii_of_string].
  destruct (bool_decide_reflect (name = ["."; "."]%char)) as [-> | Hne].
  { exists true. split; [reflexivity | ]. split; [left; reflexivity | reflexivity]. }
  destruct (strings.HasPrefix name ["."; "."]%char) eqn:Hp.
  - apply HasPrefix_take in Hp. cbn [length] in Hp. destruct Hp as [Hlen Hp].
    pose proof (take_drop 2 name) as Hsplit. rewrite Hp in Hsplit.
    destruct (name !! 2%nat) as [c | ] eqn:Hc.
    + exists (bool_decide (c = "/"%char)). split; [reflexivity | ].
      rewrite bool_decide_eq_true. split.
      * intros ->. right. exists (drop 3 name).
        rewrite <- Hsplit at 1. f_equal. apply drop_S. exact Hc.
      * intros [Heq | [rest Heq]]; [contradiction | ].
        rewrite Heq in Hc. cbn in Hc. congruence.
    + apply lookup_ge_None in Hc.
      exfalso. apply Hne. rewrite <- Hsplit, drop_ge by lia. reflexivity.
  - exists false. split; [reflexivity | ]. split; [discriminate | ].
    intros [Heq | [rest Heq]]; [contradiction | ].
    rewrite Heq in Hp. cbn in Hp.
    rewrite !bool_decide_eq_true_2 in Hp by reflexivity.
    destruct rest; discriminate Hp.
Qed.

End Matching.

Lemma Match_accepts_witness :
  zeta.Match
    {| zeta.prefix := [list_ascii_of_string "a"]; zeta.wildmatchs := [] |}
    (list_ascii_of_string "a/b") = true.
Proof.
  apply (@Match_accepts sample_env.env
           {| zeta.prefix := [list_ascii_of_string "a"];
              zeta.wildmatchs := [] |}
           (list_ascii_of_string "a/b") eq_refl).
  right. left. exists (list_ascii_of_string "a").
  split; [left; reflexivity | ]. right. exists (list_ascii_of_string "b").
  reflexivity.
Defined.

Lemma NewMatcher_Match_witness :
  zeta.Match
    (zeta.NewMatcher [[]; list_ascii_of_string "src/"; list_ascii_of_string "doc*"])
    (list_ascii_of_string "src/main.go") = true.
Proof.
  apply (@NewMatcher_Match sample_env.env
           [[]; list_ascii_of_string "src/"; list_ascii_of_string "doc*"]
           (list_ascii_of_string "src/main.go") eq_refl).
  right. exists (list_ascii_of_string "src/").
  split; [right; left; reflexivity | ]. split; [discriminate | ].
  right. exists (list_ascii_of_string "main.go"). reflexivity.
Defined.

Lemma hasDotDot_parent_witness :
  exists b, zeta.hasDotDot (list_ascii_of_string "../x") = Ok b /\
            (b = true <->
             at_or_under (list_ascii_of_string "..") (list_ascii_of_string "../x")).
Proof.
  apply (@hasDotDot_parent sample_env.env (list_ascii_of_string "../x") eq_refl).
Defined.

Example matcher_runs :
  let m := zeta.NewMatcher [list_ascii_of_string "a"; list_ascii_of_string "doc*"] in
  zeta.Match m (list_ascii_of_string "a") = true /\
  zeta.Match m (list_ascii_of_string "a/b") = true /\
  zeta.Match m (list_ascii_of_string "ab") = false /\
  zeta.Match m (list_ascii_of_string "docs/x") = true /\
  zeta.Match (zeta.NewMatcher [[]; []]) (list_ascii_of_string "anything") = true /\
  zeta.hasDotDot (list_ascii_of_string "..") = Ok true /\
  zeta.hasDotDot (list_ascii_of_string "..a") = Ok false /\
  zeta.hasDotDot (list_ascii_of_string ".") = Ok false.
Proof. vm_compute. repeat split. Qed.

(** * Properties of the id parsers *)
Section Ids.
Import strengthen.

Lemma code_digit_char (d : Z) : is_digit d -> strconv.code (digit_char d) = 0x30 + d.
Proof.
  unfold is_digit. intros Hd. unfold strconv.code, digit_char.
  rewrite N_ascii_embedding by lia. lia.
Qed.

Lemma fold_decimal_ge (ds : list Z) (n : Z) :
  Forall is_digit ds -> 0 <= n -> n <= fold_left (fun n d => 10 * n + d) ds n.
Proof.
  intros Hds. revert n.
  induction Hds as [ | d ds Hd Hds IH]; intros n Hn; cbn [fold_left]; [lia | ].
  unfold is_digit in Hd. specialize (IH (10 * n + d)). lia.
Qed.

(** The loop of [ParseUint] on decimal digits: the number they write after
    [n], or the range error once it passes 64 bits. *)
Lemma ParseUint_loop_numeral (ds : list Z) (n : Z) :
  Forall is_digit ds -> 0 <= n < 2 ^ 64 ->
  strconv.ParseUint_loop (numeral ds) n =
  let v := fold_left (fun n d => 10 * n + d) ds n in
  if v <? 2 ^ 64 then (v, None)
  else (strconv.maxUint64, Some strconv.ErrRange).
Proof.
  intros Hds. revert n.
  induction Hds as [ | d ds Hd Hds IH]; intros n Hn; cbv zeta.
  - cbn. replace (n <? 2 ^ 64) with true by (symmetry; lia). reflexivity.
  - cbn [numeral map strconv.ParseUint_loop fold_left]. fold (numeral ds).
    rewrite code_digit_char by exact Hd.
    pose proof (fold_decimal_ge ds (10 * n + d) Hds) as Hge.
    unfold is_digit in Hd.
    replace ((48 <=? 48 + d) && (48 + d <=? 57)) with true by (symmetry; lia).
    cbv zeta. replace (48 + d - 48) with d by lia.
    replace (d >=? 10) with false by (symmetry; lia).
    change (strconv.maxUint64 / 10 + 1) with 1844674407370955162.
    change strconv.maxUint64 with 18446744073709551615.
    change (2 ^ 64) with 18446744073709551616 in *.
    destruct (Z.geb_spec n 1844674407370955162) as [Hcut | Hcut].
    { replace (fold_left (fun n d => 10 * n + d) ds (10 * n + d)
               <? 18446744073709551616) with false by (symmetry; lia).
      reflexivity. }
    unfold strconv.u64. change (2 ^ 64) with 18446744073709551616.
    rewrite (Z.mod_small (n * 10)) by lia.
    destruct (Z.lt_ge_cases (n * 10 + d) 18446744073709551616) as [Hfit | Hwrap].
    + rewrite (Z.mod_small (n * 10 + d)) by lia.
      replace ((n * 10 + d <? n * 10) || (n * 10 + d >? 18446744073709551615))
        with false by (symmetry; lia).
      rewrite IH by lia. cbv zeta.
      replace (n * 10 + d) with (10 * n + d) by lia. reflexivity.
    + replace ((n * 10 + d) mod 18446744073709551616)
        with (n * 10 + d - 18446744073709551616)
        by (apply Zmod_unique with 1; lia).
      replace ((n * 10 + d - 18446744073709551616 <? n * 10)
               || (n * 10 + d - 18446744073709551616 >? 18446744073709551615))
        with true by (symmetry; lia).
      replace (fold_left (fun n d => 10 * n + d) ds (10 * n + d)
               <? 18446744073709551616) with false by (symmetry; lia).
      reflexivity.
Qed.

Lemma digit_char_not (d : Z) (c : ascii) :
  is_digit d -> strconv.code c < 0x30 \/ 0x39 < strconv.code c ->
  Ascii.eqb (digit_char d) c = false.
Proof.
  intros Hd Hc. pose proof (code_digit_char d Hd) as Hcode.
  unfold is_digit in Hd.
  destruct (Ascii.eqb_spec (digit_char d) c) as [He | ]; [ | reflexivity].
  rewrite He in Hcode. lia.
Qed.

Lemma ParseUint_numeral (ds : list Z) :
  ds <> [] -> Forall is_digit ds ->
  strconv.ParseUint (numeral ds) =
  if decimal ds <? 2 ^ 64 then (decimal ds, None)
  else (strconv.maxUint64, Some strconv.ErrRange).
Proof.
  intros Hne Hds. unfold strconv.ParseUint.
  destruct ds as [ | d ds]; [contradiction | ].
  change (numeral (d :: ds)) with (digit_char d :: numeral ds) at 1.
  cbv iota. change (digit_char d :: numeral ds) with (numeral (d :: ds)).
  rewrite ParseUint_loop_numeral by (exact Hds || lia). reflexivity.
Qed.

(** [ParseInt] on a decimal numeral, with or without a minus sign. *)
Lemma ParseInt_numeral (ds : list Z) :
  ds <> [] -> Forall is_digit ds ->
  strconv.ParseInt (numeral ds) =
    (if decimal ds <? 2 ^ 63 then (decimal ds, None)
     else (2 ^ 63 - 1, Some strconv.ErrRange)) /\
  strconv.ParseInt ("-"%char :: numeral ds) =
    (if decimal ds <=? 2 ^ 63 then (- decimal ds, None)
     else (- 2 ^ 63, Some strconv.ErrRange)).
Proof.
  intros Hne Hds.
  pose proof (ParseUint_numeral ds Hne Hds) as Hun.
  assert (Hpos : 0 <= decimal ds) by (apply (fold_decimal_ge ds 0 Hds); lia).
  change (2 ^ 64) with 18446744073709551616 in Hun.
  change strconv.maxUint64 with 18446744073709551615 in Hun.
  change (2 ^ 63) with 9223372036854775808.
  split.
  - unfold strconv.ParseInt.
    destruct ds as [ | d ds]; [contradiction | ].
    change (numeral (d :: ds)) with (digit_char d :: numeral ds) at 1.
    cbv iota.
    inversion Hds as [ | ? ? Hd Hds']; subst.
    rewrite !(digit_char_not d) by (exact Hd || (vm_compute; left; reflexivity)).
    change (digit_char d :: numeral ds) with (numeral (d :: ds)).
    rewrite Hun.
    destruct (Z.ltb_spec (decimal (d :: ds)) 18446744073709551616).
    + cbn [negb andb]. change (2 ^ 63) with 9223372036854775808.
      destruct (Z.ltb_spec (decimal (d :: ds)) 9223372036854775808).
      * rewrite Z.geb_leb, (proj2 (Z.leb_gt _ _)) by lia. reflexivity.
      * rewrite Z.geb_leb, (proj2 (Z.leb_le _ _)) by lia. reflexivity.
    + cbn [negb andb]. change (2 ^ 63) with 9223372036854775808.
      rewrite (proj2 (Z.ltb_ge _ _)) by lia. reflexivity.
  - unfold strconv.ParseInt. cbn [Ascii.eqb Bool.eqb]. rewrite Hun.
    destruct (Z.ltb_spec (decimal ds) 18446744073709551616).
    + cbn [negb andb]. change (2 ^ 63) with 9223372036854775808.
      destruct (Z.leb_spec (decimal ds) 9223372036854775808).
      * rewrite Z.gtb_ltb, (proj2 (Z.ltb_ge _ _)) by lia. reflexivity.
      * rewrite Z.gtb_ltb, (proj2 (Z.ltb_lt _ _)) by lia. reflexivity.
    + cbn [negb andb]. change (2 ^ 63) with 9223372036854775808.
      rewrite (proj2 (Z.leb_gt _ _)) by lia. reflexivity.
Qed.

Lemma ParseUint_loop_range (s : list ascii) (n : Z) :
  0 <= n < 2 ^ 64 -> 0 <= fst (strconv.ParseUint_loop s n) < 2 ^ 64.
Proof.
  revert n. induction s as [ | c s IH]; intros n Hn; cbn [strconv.ParseUint_loop];
    [exact Hn | ].
  cbv zeta.
  assert (Hu : forall z, 0 <= strconv.u64 z < 2 ^ 64)
    by (intros z; unfold strconv.u64; apply Z.mod_pos_bound; lia).
  assert (Hmax : 0 <= strconv.maxUint64 < 2 ^ 64)
    by (unfold strconv.maxUint64; lia).
  repeat match goal with
         | |- context [match (if ?b then _ else _) with _ => _ end] => destruct b
         | |- context [if ?b then _ else _] => destruct b
         end; cbn [fst]; try lia; apply IH, Hu.
Qed.

Lemma ParseInt_range (s : list ascii) :
  - 2 ^ 63 <= fst (strconv.ParseInt s) < 2 ^ 63.
Proof.
  unfold strconv.ParseInt. destruct s as [ | c0 rest]; [cbn; lia | ].
  assert (Hun : forall t, 0 <= fst (strconv.ParseUint t) < 2 ^ 64).
  { intros t. unfold strconv.ParseUint. destruct t; [cbn; lia | ].
    apply ParseUint_loop_range. lia. }
  destruct (if Ascii.eqb c0 "+" then (false, rest)
            else if Ascii.eqb c0 "-" then (true, rest) else (false, c0 :: rest))
    as [neg digits].
  specialize (Hun digits).
  destruct (strconv.ParseUint digits) as [un e]. cbn [fst] in Hun.
  change (2 ^ 64) with 18446744073709551616 in Hun.
  change (2 ^ 63) with 9223372036854775808.
  destruct e as [[ | ] | ]; [cbn [fst]; lia | | ];
    destruct neg; cbn [negb andb];
    repeat match goal with
           | |- context [un >? ?c] => destruct (Z.gtb_spec un c)
           | |- context [un >=? ?c] => destruct (Z.geb_spec un c)
           end;
    cbn [fst]; lia.
Qed.

Lemma HasPrefix_nil (t : list ascii) : strings.HasPrefix t [] = true.
Proof. destruct t; reflexivity. Qed.

Lemma numeral_no_prefix (ds : list Z) :
  ds <> [] -> Forall is_digit ds ->
  strings.HasPrefix (numeral ds) (list_ascii_of_string "user-") = false.
Proof.
  intros Hne Hds.
  destruct ds as [ | d ds]; [contradiction | ].
  inversion Hds as [ | ? ? Hd _]; subst.
  cbn [numeral map list_ascii_of_string strings.HasPrefix].
  rewrite bool_decide_eq_false_2; [reflexivity | ].
  intros He.
  pose proof (digit_char_not d "u" Hd ltac:(right; vm_compute; reflexivity))
    as Hn.
  rewrite He in Hn. discriminate Hn.
Qed.

(** What [ParseInt] returns beside an error: 0 with a syntax error, one
    of the two ends of the range with a range error. *)
Lemma ParseInt_error (s : list ascii) :
  match snd (strconv.ParseInt s) with
  | Some strconv.ErrSyntax => fst (strconv.ParseInt s) = 0
  | Some strconv.ErrRange =>
      fst (strconv.ParseInt s) = 2 ^ 63 - 1 \/ fst (strconv.ParseInt s) = - 2 ^ 63
  | None => True
  end.
Proof.
  unfold strconv.ParseInt. destruct s as [ | c0 rest]; [reflexivity | ].
  destruct (if Ascii.eqb c0 "+" then (false, rest)
            else if Ascii.eqb c0 "-" then (true, rest) else (false, c0 :: rest))
    as [neg digits].
  destruct (strconv.ParseUint digits) as [un e].
  destruct e as [[ | ] | ]; [reflexivity | | ];
    destruct neg; cbn [negb andb];
    repeat match goal with
           | |- context [un >? ?c] => destruct (un >? c)
           | |- context [un >=? ?c] => destruct (un >=? c)
           end;
    cbn [fst snd]; auto.
Qed.

(** X19. The parsers read back decimal numerals: after the prefix, a
    non-empty list of decimal digits that writes a number below 2^63 is
    parsed to that number by [ParseUID] and [ParseKID], and to its
    opposite after a minus sign; [DecodeUID] gives the same number, with
    or without the prefix. *)
Theorem ParseUID_numeral (ds : list Z) :
  ds <> [] -> Forall is_digit ds -> decimal ds < 2 ^ 63 ->
  ParseUID (list_ascii_of_string "user-" ++ numeral ds) = (decimal ds, None) /\
  ParseUID (list_ascii_of_string "user--" ++ numeral ds)
  = (- decimal ds, None) /\
  ParseKID (list_ascii_of_string "key-" ++ numeral ds) = (decimal ds, None) /\
  DecodeUID (list_ascii_of_string "user-" ++ numeral ds) = decimal ds /\
  DecodeUID (numeral ds) = decimal ds.
Proof.
  intros Hne Hds Hfit.
  destruct (ParseInt_numeral ds Hne Hds) as [Hplus Hminus].
  rewrite (proj2 (Z.ltb_lt _ _)) in Hplus by exact Hfit.
  rewrite (proj2 (Z.leb_le _ _)) in Hminus by lia.
  unfold ParseUID, ParseKID, DecodeUID, lift.
  cbn [list_ascii_of_string app strings.HasPrefix drop].
  rewrite !bool_decide_eq_true_2 by reflexivity. cbn [andb negb].
  assert (Hhead : strings.HasPrefix (numeral ds) (list_ascii_of_string "user-")
                  = false).
  { destruct ds as [ | d ds]; [contradiction | ].
    inversion Hds as [ | ? ? Hd _]; subst.
    cbn [numeral map list_ascii_of_string strings.HasPrefix].
    rewrite bool_decide_eq_false_2; [reflexivity | ].
    intros He.
    pose proof (digit_char_not d "u" Hd ltac:(right; vm_compute; reflexivity))
      as Hn.
    rewrite He in Hn. discriminate Hn. }
  assert (Hnil : forall t : list ascii, strings.HasPrefix t [] = true)
    by (intros [ | ? ?]; reflexivity).
  cbn [list_ascii_of_string] in Hhead.
  rewrite ?drop_0, !Hnil, Hhead, Hplus, Hminus. cbn [negb fst snd option_map].
  repeat split.
Qed.

Lemma ParseUID_numeral_witness :
  ParseUID (list_ascii_of_string "user-42") = (42, None) /\
  ParseUID (list_ascii_of_string "user--42") = (-42, None) /\
  ParseKID (list_ascii_of_string "key-42") = (42, None) /\
  DecodeUID (list_ascii_of_string "user-42") = 42 /\
  DecodeUID (list_ascii_of_string "42") = 42.
Proof.
  apply (ParseUID_numeral [4; 2]).
  - discriminate.
  - repeat constructor; unfold is_digit; lia.
  - vm_compute. reflexivity.
Defined.

(** X20. Ids that do not fit in 64 bits saturate: for a non-empty list
    of decimal digits that writes a number of at least 2^63, [ParseUID]
    and [ParseKID] return the largest int64 together with the range
    error, and [DecodeUID], which drops the error, returns the largest
    int64 as if it were the id. *)
Theorem ParseUID_saturates (ds : list Z) :
  ds <> [] -> Forall is_digit ds -> 2 ^ 63 <= decimal ds ->
  ParseUID (list_ascii_of_string "user-" ++ numeral ds)
  = (2 ^ 63 - 1, Some (ErrNum strconv.ErrRange)) /\
  ParseKID (list_ascii_of_string "key-" ++ numeral ds)
  = (2 ^ 63 - 1, Some (ErrNum strconv.ErrRange)) /\
  DecodeUID (list_ascii_of_string "user-" ++ numeral ds) = 2 ^ 63 - 1 /\
  DecodeUID (numeral ds) = 2 ^ 63 - 1.
Proof.
  intros Hne Hds Hbig.
  destruct (ParseInt_numeral ds Hne Hds) as [Hplus _].
  rewrite (proj2 (Z.ltb_ge _ _)) in Hplus by exact Hbig.
  pose proof (numeral_no_prefix ds Hne Hds) as Hhead.
  unfold ParseUID, ParseKID, DecodeUID, lift.
  cbn [list_ascii_of_string app strings.HasPrefix drop].
  rewrite !bool_decide_eq_true_2 by reflexivity. cbn [andb negb].
  cbn [list_ascii_of_string] in Hhead.
  rewrite ?drop_0, !HasPrefix_nil, Hhead, Hplus.
  cbn [negb fst snd option_map].
  repeat split.
Qed.

Lemma ParseUID_saturates_witness :
  ParseUID (list_ascii_of_string "user-9223372036854775808")
  = (2 ^ 63 - 1, Some (ErrNum strconv.ErrRange)) /\
  ParseKID (list_ascii_of_string "key-9223372036854775808")
  = (2 ^ 63 - 1, Some (ErrNum strconv.ErrRange)) /\
  DecodeUID (list_ascii_of_string "user-9223372036854775808") = 2 ^ 63 - 1 /\
  DecodeUID (list_ascii_of_string "9223372036854775808") = 2 ^ 63 - 1.
Proof.
  apply (ParseUID_saturates
           [9; 2; 2; 3; 3; 7; 2; 0; 3; 6; 8; 5; 4; 7; 7; 5; 8; 0; 8]).
  - discriminate.
  - repeat constructor; unfold is_digit; lia.
  - vm_compute. discriminate.
Defined.

(** X21. [DecodeUID] always returns an int64, whatever the string, and
    whenever [ParseUID] accepts a string [DecodeUID] returns the same
    id; a string that [ParseUID] rejects with a syntax error, or for its
    missing prefix, gives the id 0 there. *)
Theorem DecodeUID_ParseUID (glid : list ascii) :
  - 2 ^ 63 <= DecodeUID glid < 2 ^ 63 /\
  (forall v, ParseUID glid = (v, None) -> DecodeUID glid = v) /\
  (forall v e, ParseUID glid = (v, Some e) -> e <> ErrNum strconv.ErrRange ->
               v = 0) /\
  (forall v, ParseUID glid = (v, Some (ErrNum strconv.ErrRange)) ->
             DecodeUID glid = v /\ (v = 2 ^ 63 - 1 \/ v = - 2 ^ 63)).
Proof.
  unfold ParseUID, DecodeUID, lift.
  destruct (strings.HasPrefix glid (list_ascii_of_string "user-"));
    cbn [negb].
  - pose proof (ParseInt_range (drop 5 glid)) as Hr.
    pose proof (ParseInt_error (drop 5 glid)) as He.
    destruct (strconv.ParseInt (drop 5 glid)) as [v0 e0].
    cbn [fst snd] in *.
    split; [exact Hr | ].
    split; [ | split].
    + intros v Hv. inversion Hv. reflexivity.
    + intros v e Hv Hne. destruct e0 as [[ | ] | ]; cbn in Hv.
      * injection Hv as Hv1 Hv2. rewrite <- Hv1. exact He.
      * injection Hv as Hv1 Hv2. symmetry in Hv2. contradiction.
      * discriminate Hv.
    + intros v Hv. destruct e0 as [[ | ] | ]; cbn in Hv; try discriminate Hv.
      injection Hv as Hv1. rewrite <- Hv1. split; [reflexivity | exact He].
  - split; [apply ParseInt_range | ].
    split; [ | split].
    + intros v Hv. discriminate Hv.
    + intros v e Hv _. inversion Hv. reflexivity.
    + intros v Hv. discriminate Hv.
Qed.

Lemma DecodeUID_ParseUID_witness :
  DecodeUID (list_ascii_of_string "user-7") = 7.
Proof.
  apply (proj1 (proj2 (DecodeUID_ParseUID (list_ascii_of_string "user-7")))).
  vm_compute. reflexivity.
Defined.

End Ids.

(** * [Swap] and the printed form of a [Changes] *)
Section Printing.
Context `{object.Decls}.
Import object.

(** X22. [Swap] with two indices of the slice exchanges the two elements
    and touches nothing else: the length and every other element are
    kept, and swapping again restores the slice.  With an index past the
    end it panics. *)
Theorem Swap_exchanges (c : Changes) (i j : nat) :
  ((i < Len c)%nat -> (j < Len c)%nat ->
   exists c', Swap c i j = Ok c' /\
     Len c' = Len c /\
     c' !! i = c !! j /\ c' !! j = c !! i /\
     (forall k, k <> i -> k <> j -> c' !! k = c !! k) /\
     Swap c' i j = Ok c) /\
  ((Len c <= i)%nat \/ (Len c <= j)%nat -> Swap c i j = Panic PanicIndex).
Proof.
  unfold Len, Swap, Changes in *. split.
  - intros Hi Hj.
    destruct (lookup_lt_is_Some_2 c i Hi) as [ci Hci].
    destruct (lookup_lt_is_Some_2 c j Hj) as [cj Hcj].
    rewrite Hci, Hcj.
    eexists. split; [reflexivity | ].
    assert (Hlen : length (<[j := ci]> (<[i := cj]> c)) = length c)
      by (rewrite !length_insert; reflexivity).
    assert (Hatj : <[j := ci]> (<[i := cj]> c) !! j = Some ci)
      by (apply list_lookup_insert_eq; rewrite length_insert; exact Hj).
    assert (Hati : <[j := ci]> (<[i := cj]> c) !! i = Some cj).
    { destruct (decide (i = j)) as [-> | Hne].
      - rewrite Hatj. congruence.
      - rewrite list_lookup_insert_ne by congruence.
        apply list_lookup_insert_eq. exact Hi. }
    split; [exact Hlen | ].
    split; [congruence | ].
    split; [congruence | ].
    split.
    + intros k Hki Hkj.
      rewrite !list_lookup_insert_ne by congruence. reflexivity.
    + rewrite Hati, Hatj. f_equal.
      apply list_eq. intros k.
      destruct (decide (k = j)) as [-> | Hkj].
      * rewrite list_lookup_insert_eq
          by (rewrite !length_insert; exact Hj).
        symmetry. exact Hcj.
      * rewrite list_lookup_insert_ne by congruence.
        destruct (decide (k = i)) as [-> | Hki].
        -- rewrite list_lookup_insert_eq
             by (rewrite !length_insert; exact Hi).
           symmetry. exact Hci.
        -- rewrite !list_lookup_insert_ne by congruence. reflexivity.
  - intros [Hi | Hj].
    + rewrite (proj2 (lookup_ge_None c i)) by exact Hi. reflexivity.
    + rewrite (proj2 (lookup_ge_None c j)) by exact Hj.
      destruct (c !! i); reflexivity.
Qed.

(** The printed form. *)
Variable Action_String : merkletrie.Action -> string.

Lemma append_assoc (a b c : string) : (a +:+ b) +:+ c = a +:+ (b +:+ c).
Proof.
  induction a as [ | x a IH]; [reflexivity | ].
  change (String x ((a +:+ b) +:+ c) = String x (a +:+ (b +:+ c))).
  rewrite IH. reflexivity.
Qed.

Lemma Changes_String_loop_join (v : Change) (c : Changes) (buffer comma : string) :
  Changes_String_loop Action_String (v :: c) buffer comma
  = buffer +:+ comma
    +:+ String.concat ", " (map (Change_String Action_String) (v :: c)).
Proof.
  revert v buffer comma. induction c as [ | w c IH]; intros v buffer comma.
  - cbn. rewrite append_assoc. reflexivity.
  - change (Changes_String_loop Action_String (v :: w :: c) buffer comma)
      with (Changes_String_loop Action_String (w :: c)
              ((buffer +:+ comma) +:+ Change_String Action_String v) ", ").
    rewrite IH.
    change (map (Change_String Action_String) (v :: w :: c))
      with (Change_String Action_String v
            :: map (Change_String Action_String) (w :: c)).
    change (map (Change_String Action_String) (w :: c))
      with (Change_String Action_String w
            :: map (Change_String Action_String) c).
    cbn [String.concat].
    rewrite !append_assoc. reflexivity.
Qed.

(** X23. [Changes.String] is the printed changes, joined by a comma and
    a space, between square brackets.  Each change prints as "malformed
    change" when both sides are empty and otherwise with its action and
    its effective path: the name of [To] for an insertion, the name of
    [From] for a deletion and for a modification. *)
Theorem Changes_String_join (c : Changes) :
  Changes_String Action_String c
  = "[" +:+ String.concat ", " (map (Change_String Action_String) c) +:+ "]"
  /\ Forall (fun v =>
       Change_String Action_String v =
       match ChangeEntry_Equal (From v) empty, ChangeEntry_Equal (To v) empty with
       | true, true => "malformed change"
       | true, false =>
           "<Action: " +:+ Action_String merkletrie.Insert
           +:+ ", Path: " +:+ Name (To v) +:+ ">"
       | false, true =>
           "<Action: " +:+ Action_String merkletrie.Delete
           +:+ ", Path: " +:+ Name (From v) +:+ ">"
       | false, false =>
           "<Action: " +:+ Action_String merkletrie.Modify
           +:+ ", Path: " +:+ Name (From v) +:+ ">"
       end) c.
Proof.
  split.
  - unfold Changes_String. destruct c as [ | v c]; [reflexivity | ].
    rewrite Changes_String_loop_join, append_assoc. reflexivity.
  - apply Forall_forall. intros v _.
    unfold Change_String, Action, name.
    destruct (ChangeEntry_Equal (From v) empty),
             (ChangeEntry_Equal (To v) empty); reflexivity.
Qed.

End Printing.

Lemma Swap_exchanges_witness :
  let c := [sample.modified "b/x"; sample.inserted "a/y"; sample.modified "a/a"] in
  exists c', object.Swap c 0 2 = Ok c' /\
    object.Len c' = object.Len c /\
    c' !! 0%nat = c !! 2%nat /\ c' !! 2%nat = c !! 0%nat /\
    (forall k : nat, k <> 0%nat -> k <> 2%nat -> c' !! k = c !! k) /\
    object.Swap c' 0 2 = Ok c.
Proof.
  apply (proj1 (Swap_exchanges
                  [sample.modified "b/x"; sample.inserted "a/y";
                   sample.modified "a/a"] 0 2)); cbn; lia.
Defined.

(** The three kinds of change and a malformed one, printed. *)
Example printing_runs :
  let shown (a : merkletrie.Action) : string :=
    match a with
    | merkletrie.Insert => "Insert"
    | merkletrie.Delete => "Delete"
    | merkletrie.Modify => "Modify"
    end in
  object.Changes_String shown
    [sample.modified "b/x"; sample.inserted "a/y";
     {| object.From := object.empty; object.To := object.empty |}]
  = "[<Action: Modify, Path: b/x>, <Action: Insert, Path: a/y>, malformed change]"%string.
Proof. vm_compute. reflexivity. Qed.

(** * Properties of the proxy settings *)
Section Proxy.

Import registry proxy.

(** ** Reading the registry *)

(** X24. [fromWindowsProxy] reads the settings key of the machine when
    the policy [ProxySettingsPerUser] can be read and is 0, and that of
    the current user otherwise.  When the key cannot be opened it
    returns that error and no values.  Otherwise its error is the first
    error of the four reads that is not [ErrNotExist], and when there is
    none it returns the four values read, with a nil error. *)
Theorem fromWindowsProxy_reads (reg : Registry) :
  let hive := if per_machine reg then LOCAL_MACHINE else CURRENT_USER in
  match reg hive settings with
  | inr e => fromWindowsProxy reg = (no_values, Some e)
  | inl k =>
      snd (fromWindowsProxy reg) = first_failure (reads k) /\
      (first_failure (reads k) = None ->
       fromWindowsProxy reg = (values_read k, None))
  end.
Proof.
  cbv zeta.
  assert (Hhive :
    (if (match reg LOCAL_MACHINE policies with
         | inl k =>
             let '(tempPrxUsrSettings, err) :=
               GetIntegerValue k "ProxySettingsPerUser" in
             match err with
             | None => tempPrxUsrSettings
             | Some _ => 1
             end
         | inr _ => 1
         end =? 0) then LOCAL_MACHINE else CURRENT_USER)
    = if per_machine reg then LOCAL_MACHINE else CURRENT_USER).
  { unfold per_machine.
    destruct (reg LOCAL_MACHINE policies) as [k | e]; [ | reflexivity].
    destruct (GetIntegerValue k "ProxySettingsPerUser") as [v [e | ]];
      destruct v; reflexivity. }
  unfold fromWindowsProxy. cbv zeta. rewrite Hhive.
  destruct (reg (if per_machine reg then LOCAL_MACHINE else CURRENT_USER)
                settings) as [k | e]; [ | reflexivity].
  unfold reads, values_read.
  destruct (GetStringValue k "ProxyServer") as [v1 e1].
  destruct (GetStringValue k "ProxyOverride") as [v2 e2].
  destruct (GetIntegerValue k "ProxyEnable") as [v3 e3].
  destruct (GetStringValue k "AutoConfigURL") as [v4 e4].
  cbn [fst snd ProxyServer ProxyOverride ProxyEnable AutoConfigURL].
  destruct e1 as [[ | n1] | ]; cbn [fails first_failure];
    try (split; [reflexivity | discriminate]);
    (destruct e2 as [[ | n2] | ]; cbn [fails first_failure];
     try (split; [reflexivity | discriminate]);
     (destruct e3 as [[ | n3] | ]; cbn [fails first_failure];
      try (split; [reflexivity | discriminate]);
      (destruct e4 as [[ | n4] | ]; cbn [fails first_failure];
       try (split; [reflexivity | discriminate]);
       (split; [reflexivity | intros _; reflexivity])))).
Qed.

(** ** The settings of the environment and of the registry *)

Variable Getenv : string -> string.
Variable getEnvAny : list string -> string.

Lemma protocol_step_entry (m : gmap string string) (s : string) :
  protocol_step m s
  = Ok (if decide (s = EmptyString) then m
        else <[fst (server_entry s) := snd (server_entry s)]> m).
Proof.
  unfold protocol_step, strings.SplitN_2, server_entry.
  destruct (String.eqb_spec s "") as [-> | Hne].
  - reflexivity.
  - rewrite decide_False by exact Hne.
    destruct (strings.cut s "=") as [[before after] | ]; reflexivity.
Qed.

Lemma address_cons (kv : string * string) (es : list (string * string))
    (key : string) :
  address (kv :: es) key
  = match address es key with
    | Some a => Some a
    | None => if decide (fst kv = key) then Some (snd kv) else None
    end.
Proof.
  unfold address. rewrite filter_cons.
  destruct (decide (fst kv = key)) as [Hk | Hk].
  - cbn [map]. rewrite last_cons. reflexivity.
  - destruct (last _); reflexivity.
Qed.

Lemma protocol_loop_entries (ss : list string) (m : gmap string string) :
  exists m', protocol_loop ss m = Ok m' /\
    forall key,
      m' !! key
      = match address (map server_entry
                           (filter (fun e => e <> EmptyString) ss)) key with
        | Some a => Some a
        | None => m !! key
        end.
Proof.
  revert m. induction ss as [ | s ss IH]; intros m.
  - exists m. split; reflexivity.
  - cbn [protocol_loop]. rewrite protocol_step_entry.
    rewrite filter_cons.
    destruct (decide (s = EmptyString)) as [Hs | Hs].
    + rewrite decide_False by (intros Hn; exact (Hn Hs)).
      apply IH.
    + rewrite decide_True by exact Hs.
      destruct (IH (<[fst (server_entry s) := snd (server_entry s)]> m))
        as (m' & Hrun & Hlook).
      exists m'. split; [exact Hrun | ].
      intros key. rewrite Hlook. cbn [map]. rewrite address_cons.
      destruct (address _ key) as [a | ]; [reflexivity | ].
      destruct (decide (fst (server_entry s) = key)) as [<- | Hk].
      * apply lookup_insert_eq.
      * apply lookup_insert_ne. exact Hk.
Qed.

Lemma getProtocolAny_chosen (server scheme : string) (m : gmap string string) :
  (forall key, m !! key = address (server_entries server) key) ->
  getProtocolAny m [scheme; EmptyString] = chosen server scheme.
Proof.
  intros Hm. unfold chosen. cbn [getProtocolAny]. rewrite !Hm. reflexivity.
Qed.

(** [FromEnvironment] in closed form. *)
Lemma FromEnvironment_cases (reg : Registry) :
  let http := getEnvAny ["HTTP_PROXY"; "http_proxy"; "ALL_PROXY"; "all_proxy"] in
  let https := getEnvAny ["HTTPS_PROXY"; "https_proxy"; "ALL_PROXY"; "all_proxy"] in
  let no := getEnvAny ["NO_PROXY"; "no_proxy"] in
  let cgi := negb (String.eqb (Getenv "REQUEST_METHOD") "") in
  let values := fst (fromWindowsProxy reg) in
  FromEnvironment Getenv getEnvAny reg
  = Ok (match snd (fromWindowsProxy reg) with
        | Some _ =>
            {| HTTPProxy := http; HTTPSProxy := https; NoProxy := no; CGI := cgi |}
        | None =>
            if ProxyEnable values >? 1 then
              {| HTTPProxy :=
                   if decide (http = EmptyString)
                   then chosen (ProxyServer values) "http" else http;
                 HTTPSProxy :=
                   if decide (https = EmptyString)
                   then chosen (ProxyServer values) "https" else https;
                 NoProxy :=
                   if decide (no = EmptyString)
                   then strings.Replace (ProxyOverride values) ";" "," else no;
                 CGI := cgi |}
            else
              {| HTTPProxy := http; HTTPSProxy := https; NoProxy := no; CGI := cgi |}
        end).
Proof.
  cbv zeta. unfold FromEnvironment.
  destruct (fromWindowsProxy reg) as [values [e | ]]; cbn [fst snd];
    [reflexivity | ].
  destruct (ProxyEnable values >? 1); [ | reflexivity].
  destruct (protocol_loop_entries (strings.Split (ProxyServer values) ";") ∅)
    as (m & -> & Hlook).
  assert (Hm : forall key, m !! key = address (server_entries (ProxyServer values)) key).
  { intros key. rewrite Hlook. unfold server_entries.
    destruct (address _ key); [reflexivity | apply lookup_empty]. }
  cbv zeta.
  cbn [HTTPProxy HTTPSProxy NoProxy CGI].
  destruct (getEnvAny ["NO_PROXY"; "no_proxy"]) as [ | ? ?];
    destruct (getEnvAny ["HTTP_PROXY"; "http_proxy"; "ALL_PROXY"; "all_proxy"])
      as [ | ? ?];
    destruct (getEnvAny ["HTTPS_PROXY"; "https_proxy"; "ALL_PROXY"; "all_proxy"])
      as [ | ? ?];
    cbn [String.length Nat.eqb HTTPProxy HTTPSProxy NoProxy CGI];
    rewrite ?decide_True by reflexivity;
    rewrite ?decide_False by discriminate;
    rewrite ?(getProtocolAny_chosen (ProxyServer values) _ m Hm);
    reflexivity.
Qed.

(** X25. [FromEnvironment] always returns a configuration, and the
    environment comes first: [CGI] depends on [REQUEST_METHOD] alone, a
    setting the environment gives (a non-empty value) is kept whatever
    the registry holds, and the registry is not used at all when reading
    it failed or [ProxyEnable] is at most 1. *)
Theorem FromEnvironment_environment (reg : Registry) :
  let http := getEnvAny ["HTTP_PROXY"; "http_proxy"; "ALL_PROXY"; "all_proxy"] in
  let https := getEnvAny ["HTTPS_PROXY"; "https_proxy"; "ALL_PROXY"; "all_proxy"] in
  let no := getEnvAny ["NO_PROXY"; "no_proxy"] in
  exists cfg, FromEnvironment Getenv getEnvAny reg = Ok cfg /\
    CGI cfg = negb (String.eqb (Getenv "REQUEST_METHOD") "") /\
    (http <> EmptyString -> HTTPProxy cfg = http) /\
    (https <> EmptyString -> HTTPSProxy cfg = https) /\
    (no <> EmptyString -> NoProxy cfg = no) /\
    (snd (fromWindowsProxy reg) <> None
     \/ ProxyEnable (fst (fromWindowsProxy reg)) <= 1 ->
     HTTPProxy cfg = http /\ HTTPSProxy cfg = https /\ NoProxy cfg = no).
Proof.
  cbv zeta. eexists. split; [apply FromEnvironment_cases | ].
  cbv zeta.
  destruct (snd (fromWindowsProxy reg)) as [e | ].
  - cbn [HTTPProxy HTTPSProxy NoProxy CGI]. repeat split; reflexivity.
  - destruct (Z.gtb_spec (ProxyEnable (fst (fromWindowsProxy reg))) 1)
      as [Hon | Hoff];
      cbn [HTTPProxy HTTPSProxy NoProxy CGI].
    + split; [reflexivity | ].
      split; [intros Hne; rewrite decide_False by exact Hne; reflexivity | ].
      split; [intros Hne; rewrite decide_False by exact Hne; reflexivity | ].
      split; [intros Hne; rewrite decide_False by exact Hne; reflexivity | ].
      intros [Herr | Hle]; [contradiction Herr; reflexivity | lia].
    + repeat split; reflexivity.
Qed.

(** X26. When the registry was read without error and [ProxyEnable] is
    above 1, what the environment leaves empty comes from the registry:
    [NoProxy] is [ProxyOverride] with its semicolons turned into commas,
    and the proxy of a scheme is the address of the last entry of
    [ProxyServer] for that scheme, else of its last entry with an empty
    scheme (an entry without [=], or one that starts with [=]), else
    empty. *)
Theorem FromEnvironment_registry (reg : Registry) (values : windowsProxyConfig) :
  let http := getEnvAny ["HTTP_PROXY"; "http_proxy"; "ALL_PROXY"; "all_proxy"] in
  let https := getEnvAny ["HTTPS_PROXY"; "https_proxy"; "ALL_PROXY"; "all_proxy"] in
  let no := getEnvAny ["NO_PROXY"; "no_proxy"] in
  fromWindowsProxy reg = (values, None) -> 1 < ProxyEnable values ->
  exists cfg, FromEnvironment Getenv getEnvAny reg = Ok cfg /\
    (http = EmptyString -> HTTPProxy cfg = chosen (ProxyServer values) "http") /\
    (https = EmptyString -> HTTPSProxy cfg = chosen (ProxyServer values) "https") /\
    (no = EmptyString ->
     NoProxy cfg = strings.Replace (ProxyOverride values) ";" ",").
Proof.
  cbv zeta. intros Hread Hon.
  eexists. split; [apply FromEnvironment_cases | ].
  cbv zeta. rewrite Hread. cbn [fst snd].
  rewrite (proj2 (Z.gtb_lt _ _)) by exact Hon.
  cbn [HTTPProxy HTTPSProxy NoProxy CGI].
  repeat split; intros He; rewrite decide_True by exact He; reflexivity.
Qed.

Lemma pieces_free (s : string) :
  free_of ";" s -> strings.pieces s ";" = (s, []).
Proof.
  induction s as [ | c s IH]; [reflexivity | ].
  intros [Hc Hs]. cbn [strings.pieces]. rewrite (IH Hs).
  destruct (Ascii.eqb_spec c ";"); [contradiction | reflexivity].
Qed.

Lemma cut_free (s : string) : free_of "=" s -> strings.cut s "=" = None.
Proof.
  induction s as [ | c s IH]; [reflexivity | ].
  intros [Hc Hs]. cbn [strings.cut]. rewrite (IH Hs).
  destruct (Ascii.eqb_spec c "="); [contradiction | reflexivity].
Qed.

Lemma chosen_single (server scheme : string) :
  server <> EmptyString -> free_of ";" server -> free_of "=" server ->
  chosen server scheme = server.
Proof.
  intros Hne Hsemi Heq.
  unfold chosen, server_entries, strings.Split.
  rewrite (pieces_free server Hsemi).
  rewrite filter_cons, decide_True by exact Hne.
  rewrite filter_nil. cbn [map]. unfold server_entry.
  rewrite (cut_free server Heq).
  unfold address. rewrite !filter_cons, filter_nil. cbn [fst].
  rewrite (decide_True (P := EmptyString = EmptyString)) by reflexivity.
  destruct (decide (EmptyString = scheme)); reflexivity.
Qed.

(** X27. A [ProxyServer] that is one address (non-empty, without [;]
    and without [=]) serves both schemes: with the registry read without
    error, [ProxyEnable] above 1 and no proxy in the environment, it is
    both [HTTPProxy] and [HTTPSProxy]. *)
Theorem FromEnvironment_single_server (reg : Registry)
    (values : windowsProxyConfig) :
  fromWindowsProxy reg = (values, None) -> 1 < ProxyEnable values ->
  ProxyServer values <> EmptyString ->
  free_of ";" (ProxyServer values) -> free_of "=" (ProxyServer values) ->
  getEnvAny ["HTTP_PROXY"; "http_proxy"; "ALL_PROXY"; "all_proxy"] = EmptyString ->
  getEnvAny ["HTTPS_PROXY"; "https_proxy"; "ALL_PROXY"; "all_proxy"] = EmptyString ->
  exists cfg, FromEnvironment Getenv getEnvAny reg = Ok cfg /\
    HTTPProxy cfg = ProxyServer values /\
    HTTPSProxy cfg = ProxyServer values.
Proof.
  intros Hread Hon Hne Hsemi Heq Hhttp Hhttps.
  eexists. split; [apply FromEnvironment_cases | ].
  cbv zeta. rewrite Hread. cbn [fst snd].
  rewrite (proj2 (Z.gtb_lt _ _)) by exact Hon.
  cbn [HTTPProxy HTTPSProxy NoProxy CGI].
  rewrite !decide_True by assumption.
  rewrite !chosen_single by assumption.
  split; reflexivity.
Qed.

End Proxy.

Lemma fromWindowsProxy_reads_witness :
  proxy.fromWindowsProxy
    (sample_proxy.user_registry (sample_proxy.key "proxy:8080" "a;b" 2))
  = ({| proxy.ProxyServer := "proxy:8080"; proxy.ProxyOverride := "a;b";
        proxy.ProxyEnable := 2; proxy.AutoConfigURL := "" |}, None).
Proof.
  exact (proj2 (fromWindowsProxy_reads
                  (sample_proxy.user_registry
                     (sample_proxy.key "proxy:8080" "a;b" 2))) eq_refl).
Defined.

Lemma FromEnvironment_environment_witness :
  let env := [("HTTP_PROXY", "http://env:3128")]%string in
  let reg := sample_proxy.user_registry (sample_proxy.key "proxy:8080" "a;b" 1) in
  exists cfg,
    proxy.FromEnvironment (sample_proxy.Getenv env) (sample_proxy.getEnvAny env) reg
    = Ok cfg /\
    proxy.HTTPProxy cfg = "http://env:3128"%string /\
    proxy.HTTPSProxy cfg = EmptyString /\ proxy.NoProxy cfg = EmptyString.
Proof.
  cbv zeta.
  destruct (FromEnvironment_environment
              (sample_proxy.Getenv [("HTTP_PROXY", "http://env:3128")]%string)
              (sample_proxy.getEnvAny [("HTTP_PROXY", "http://env:3128")]%string)
              (sample_proxy.user_registry (sample_proxy.key "proxy:8080" "a;b" 1)))
    as (cfg & Hrun & _ & _ & _ & _ & Hoff).
  exists cfg. split; [exact Hrun | ].
  apply Hoff. right. vm_compute. discriminate.
Defined.

Lemma FromEnvironment_registry_witness :
  let env := [("HTTP_PROXY", "http://env:3128")]%string in
  let reg :=
    sample_proxy.user_registry
      (sample_proxy.key "http=one:80;https=two:443;three:1080" "a;b" 2) in
  exists cfg,
    proxy.FromEnvironment (sample_proxy.Getenv env) (sample_proxy.getEnvAny env) reg
    = Ok cfg /\
    proxy.HTTPSProxy cfg = "two:443"%string /\
    proxy.NoProxy cfg = "a,b"%string.
Proof.
  cbv zeta.
  destruct (FromEnvironment_registry
              (sample_proxy.Getenv [("HTTP_PROXY", "http://env:3128")]%string)
              (sample_proxy.getEnvAny [("HTTP_PROXY", "http://env:3128")]%string)
              (sample_proxy.user_registry
                 (sample_proxy.key "http=one:80;https=two:443;three:1080" "a;b" 2))
              _ eq_refl eq_refl)
    as (cfg & Hrun & _ & Hhttps & Hno).
  exists cfg. split; [exact Hrun | ].
  split; [exact (Hhttps eq_refl) | exact (Hno eq_refl)].
Defined.

Lemma FromEnvironment_single_server_witness :
  let reg := sample_proxy.user_registry (sample_proxy.key "proxy:8080" EmptyString 2) in
  exists cfg,
    proxy.FromEnvironment (sample_proxy.Getenv []) (sample_proxy.getEnvAny []) reg
    = Ok cfg /\
    proxy.HTTPProxy cfg = "proxy:8080"%string /\
    proxy.HTTPSProxy cfg = "proxy:8080"%string.
Proof.
  cbv zeta.
  apply (FromEnvironment_single_server
           (sample_proxy.Getenv []) (sample_proxy.getEnvAny [])
           (sample_proxy.user_registry (sample_proxy.key "proxy:8080" EmptyString 2))
           {| proxy.ProxyServer := "proxy:8080"; proxy.ProxyOverride := EmptyString;
              proxy.ProxyEnable := 2; proxy.AutoConfigURL := "" |}).
  - reflexivity.
  - cbn. lia.
  - discriminate.
  - cbn. repeat split; discriminate.
  - cbn. repeat split; discriminate.
  - reflexivity.
  - reflexivity.
Defined.

(** The configuration for a registry with one proxy per scheme, the
    environment giving none. *)
Example proxy_runs :
  proxy.FromEnvironment (sample_proxy.Getenv []) (sample_proxy.getEnvAny [])
    (sample_proxy.user_registry
       (sample_proxy.key "http=one:80;;=four;https=two:443;three:1080"
          "*.local;<local>" 3))
  = Ok {| proxy.HTTPProxy := "one:80"; proxy.HTTPSProxy := "two:443";
          proxy.NoProxy := "*.local,<local>"; proxy.CGI := false |}.
Proof. vm_compute. reflexivity. Qed.

(** * Properties of [stringNoCRUD] *)
Section Crud.

Import zeta.

(** ** On ASCII strings *)

Lemma DecodeRune_ascii (b : Z) (rest : list Z) :
  is_ascii b -> utf8.DecodeRune (b :: rest) = (b, 1).
Proof.
  intros [Hlo Hhi]. unfold utf8.DecodeRune. cbv zeta.
  cbn [length utf8.at_ nth].
  rewrite (proj2 (Z.ltb_ge _ _)) by lia.
  unfold utf8.first. rewrite (proj2 (Z.ltb_lt b 128)) by lia.
  closed (utf8.as_ >=? utf8.as_). cbv iota.
  closed (Z.shiftr (i32 (Z.shiftl utf8.as_ 31)) 31).
  closed (Z.lnot 0).
  rewrite Z.land_0_r, Z.lor_0_r, Z.land_m1_r. reflexivity.
Qed.

Lemma DecodeLastRune_ascii (q : list Z) (b : Z) :
  is_ascii b -> utf8.DecodeLastRune (q ++ [b]) = (b, 1).
Proof.
  intros [Hlo Hhi]. unfold utf8.DecodeLastRune. cbv zeta.
  rewrite length_app. cbn [length].
  rewrite (proj2 (Z.eqb_neq _ _)) by lia.
  replace (Z.to_nat (Z.of_nat (length q + 1) - 1)) with (length q) by lia.
  unfold utf8.at_. rewrite app_nth2 by lia. rewrite Nat.sub_diag. cbn [nth].
  unfold utf8.RuneSelf. rewrite (proj2 (Z.ltb_lt b 128)) by lia.
  reflexivity.
Qed.

Lemma indexFunc_loop_ascii (f : Z -> bool) (s : list Z) :
  Forall is_ascii s ->
  forall (todo i : nat),
    (i <= length s)%nat -> (length s - i <= todo)%nat ->
    let r := strings.indexFunc_loop todo s i f false in
    (r = -1 /\ strip f (drop i s) = [])
    \/ (0 <= r /\ drop (Z.to_nat r) s = strip f (drop i s)).
Proof.
  intros Hs todo. induction todo as [ | todo IH]; intros i Hi Htodo; cbv zeta.
  - left. split; [reflexivity | ].
    rewrite drop_ge by lia. reflexivity.
  - cbn [strings.indexFunc_loop].
    destruct (Nat.ltb_spec i (length s)) as [Hlt | Hge].
    + destruct (lookup_lt_is_Some_2 s i Hlt) as [b Hb].
      rewrite (drop_S s b i Hb).
      assert (Hascii : is_ascii b)
        by (exact (proj1 (Forall_lookup is_ascii s) Hs i b Hb)).
      rewrite (DecodeRune_ascii b _ Hascii). cbn [strip].
      destruct (f b) eqn:Hf; cbn [Bool.eqb].
      * replace (i + Z.to_nat 1)%nat with (S i) by lia.
        apply IH; lia.
      * right. split; [lia | ].
        rewrite Nat2Z.id. apply drop_S. exact Hb.
    + left. split; [reflexivity | ].
      rewrite drop_ge by lia. reflexivity.
Qed.

Lemma TrimLeftFunc_ascii (f : Z -> bool) (s : list Z) :
  Forall is_ascii s -> strings.TrimLeftFunc s f = strip f s.
Proof.
  intros Hs. unfold strings.TrimLeftFunc, strings.indexFunc. cbv zeta.
  destruct (indexFunc_loop_ascii f s Hs (length s) 0 ltac:(lia) ltac:(lia))
    as [[Hr Hnil] | [Hr Hdrop]]; cbv zeta in *.
  - rewrite Hr. rewrite drop_0 in Hnil. rewrite Hnil. reflexivity.
  - rewrite (proj2 (Z.eqb_neq _ _)) by lia.
    rewrite Hdrop, drop_0. reflexivity.
Qed.

Lemma lastIndexFunc_loop_ascii (f : Z -> bool) (s : list Z) :
  Forall is_ascii s ->
  forall (todo n : nat),
    (n <= length s)%nat -> (n <= todo)%nat ->
    let r := strings.lastIndexFunc_loop todo s (Z.of_nat n) f false in
    -1 <= r < Z.of_nat n /\
    take (Z.to_nat (r + 1)) s = rev (strip f (rev (take n s))).
Proof.
  intros Hs todo. induction todo as [ | todo IH]; intros n Hn Htodo; cbv zeta.
  - assert (n = 0%nat) as -> by lia.
    cbn [strings.lastIndexFunc_loop]. split; [lia | reflexivity].
  - cbn [strings.lastIndexFunc_loop].
    destruct n as [ | m].
    + change (Z.of_nat 0 >? 0) with false. cbv iota.
      split; [lia | reflexivity].
    + rewrite (proj2 (Z.gtb_lt _ _)) by lia.
      rewrite Nat2Z.id.
      destruct (lookup_lt_is_Some_2 s m ltac:(lia)) as [b Hb].
      rewrite (take_S_r s m b Hb).
      assert (Hascii : is_ascii b)
        by (exact (proj1 (Forall_lookup is_ascii s) Hs m b Hb)).
      rewrite (DecodeLastRune_ascii _ b Hascii).
      replace (Z.of_nat (S m) - 1) with (Z.of_nat m) by lia.
      rewrite rev_app_distr. cbn [rev app strip].
      destruct (f b) eqn:Hf; cbn [Bool.eqb].
      * destruct (IH m ltac:(lia) ltac:(lia)) as [Hr Htake].
        split; [lia | exact Htake].
      * split; [lia | ].
        replace (Z.to_nat (Z.of_nat m + 1)) with (S m) by lia.
        rewrite (take_S_r s m b Hb). cbn [rev].
        rewrite rev_involutive. reflexivity.
Qed.

Lemma TrimRightFunc_ascii (f : Z -> bool) (s : list Z) :
  Forall is_ascii s -> strings.TrimRightFunc s f = rev (strip f (rev s)).
Proof.
  intros Hs. unfold strings.TrimRightFunc, strings.lastIndexFunc. cbv zeta.
  destruct (lastIndexFunc_loop_ascii f s Hs (length s) (length s)
              ltac:(lia) ltac:(lia)) as [Hr Htake]; cbv zeta in *.
  rewrite firstn_all in Htake.
  set (r := strings.lastIndexFunc_loop _ _ _ _ _) in *.
  assert (Hsmall : (r >=? 0) && (utf8.at_ s (Z.to_nat r) >=? utf8.RuneSelf)
                   = false).
  { destruct (Z.geb_spec r 0) as [Hpos | Hneg]; [ | reflexivity].
    cbn [andb]. unfold utf8.at_.
    destruct (lookup_lt_is_Some_2 s (Z.to_nat r) ltac:(lia)) as [b Hb].
    rewrite (nth_lookup_Some s (Z.to_nat r) 0 b Hb).
    pose proof (proj1 (Forall_lookup is_ascii s) Hs _ b Hb) as [_ Hhi].
    unfold utf8.RuneSelf. rewrite Z.geb_leb. apply Z.leb_gt. exact Hhi. }
  rewrite Hsmall. exact Htake.
Qed.

Lemma AppendRune_ascii (p : list Z) (c : Z) :
  is_ascii c -> utf8.AppendRune p c = p ++ [c].
Proof.
  intros [Hlo Hhi]. unfold utf8.AppendRune. cbv zeta.
  rewrite u32_small by lia.
  closed utf8.rune1Max. rewrite (proj2 (Z.leb_le c 127)) by lia.
  unfold byte. rewrite Z.mod_small by lia. reflexivity.
Qed.

Lemma stringNoCRUD_loop_ascii (s : list Z) :
  Forall is_ascii s ->
  forall (todo i : nat) (b : list Z),
    (length s - i <= todo)%nat ->
    stringNoCRUD_loop todo s i b
    = b ++ List.filter (fun c => negb (barred c)) (drop i s).
Proof.
  intros Hs todo. induction todo as [ | todo IH]; intros i b Htodo.
  - rewrite drop_ge by lia. cbn. rewrite app_nil_r. reflexivity.
  - cbn [stringNoCRUD_loop].
    destruct (Nat.ltb_spec i (length s)) as [Hlt | Hge].
    + destruct (lookup_lt_is_Some_2 s i Hlt) as [c Hc].
      rewrite (drop_S s c i Hc).
      assert (Hascii : is_ascii c)
        by (exact (proj1 (Forall_lookup is_ascii s) Hs i c Hc)).
      rewrite (DecodeRune_ascii c _ Hascii).
      replace (i + Z.to_nat 1)%nat with (S i) by lia.
      cbn [List.filter].
      change (barred c) with ((c =? 10) || (c =? 60) || (c =? 62)).
      destruct ((c =? 10) || (c =? 60) || (c =? 62)); cbn [negb].
      * apply IH. lia.
      * rewrite IH by lia. rewrite (AppendRune_ascii b c Hascii).
        rewrite <- app_assoc. reflexivity.
    + rewrite drop_ge by lia. cbn. rewrite app_nil_r. reflexivity.
Qed.

Lemma Forall_strip (P : Z -> Prop) (f : Z -> bool) (s : list Z) :
  Forall P s -> Forall P (strip f s).
Proof.
  induction 1 as [ | b s Hb Hs IH]; cbn [strip]; [constructor | ].
  destruct (f b); [exact IH | constructor; assumption].
Qed.

Lemma Forall_filter_bool (P : Z -> Prop) (g : Z -> bool) (s : list Z) :
  Forall P s -> Forall P (List.filter g s).
Proof.
  induction 1 as [ | b s Hb Hs IH]; cbn [List.filter]; [constructor | ].
  destruct (g b); [constructor; assumption | exact IH].
Qed.

Lemma filter_twice (g : Z -> bool) (s : list Z) :
  List.filter g (List.filter g s) = List.filter g s.
Proof.
  induction s as [ | b s IH]; [reflexivity | ].
  cbn [List.filter]. destruct (g b) eqn:Hg; [ | exact IH].
  cbn [List.filter]. rewrite Hg, IH. reflexivity.
Qed.

Lemma strip_head (f : Z -> bool) (s : list Z) :
  strip f s = [] \/ exists b t, strip f s = b :: t /\ f b = false.
Proof.
  induction s as [ | b s IH]; [left; reflexivity | ].
  cbn [strip]. destruct (f b) eqn:Hf; [exact IH | ].
  right. exists b, s. split; [reflexivity | exact Hf].
Qed.

Lemma strip_snoc (f : Z -> bool) (l : list Z) (b : Z) :
  f b = false -> strip f (l ++ [b]) = strip f l ++ [b].
Proof.
  intros Hf. induction l as [ | x l IH]; cbn [app strip].
  - rewrite Hf. reflexivity.
  - destruct (f x); [exact IH | reflexivity].
Qed.

(** What is left after stripping both ends starts and ends with an
    element that does not satisfy [f]. *)
Lemma strip_both_ends (f : Z -> bool) (s : list Z) :
  strip_both f s = []
  \/ (exists b m, strip_both f s = b :: m /\ f b = false)
     /\ (exists m c, strip_both f s = m ++ [c] /\ f c = false).
Proof.
  unfold strip_both.
  destruct (strip_head f s) as [-> | (b & t & -> & Hb)]; [left; reflexivity | ].
  right. cbn [rev]. rewrite (strip_snoc f (rev t) b Hb). split.
  - exists b, (rev (strip f (rev t))).
    rewrite rev_app_distr. split; [reflexivity | exact Hb].
  - destruct (strip_head f (rev t ++ [b])) as [Hnil | (c & w & Hcw & Hc)].
    + rewrite (strip_snoc f (rev t) b Hb) in Hnil.
      destruct (strip f (rev t)); discriminate Hnil.
    + rewrite (strip_snoc f (rev t) b Hb) in Hcw. rewrite Hcw.
      exists (rev w), c. split; [reflexivity | exact Hc].
Qed.

Lemma barred_crud (b : Z) : crud b = false -> barred b = false.
Proof.
  unfold crud, barred. intros Hc.
  repeat match type of Hc with
         | (_ || _) = false => apply orb_false_elim in Hc; destruct Hc as [Hc ?]
         end.
  apply Z.leb_gt in Hc.
  rewrite (proj2 (Z.eqb_neq b 10)) by lia.
  cbn [orb]. apply orb_false_intro; assumption.
Qed.

(** A string that starts and ends with a character that is not crud is
    left alone by the stripping, and so is what the filter keeps of it. *)
Lemma strip_both_filter (u : list Z) :
  (u = []
   \/ (exists b m, u = b :: m /\ crud b = false)
      /\ (exists m c, u = m ++ [c] /\ crud c = false)) ->
  let t := List.filter (fun c => negb (barred c)) u in
  strip_both crud t = t
  /\ (forall b, head t = Some b \/ last t = Some b -> crud b = false).
Proof.
  intros [-> | [(b & m & Hhead & Hb) (m' & c & Hlast & Hc)]]; cbv zeta.
  - split; [reflexivity | ]. intros b [Hb | Hb]; discriminate Hb.
  - assert (Hfront : List.filter (fun c => negb (barred c)) u
                     = b :: List.filter (fun c => negb (barred c)) m).
    { rewrite Hhead. cbn [List.filter].
      rewrite (barred_crud b Hb). reflexivity. }
    assert (Hback : List.filter (fun c => negb (barred c)) u
                    = List.filter (fun c => negb (barred c)) m' ++ [c]).
    { rewrite Hlast, List.filter_app. cbn [List.filter].
      rewrite (barred_crud c Hc). reflexivity. }
    split.
    + unfold strip_both. rewrite Hfront at 1. cbn [strip]. rewrite Hb.
      rewrite <- Hfront. rewrite Hback at 1.
      rewrite rev_app_distr. cbn [rev app strip]. rewrite Hc.
      change (c :: rev (List.filter (fun c => negb (barred c)) m'))
        with (rev [c] ++ rev (List.filter (fun c => negb (barred c)) m')).
      rewrite <- rev_app_distr, rev_involutive. symmetry. exact Hback.
    + intros x [Hx | Hx].
      * rewrite Hfront in Hx. cbn in Hx. congruence.
      * rewrite Hback, last_snoc in Hx. congruence.
Qed.

(** X29. On an ASCII string, [stringNoCRUD] strips the crud characters
    (controls and space, comma, colon, semicolon, angle brackets, both
    quotes and the backslash) from both ends and then drops every
    newline, [<] and [>] left inside.
    The result does not start or end with a crud character, and
    cleaning it again changes nothing. *)
Theorem stringNoCRUD_ascii (s : list Z) :
  Forall is_ascii s ->
  stringNoCRUD s = List.filter (fun c => negb (barred c)) (strip_both crud s)
  /\ (forall b, head (stringNoCRUD s) = Some b \/ last (stringNoCRUD s) = Some b ->
                crud b = false)
  /\ stringNoCRUD (stringNoCRUD s) = stringNoCRUD s.
Proof.
  assert (Hrun : forall u, Forall is_ascii u ->
            stringNoCRUD u
            = List.filter (fun c => negb (barred c)) (strip_both crud u)).
  { intros u Hu. unfold stringNoCRUD. cbv zeta.
    rewrite (TrimLeftFunc_ascii crud u Hu).
    assert (Hu1 : Forall is_ascii (strip crud u))
      by (apply Forall_strip; exact Hu).
    rewrite (TrimRightFunc_ascii crud _ Hu1).
    assert (Hu2 : Forall is_ascii (rev (strip crud (rev (strip crud u))))).
    { apply Forall_rev, Forall_strip, Forall_rev. exact Hu1. }
    rewrite (stringNoCRUD_loop_ascii _ Hu2) by lia.
    rewrite drop_0. reflexivity. }
  intros Hs.
  destruct (strip_both_filter (strip_both crud s) (strip_both_ends crud s))
    as [Hfix Hends].
  rewrite (Hrun s Hs).
  split; [reflexivity | ].
  split; [exact Hends | ].
  rewrite Hrun.
  - rewrite Hfix. apply filter_twice.
  - apply Forall_filter_bool. unfold strip_both.
    apply Forall_rev, Forall_strip, Forall_rev, Forall_strip. exact Hs.
Qed.

(** ** On every string *)

Lemma lor_bound (n a b : Z) :
  0 <= a < 2 ^ n -> 0 <= b < 2 ^ n -> 0 <= Z.lor a b < 2 ^ n.
Proof.
  intros Ha Hb.
  assert (Hnn : 0 <= Z.lor a b) by (apply Z.lor_nonneg; lia).
  split; [exact Hnn | ].
  destruct (Z.eq_dec (Z.lor a b) 0) as [-> | Hne]; [lia | ].
  assert (Hn : 0 < n).
  { destruct (Z.lt_ge_cases 0 n) as [ | Hle]; [assumption | exfalso].
    assert (2 ^ n <= 1).
    { destruct (Z.eq_dec n 0) as [-> | ]; [cbn; lia | ].
      rewrite Z.pow_neg_r by lia. lia. }
    assert (a = 0) as -> by lia. assert (b = 0) as -> by lia.
    apply Hne. reflexivity. }
  apply Z.log2_lt_pow2; [lia | ].
  rewrite Z.log2_lor by lia.
  assert (Hlog : forall x, 0 <= x < 2 ^ n -> Z.log2 x < n).
  { intros x Hx. destruct (Z.eq_dec x 0) as [-> | ]; [cbn; lia | ].
    apply Z.log2_lt_pow2; lia. }
  apply Z.max_lub_lt; apply Hlog; assumption.
Qed.

Lemma field_bound (a j k : Z) :
  0 <= j -> 0 <= k ->
  0 <= Z.shiftl (Z.land a (Z.ones j)) k < 2 ^ (j + k).
Proof.
  intros Hj Hk.
  rewrite Z.land_ones, Z.shiftl_mul_pow2, Z.pow_add_r by lia.
  pose proof (Z.mod_pos_bound a (2 ^ j) ltac:(lia)).
  assert (0 < 2 ^ k) by lia. nia.
Qed.

Lemma at_byte (p : list Z) (k : nat) : Forall is_byte p -> is_byte (utf8.at_ p k).
Proof.
  intros Hp. unfold utf8.at_.
  destruct (nth_in_or_default k p 0) as [Hin | ->]; [ | unfold is_byte; lia].
  rewrite List.Forall_forall in Hp. apply Hp. exact Hin.
Qed.

Lemma DecodeRune_range (p : list Z) :
  Forall is_byte p -> 0 <= fst (utf8.DecodeRune p) < 2 ^ 32.
Proof.
  intros Hp. unfold utf8.DecodeRune. cbv zeta.
  pose proof (at_byte p 0 Hp) as H0.
  set (p0 := utf8.at_ p 0) in *.
  set (b1 := utf8.at_ p 1). set (b2 := utf8.at_ p 2). set (b3 := utf8.at_ p 3).
  assert (Herr : 0 <= utf8.RuneError < 2 ^ 32) by (unfold utf8.RuneError; lia).
  assert (Hx : forall a, 0 <= Z.land a utf8.maskx < 2 ^ 32).
  { intros a. pose proof (field_bound a 6 0 ltac:(lia) ltac:(lia)) as Hf.
    rewrite Z.shiftl_0_r in Hf. change (Z.ones 6) with utf8.maskx in Hf.
    change (2 ^ (6 + 0)) with 64 in Hf. lia. }
  assert (H2 : forall a, 0 <= Z.shiftl (Z.land a utf8.mask2) 6 < 2 ^ 32).
  { intros a. pose proof (field_bound a 5 6 ltac:(lia) ltac:(lia)) as Hf.
    change (Z.ones 5) with utf8.mask2 in Hf.
    change (2 ^ (5 + 6)) with 2048 in Hf. lia. }
  assert (H3 : forall a, 0 <= Z.shiftl (Z.land a utf8.mask3) 12 < 2 ^ 32).
  { intros a. pose proof (field_bound a 4 12 ltac:(lia) ltac:(lia)) as Hf.
    change (Z.ones 4) with utf8.mask3 in Hf.
    change (2 ^ (4 + 12)) with 65536 in Hf. lia. }
  assert (H4 : forall a, 0 <= Z.shiftl (Z.land a utf8.mask4) 18 < 2 ^ 32).
  { intros a. pose proof (field_bound a 3 18 ltac:(lia) ltac:(lia)) as Hf.
    change (Z.ones 3) with utf8.mask4 in Hf.
    change (2 ^ (3 + 18)) with 2097152 in Hf. lia. }
  assert (Hx6 : forall a, 0 <= Z.shiftl (Z.land a utf8.maskx) 6 < 2 ^ 32).
  { intros a. pose proof (field_bound a 6 6 ltac:(lia) ltac:(lia)) as Hf.
    change (Z.ones 6) with utf8.maskx in Hf.
    change (2 ^ (6 + 6)) with 4096 in Hf. lia. }
  assert (Hx12 : forall a, 0 <= Z.shiftl (Z.land a utf8.maskx) 12 < 2 ^ 32).
  { intros a. pose proof (field_bound a 6 12 ltac:(lia) ltac:(lia)) as Hf.
    change (Z.ones 6) with utf8.maskx in Hf.
    change (2 ^ (6 + 12)) with 262144 in Hf. lia. }
  destruct (Z.of_nat (length p) <? 1); [exact Herr | ].
  destruct (utf8.first p0 >=? utf8.as_) eqn:Hfirst.
  - cbn [fst].
    pose proof (first_values p0) as Hv. cbn [In] in Hv.
    destruct Hv as [Hv | [Hv | Hv]].
    + rewrite <- Hv.
      closed (Z.shiftr (i32 (Z.shiftl utf8.as_ 31)) 31). closed (Z.lnot 0).
      rewrite Z.land_0_r, Z.lor_0_r, Z.land_m1_r.
      unfold is_byte in H0. lia.
    + rewrite <- Hv.
      closed (Z.shiftr (i32 (Z.shiftl utf8.xx 31)) 31). closed (Z.lnot (-1)).
      rewrite Z.land_0_r, Z.lor_0_l, Z.land_m1_r. exact Herr.
    + exfalso.
      repeat destruct Hv as [Hv | Hv]; try contradiction;
        rewrite <- Hv in Hfirst; discriminate Hfirst.
  - repeat match goal with
           | |- context [if ?c then _ else _] => destruct c
           end;
      cbn [fst]; try exact Herr;
      repeat apply lor_bound; auto.
Qed.

Lemma lor_high (t x : Z) :
  is_byte t -> is_byte x -> Z.testbit t 7 = true -> clean (Z.lor t x).
Proof.
  intros Ht Hx Hbit. split.
  - unfold is_byte in *. change 256 with (2 ^ 8) in *.
    apply lor_bound; assumption.
  - assert (Hne : forall c, Z.testbit c 7 = false -> Z.lor t x <> c).
    { intros c Hc He. apply (f_equal (fun z => Z.testbit z 7)) in He.
      rewrite Z.lor_spec, Hbit, Hc in He. discriminate He. }
    unfold barred.
    rewrite (proj2 (Z.eqb_neq _ 10)), (proj2 (Z.eqb_neq _ 60)),
      (proj2 (Z.eqb_neq _ 62)) by (apply Hne; reflexivity).
    reflexivity.
Qed.

Lemma AppendRune_clean (p : list Z) (c : Z) :
  0 <= c < 2 ^ 32 -> barred c = false ->
  Forall clean p -> Forall clean (utf8.AppendRune p c).
Proof.
  intros Hc Hbar Hp. unfold utf8.AppendRune. cbv zeta.
  rewrite u32_small by lia.
  assert (Hbyte : forall z, is_byte (byte z))
    by (intros z; unfold is_byte, byte; apply Z.mod_pos_bound; lia).
  assert (Hlow : forall z, is_byte (Z.land (byte z) utf8.maskx)).
  { intros z. change utf8.maskx with (Z.ones 6). rewrite Z.land_ones by lia.
    pose proof (Z.mod_pos_bound (byte z) (2 ^ 6) ltac:(lia)).
    unfold is_byte. lia. }
  assert (Hcont : forall z, clean (Z.lor utf8.tx (Z.land (byte z) utf8.maskx))).
  { intros z. apply lor_high; [unfold is_byte, utf8.tx; lia | apply Hlow
                               | reflexivity]. }
  assert (Hlead : forall t z, In t [utf8.t2; utf8.t3; utf8.t4] ->
                              clean (Z.lor t (byte z))).
  { intros t z Ht. cbn [In] in Ht.
    destruct Ht as [<- | [<- | [<- | []]]];
      (apply lor_high;
       [unfold is_byte, utf8.t2, utf8.t3, utf8.t4; lia | apply Hbyte
       | reflexivity]). }
  closed utf8.rune1Max. closed utf8.rune2Max. closed utf8.rune3Max.
  destruct (Z.leb_spec c 127) as [Hascii | Hmulti].
  - apply Forall_app. split; [exact Hp | ].
    constructor; [ | constructor].
    unfold byte. rewrite Z.mod_small by lia.
    split; [unfold is_byte; lia | exact Hbar].
  - repeat match goal with
           | |- context [if ?b then _ else _] => destruct b
           end;
      apply Forall_app; (split; [exact Hp | ]);
      repeat (constructor;
              [first [apply Hcont | apply Hlead; cbn [In]; tauto] | ]);
      constructor.
Qed.

Lemma stringNoCRUD_loop_clean (s : list Z) :
  Forall is_byte s ->
  forall (todo i : nat) (b : list Z),
    Forall clean b -> Forall clean (stringNoCRUD_loop todo s i b).
Proof.
  intros Hs todo. induction todo as [ | todo IH]; intros i b Hb; [exact Hb | ].
  cbn [stringNoCRUD_loop].
  destruct (i <? length s)%nat; [ | exact Hb].
  pose proof (DecodeRune_range (drop i s) (Forall_drop _ _ _ Hs)) as Hr.
  destruct (utf8.DecodeRune (drop i s)) as [c size]. cbn [fst] in Hr.
  destruct ((c =? 10) || (c =? 60) || (c =? 62)) eqn:Hbar.
  - apply IH. exact Hb.
  - apply IH. apply AppendRune_clean; assumption.
Qed.

(** X28. Whatever bytes the string holds, valid UTF-8 or not, the
    result of [stringNoCRUD] is a string of bytes that contains no
    newline, no [<] and no [>]. *)
Theorem stringNoCRUD_clean (s : list Z) :
  Forall is_byte s ->
  Forall (fun b => is_byte b /\ b <> 10 /\ b <> 60 /\ b <> 62) (stringNoCRUD s).
Proof.
  intros Hs.
  assert (Hclean : Forall clean (stringNoCRUD s)).
  { unfold stringNoCRUD. cbv zeta.
    apply stringNoCRUD_loop_clean; [ | constructor].
    unfold strings.TrimRightFunc, strings.TrimLeftFunc. cbv zeta.
    apply Forall_take.
    destruct (strings.indexFunc s crud false =? -1); [constructor | ].
    apply Forall_drop. exact Hs. }
  apply (Forall_impl _ _ _ Hclean).
  intros b [Hb Hbar]. split; [exact Hb | ].
  unfold barred in Hbar.
  apply orb_false_elim in Hbar. destruct Hbar as [Hbar H62].
  apply orb_false_elim in Hbar. destruct Hbar as [H10 H60].
  apply Z.eqb_neq in H10, H60, H62. auto.
Qed.

End Crud.

Lemma stringNoCRUD_clean_witness :
  Forall (fun b => is_byte b /\ b <> 10 /\ b <> 60 /\ b <> 62)
         (zeta.stringNoCRUD [32; 60; 0xC3; 0xA9; 10; 0xFF; 62; 97; 44]).
Proof.
  apply stringNoCRUD_clean.
  repeat (constructor; [unfold is_byte; lia | ]). constructor.
Defined.

Lemma stringNoCRUD_ascii_witness :
  let s := [32; 60; 74; 111; 44; 32; 60; 68; 111; 101; 62; 10; 59] in
  zeta.stringNoCRUD s = [74; 111; 44; 32; 68; 111; 101]
  /\ zeta.stringNoCRUD (zeta.stringNoCRUD s) = zeta.stringNoCRUD s.
Proof.
  cbv zeta.
  destruct (stringNoCRUD_ascii
              [32; 60; 74; 111; 44; 32; 60; 68; 111; 101; 62; 10; 59])
    as (Hrun & _ & Hagain).
  - repeat (constructor; [unfold is_ascii; lia | ]). constructor.
  - split; [rewrite Hrun; vm_compute; reflexivity | exact Hagain].
Defined.

(** Bytes that are not UTF-8 come out as U+FFFD; what is inside the
    string and is not barred stays. *)
Example stringNoCRUD_runs :
  zeta.stringNoCRUD [32; 60; 0xC3; 0xA9; 10; 0xFF; 62; 97; 44]
  = [0xC3; 0xA9; 0xEF; 0xBF; 0xBD; 97].
Proof. vm_compute. reflexivity. Qed.

(** * Properties of [SimpleAtob] *)
Section Atob.

Import strengthen.

Variable unicode_ToLower_Map : list ascii -> list ascii.

Lemma byte_of_range (c : ascii) : 0 <= strings.byte_of c < 256.
Proof.
  unfold strings.byte_of. pose proof (N_ascii_bounded c). lia.
Qed.

Lemma lower_byte_none (s : list ascii) :
  existsb strings.isUpper s = false -> map strings.lower_byte s = s.
Proof.
  induction s as [ | c s IH]; [reflexivity | ].
  cbn [existsb map]. intros Hs.
  apply orb_false_elim in Hs. destruct Hs as [Hc Hs].
  unfold strings.lower_byte at 1. rewrite Hc, (IH Hs). reflexivity.
Qed.

Lemma ToLower_ascii (s : list ascii) :
  forallb (fun c => strings.byte_of c <? 0x80) s = true ->
  strings.ToLower unicode_ToLower_Map s = map strings.lower_byte s.
Proof.
  intros Hs. unfold strings.ToLower. cbv zeta. rewrite Hs.
  destruct (existsb strings.isUpper s) eqn:Hup; cbn [negb]; [reflexivity | ].
  symmetry. apply lower_byte_none. exact Hup.
Qed.

(** A letter of [s] against the letter of the word it spells. *)
Lemma lower_byte_spelled (cw cs : ascii) :
  strings.isUpper cw = false -> strings.byte_of cw < 0x80 ->
  cs = cw
  \/ (0x61 <= strings.byte_of cw <= 0x7A
      /\ strings.byte_of cs + 32 = strings.byte_of cw) ->
  strings.lower_byte cs = cw /\ strings.byte_of cs < 0x80.
Proof.
  intros Hplain Hascii [-> | [Hlow Hup]].
  - unfold strings.lower_byte. rewrite Hplain. split; [reflexivity | exact Hascii].
  - pose proof (byte_of_range cs) as Hcs.
    unfold strings.lower_byte, strings.isUpper.
    rewrite (proj2 (Z.leb_le 0x41 _)), (proj2 (Z.leb_le _ 0x5A)) by lia.
    cbn [andb]. split; [ | lia].
    unfold strings.byte_of in Hup.
    replace (N_of_ascii cs + 32)%N with (N_of_ascii cw) by lia.
    apply ascii_N_embedding.
Qed.

Lemma lower_byte_spells (cs : ascii) :
  cs = strings.lower_byte cs
  \/ (0x61 <= strings.byte_of (strings.lower_byte cs) <= 0x7A
      /\ strings.byte_of cs + 32 = strings.byte_of (strings.lower_byte cs)).
Proof.
  unfold strings.lower_byte.
  destruct (strings.isUpper cs) eqn:Hup; [right | left; reflexivity].
  unfold strings.isUpper in Hup. apply andb_prop in Hup.
  destruct Hup as [Hlo Hhi]. apply Z.leb_le in Hlo, Hhi.
  unfold strings.byte_of in *.
  rewrite N_ascii_embedding by lia. lia.
Qed.

Lemma spells_ToLower (w s : list ascii) :
  forallb (fun c => negb (strings.isUpper c) && (strings.byte_of c <? 0x80)) w
  = true ->
  spells w s -> strings.ToLower unicode_ToLower_Map s = w.
Proof.
  intros Hw Hspell.
  assert (Hpoint : map strings.lower_byte s = w
                   /\ forallb (fun c => strings.byte_of c <? 0x80) s = true).
  { induction Hspell as [ | cw cs w s Hc Hrest IH]; [split; reflexivity | ].
    cbn [forallb] in Hw. apply andb_prop in Hw. destruct Hw as [Hcw Hw].
    apply andb_prop in Hcw. destruct Hcw as [Hplain Hascii].
    apply negb_true_iff in Hplain. apply Z.ltb_lt in Hascii.
    destruct (lower_byte_spelled cw cs Hplain Hascii Hc) as [Hlow Hcs].
    destruct (IH Hw) as [Hmap Hall].
    cbn [map forallb]. rewrite Hlow, Hmap, Hall.
    rewrite (proj2 (Z.ltb_lt _ _)) by exact Hcs. split; reflexivity. }
  destruct Hpoint as [Hmap Hall].
  rewrite (ToLower_ascii s Hall). exact Hmap.
Qed.

Lemma ToLower_spells (s : list ascii) :
  spells (map strings.lower_byte s) s.
Proof.
  induction s as [ | c s IH]; [constructor | ].
  cbn [map]. constructor; [ | exact IH].
  destruct (lower_byte_spells c) as [Hc | Hc]; [left; exact Hc | right; exact Hc].
Qed.

(** X30. [SimpleAtob] reads the words without regard to ASCII case: a
    string that spells true, yes, on or 1 gives true and a string that
    spells false, no, off or 0 gives false, whatever the default; any
    other ASCII string gives the default. *)
Theorem SimpleAtob_words (s : gostring) (dv : bool) :
  (spells_one true_words s -> SimpleAtob unicode_ToLower_Map s dv = true)
  /\ (spells_one false_words s -> SimpleAtob unicode_ToLower_Map s dv = false)
  /\ (Forall (fun c => strings.byte_of c < 0x80) s ->
      ~ spells_one true_words s -> ~ spells_one false_words s ->
      SimpleAtob unicode_ToLower_Map s dv = dv).
Proof.
  assert (Hword : forall w,
            In w (true_words ++ false_words) -> spells (list_ascii_of_string w) s ->
            strings.ToLower unicode_ToLower_Map s = list_ascii_of_string w).
  { intros w Hin Hsp. apply spells_ToLower; [ | exact Hsp].
    cbn [true_words false_words app In] in Hin.
    repeat destruct Hin as [<- | Hin]; try contradiction; reflexivity. }
  assert (Hfound : forall ws,
            existsb (fun w => bool_decide
                       (strings.ToLower unicode_ToLower_Map s
                        = list_ascii_of_string w)) ws = true ->
            Forall (fun c => strings.byte_of c < 0x80) s ->
            spells_one ws s).
  { intros ws Hex Hs. apply existsb_exists in Hex.
    destruct Hex as (w & Hin & Hw). apply bool_decide_eq_true_1 in Hw.
    apply List.Exists_exists. exists w. split; [exact Hin | ].
    rewrite <- Hw. rewrite ToLower_ascii.
    - apply ToLower_spells.
    - apply forallb_forall. intros c Hc. apply Z.ltb_lt.
      rewrite List.Forall_forall in Hs. apply Hs. exact Hc. }
  unfold SimpleAtob. cbv zeta. split; [ | split].
  - intros Hsp. apply List.Exists_exists in Hsp.
    destruct Hsp as (w & Hin & Hsp).
    rewrite (Hword w (in_or_app _ _ _ (or_introl Hin)) Hsp).
    cbn [true_words In] in Hin.
    repeat destruct Hin as [<- | Hin]; try contradiction; reflexivity.
  - intros Hsp. apply List.Exists_exists in Hsp.
    destruct Hsp as (w & Hin & Hsp).
    rewrite (Hword w (in_or_app _ _ _ (or_intror Hin)) Hsp).
    cbn [false_words In] in Hin.
    repeat destruct Hin as [<- | Hin]; try contradiction; reflexivity.
  - intros Hs Hnt Hnf.
    destruct (existsb _ ["true"; "yes"; "on"; "1"]%string) eqn:Ht.
    + contradiction Hnt. apply (Hfound _ Ht Hs).
    + destruct (existsb _ ["false"; "no"; "off"; "0"]%string) eqn:Hf;
        [ | reflexivity].
      contradiction Hnf. apply (Hfound _ Hf Hs).
Qed.

End Atob.

Lemma SimpleAtob_words_witness :
  strengthen.SimpleAtob (fun s => s) (list_ascii_of_string "Yes") false = true
  /\ strengthen.SimpleAtob (fun s => s) (list_ascii_of_string "OFF") true = false.
Proof.
  split.
  - apply (proj1 (SimpleAtob_words (fun s => s) (list_ascii_of_string "Yes") false)).
    unfold spells_one, true_words. apply Exists_cons_tl, Exists_cons_hd.
    unfold spells, strings.byte_of. cbn.
    repeat (constructor;
            [first [left; reflexivity
                   | right; repeat split; vm_compute;
                     first [reflexivity | discriminate]] | ]).
    constructor.
  - apply (proj1 (proj2 (SimpleAtob_words (fun s => s)
                           (list_ascii_of_string "OFF") true))).
    unfold spells_one, false_words.
    apply Exists_cons_tl, Exists_cons_tl, Exists_cons_hd.
    unfold spells, strings.byte_of. cbn.
    repeat (constructor;
            [first [left; reflexivity
                   | right; repeat split; vm_compute;
                     first [reflexivity | discriminate]] | ]).
    constructor.
Defined.
